(** * simple-json-database: a shallow embedding of [index.js]

    The development follows the layout of the JavaScript source:

    - the JavaScript values a database can hold, with [typeof] and
      truthiness as the constructor's guards use them;
    - plain objects as the source uses them for the mirror ([this.data])
      and for the registry ([instances]): own properties in creation
      order, property reads that climb to [Object.prototype], property
      writes that meet the [__proto__] accessor;
    - [JSON.stringify] and [JSON.parse] on those values;
    - the parts of Node's [path] and [fs] modules the source calls;
    - the [Database] class itself, method by method, as programs of a
      state-and-exception monad over a [World] that holds the file
      system, the heap of [Database] objects, the registry, the timers
      and the clock.  *)

From Stdlib Require Import ZArith NArith Ascii String List.
From stdpp Require Import base list strings gmap pretty.

Open Scope string_scope.
Open Scope list_scope.

Set Warnings "-register-all".

(** ** JavaScript values *)

Module JS.

(** The values a caller stores: the serializable values of JSON, with
    [undefined].  Numbers are the integers (no fractions, no exponent). *)
Inductive value : Type :=
| VUndefined
| VNull
| VBool (b : bool)
| VNum (n : Z)
| VStr (s : string)
| VArr (items : list value)
| VObj (props : list (string * value)).

(** What a property read can produce: a stored value, or one of the
    built-in objects reached through the prototype chain. *)
Inductive jsval : Type :=
| JData (v : value)
| JBuiltin (name : string)
| JObjectPrototype
| JArrayPrototype.

Definition undefined : jsval := JData VUndefined.

Inductive type_tag : Type :=
| TUndefined | TObject | TBoolean | TNumber | TString | TFunction.

#[global] Instance type_tag_eq_dec : EqDecision type_tag.
Proof. solve_decision. Defined.

(** [typeof v] *)
Definition typeof (v : value) : type_tag :=
  match v with
  | VUndefined => TUndefined
  | VNull => TObject
  | VBool _ => TBoolean
  | VNum _ => TNumber
  | VStr _ => TString
  | VArr _ => TObject
  | VObj _ => TObject
  end.

(** [ToBoolean v], the test of [if (v)], [v && w] and [v || w]. *)
Definition truthy (v : value) : bool :=
  match v with
  | VUndefined | VNull => false
  | VBool b => b
  | VNum n => negb (n =? 0)%Z
  | VStr s => negb (String.eqb s "")
  | VArr _ | VObj _ => true
  end.

Definition jsval_truthy (j : jsval) : bool :=
  match j with
  | JData v => truthy v
  | _ => true
  end.

(** *** Property keys

    [OrdinaryOwnPropertyKeys] lists the keys that are array indices
    (canonical decimal numerals below 2^32-1) first, in ascending
    numeric order, and the other string keys after them in creation
    order. *)

Definition is_digit (c : ascii) : bool :=
  let n := nat_of_ascii c in (48 <=? n)%nat && (n <=? 57)%nat.

Fixpoint digits_value (acc : N) (s : string) : option N :=
  match s with
  | EmptyString => Some acc
  | String c s' =>
      if is_digit c
      then digits_value (10 * acc + N.of_nat (nat_of_ascii c - 48)) s'
      else None
  end.

Definition array_index (k : string) : option N :=
  match k with
  | EmptyString => None
  | String c rest =>
      match digits_value 0 k with
      | Some n =>
          if (negb (Ascii.eqb c "0") || String.eqb rest "")
             && (n <? 4294967295)%N
          then Some n else None
      | None => None
      end
  end.

Section Ordering.
Context {A : Type}.

Fixpoint insert_by_index (i : N) (e : string * A) (l : list (N * (string * A)))
  : list (N * (string * A)) :=
  match l with
  | [] => [(i, e)]
  | (j, e') :: l' =>
      if (i <? j)%N then (i, e) :: l
      else (j, e') :: insert_by_index i e l'
  end.

Fixpoint index_entries (props : list (string * A)) : list (N * (string * A)) :=
  match props with
  | [] => []
  | (k, x) :: props' =>
      match array_index k with
      | Some i => insert_by_index i (k, x) (index_entries props')
      | None => index_entries props'
      end
  end.

Fixpoint named_entries (props : list (string * A)) : list (string * A) :=
  match props with
  | [] => []
  | (k, x) :: props' =>
      match array_index k with
      | Some _ => named_entries props'
      | None => (k, x) :: named_entries props'
      end
  end.

(** The entries of an object in the order in which [Object.keys],
    [Object.values] and [JSON.stringify] visit them. *)
Definition enumeration_order (props : list (string * A)) : list (string * A) :=
  map snd (index_entries props) ++ named_entries props.

(** *** Own properties: an association list in creation order *)

Fixpoint own_lookup (k : string) (props : list (string * A)) : option A :=
  match props with
  | [] => None
  | (k', x) :: props' =>
      if String.eqb k k' then Some x else own_lookup k props'
  end.

(** [CreateDataProperty]: an existing key keeps its place, a new key
    is created last. *)
Fixpoint own_define (k : string) (x : A) (props : list (string * A))
  : list (string * A) :=
  match props with
  | [] => [(k, x)]
  | (k', x') :: props' =>
      if String.eqb k k' then (k, x) :: props'
      else (k', x') :: own_define k x props'
  end.

(** [delete o[k]] on own data properties. *)
Fixpoint own_delete (k : string) (props : list (string * A))
  : list (string * A) :=
  match props with
  | [] => []
  | (k', x') :: props' =>
      if String.eqb k k' then own_delete k props'
      else (k', x') :: own_delete k props'
  end.

Definition has_own (k : string) (props : list (string * A)) : bool :=
  match own_lookup k props with Some _ => true | None => false end.
End Ordering.

End JS.

(** ** [JSON.stringify] and [JSON.parse] *)

Module Json.
Import JS.

Definition hex_digit (n : nat) : ascii :=
  ascii_of_nat (if (n <? 10)%nat then 48 + n else 87 + n).

(** [QuoteJSONString], on one character. *)
Definition quote_char (c : ascii) : string :=
  let n := nat_of_ascii c in
  if (n =? 34)%nat then String "\" (String c "")
  else if (n =? 92)%nat then "\\"
  else if (n =? 8)%nat then "\b"
  else if (n =? 12)%nat then "\f"
  else if (n =? 10)%nat then "\n"
  else if (n =? 13)%nat then "\r"
  else if (n =? 9)%nat then "\t"
  else if (n <? 32)%nat
       then "\u00" +:+ String (hex_digit (n / 16)) (String (hex_digit (n mod 16)) "")
  else String c "".

Fixpoint quote_body (s : string) : string :=
  match s with
  | EmptyString => ""
  | String c s' => quote_char c +:+ quote_body s'
  end.

Definition dquote : string := String (ascii_of_nat 34) "".

Definition quote (s : string) : string := dquote +:+ quote_body s +:+ dquote.

Definition newline : string := String (ascii_of_nat 10) "".

Fixpoint join (sep : string) (parts : list string) : string :=
  match parts with
  | [] => ""
  | [p] => p
  | p :: ps => p +:+ sep +:+ join sep ps
  end.

(** The text between the brackets of an array or an object, given the
    serialized members. *)
Definition wrap (opening closing gap stepback indent : string)
    (parts : list string) : string :=
  match parts with
  | [] => opening +:+ closing
  | _ =>
      if String.eqb gap ""
      then opening +:+ join "," parts +:+ closing
      else opening +:+ newline +:+ indent
             +:+ join ("," +:+ newline +:+ indent) parts
             +:+ newline +:+ stepback +:+ closing
  end.

Definition member (gap : string) (kv : string * option string) : option string :=
  match kv with
  | (k, Some text) =>
      Some (quote k +:+ ":" +:+ (if String.eqb gap "" then "" else " ") +:+ text)
  | (_, None) => None
  end.

(** [SerializeJSONProperty]: [None] is the result [undefined]. *)
Fixpoint serialize (gap indent : string) (v : value) : option string :=
  match v with
  | VUndefined => None
  | VNull => Some "null"
  | VBool true => Some "true"
  | VBool false => Some "false"
  | VNum n => Some (pretty n)
  | VStr s => Some (quote s)
  | VArr items =>
      let inner := indent +:+ gap in
      Some (wrap "[" "]" gap indent inner
              (map (fun x => default "null" (serialize gap inner x)) items))
  | VObj props =>
      let inner := indent +:+ gap in
      Some (wrap "{" "}" gap indent inner
              (omap (member gap)
                 (enumeration_order
                    (map (fun kx => (fst kx, serialize gap inner (snd kx))) props))))
  end.

Fixpoint spaces (n : nat) : string :=
  match n with
  | O => ""
  | S n' => " " +:+ spaces n'
  end.

(** [JSON.stringify(v, null, space)] for a numeric [space]: the gap is
    [min(10, space)] blanks, or empty when [space < 1]. *)
Definition JSON_stringify (v : value) (space : Z) : option string :=
  serialize (spaces (Z.to_nat (Z.min 10 space))) "" v.

(** *** [JSON.parse]

    A recursive-descent reader of JSON text.  The fragment read is the one
    [value] can hold: numbers are integer literals of magnitude at most
    2^53, strings use the two-character escapes.  A text that JavaScript
    would read but that leaves this fragment (a fraction, an exponent, a
    [\u] escape) is reported as [PBeyond], never as a syntax error. *)

Inductive parsed (A : Type) : Type :=
| POk (x : A) (rest : string)
| PSyntaxError
| PBeyond.
Arguments POk {A} x rest.
Arguments PSyntaxError {A}.
Arguments PBeyond {A}.

Definition pmap {A B : Type} (f : A -> B) (r : parsed A) : parsed B :=
  match r with
  | POk x rest => POk (f x) rest
  | PSyntaxError => PSyntaxError
  | PBeyond => PBeyond
  end.

Definition is_ws (c : ascii) : bool :=
  let n := nat_of_ascii c in
  (n =? 32)%nat || (n =? 9)%nat || (n =? 10)%nat || (n =? 13)%nat.

Fixpoint skip_ws (s : string) : string :=
  match s with
  | EmptyString => ""
  | String c s' => if is_ws c then skip_ws s' else s
  end.

Fixpoint strip_prefix (p s : string) : option string :=
  match p, s with
  | EmptyString, _ => Some s
  | String a p', String b s' => if Ascii.eqb a b then strip_prefix p' s' else None
  | String _ _, EmptyString => None
  end.

Definition unescape (c : ascii) : option ascii :=
  let n := nat_of_ascii c in
  if (n =? 34)%nat || (n =? 92)%nat || (n =? 47)%nat then Some c
  else if Ascii.eqb c "b" then Some (ascii_of_nat 8)
  else if Ascii.eqb c "f" then Some (ascii_of_nat 12)
  else if Ascii.eqb c "n" then Some (ascii_of_nat 10)
  else if Ascii.eqb c "r" then Some (ascii_of_nat 13)
  else if Ascii.eqb c "t" then Some (ascii_of_nat 9)
  else None.

(** The characters of a string literal, after its opening quote. *)
Fixpoint parse_string_body (s : string) : parsed string :=
  match s with
  | EmptyString => PSyntaxError
  | String c s' =>
      if (nat_of_ascii c =? 34)%nat then POk "" s'
      else if (nat_of_ascii c =? 92)%nat then
        match s' with
        | EmptyString => PSyntaxError
        | String e s'' =>
            match unescape e with
            | Some ch => pmap (String ch) (parse_string_body s'')
            | None => if Ascii.eqb e "u" then PBeyond else PSyntaxError
            end
        end
      else if (nat_of_ascii c <? 32)%nat then PSyntaxError
      else pmap (String c) (parse_string_body s')
  end.

Fixpoint parse_digits (acc : Z) (s : string) : Z * string :=
  match s with
  | EmptyString => (acc, "")
  | String c s' =>
      if is_digit c
      then parse_digits (10 * acc + Z.of_nat (nat_of_ascii c - 48)) s'
      else (acc, s)
  end.

Definition starts_fraction_or_exponent (s : string) : bool :=
  match s with
  | String c _ => Ascii.eqb c "." || Ascii.eqb c "e" || Ascii.eqb c "E"
  | EmptyString => false
  end.

Definition parse_unsigned (s : string) : parsed Z :=
  match s with
  | String c s' =>
      if Ascii.eqb c "0" then
        if starts_fraction_or_exponent s' then PBeyond else POk 0%Z s'
      else if is_digit c then
        let '(n, rest) := parse_digits 0 s in
        if starts_fraction_or_exponent rest then PBeyond
        else if (n <=? 2 ^ 53)%Z then POk n rest else PBeyond
      else PSyntaxError
  | EmptyString => PSyntaxError
  end.

Definition parse_number (s : string) : parsed Z :=
  match s with
  | String c s' =>
      if Ascii.eqb c "-" then pmap Z.opp (parse_unsigned s') else parse_unsigned s
  | EmptyString => PSyntaxError
  end.

Fixpoint parse_value (fuel : nat) (s : string) : parsed value :=
  match fuel with
  | O => PBeyond
  | S fuel' =>
      match skip_ws s with
      | EmptyString => PSyntaxError
      | String c s' =>
          if Ascii.eqb c "{" then
            match skip_ws s' with
            | String d s'' =>
                if Ascii.eqb d "}" then POk (VObj []) s''
                else parse_members fuel' (skip_ws s') []
            | EmptyString => PSyntaxError
            end
          else if Ascii.eqb c "[" then
            match skip_ws s' with
            | String d s'' =>
                if Ascii.eqb d "]" then POk (VArr []) s''
                else parse_elements fuel' s' []
            | EmptyString => PSyntaxError
            end
          else if (nat_of_ascii c =? 34)%nat then pmap VStr (parse_string_body s')
          else if Ascii.eqb c "n" then
            match strip_prefix "ull" s' with
            | Some rest => POk VNull rest | None => PSyntaxError end
          else if Ascii.eqb c "t" then
            match strip_prefix "rue" s' with
            | Some rest => POk (VBool true) rest | None => PSyntaxError end
          else if Ascii.eqb c "f" then
            match strip_prefix "alse" s' with
            | Some rest => POk (VBool false) rest | None => PSyntaxError end
          else pmap VNum (parse_number (String c s'))
      end
  end
with parse_elements (fuel : nat) (s : string) (acc : list value) : parsed value :=
  match fuel with
  | O => PBeyond
  | S fuel' =>
      match parse_value fuel' s with
      | POk v rest =>
          match skip_ws rest with
          | String c rest' =>
              if Ascii.eqb c "," then parse_elements fuel' rest' (acc ++ [v])
              else if Ascii.eqb c "]" then POk (VArr (acc ++ [v])) rest'
              else PSyntaxError
          | EmptyString => PSyntaxError
          end
      | PSyntaxError => PSyntaxError
      | PBeyond => PBeyond
      end
  end
with parse_members (fuel : nat) (s : string) (props : list (string * value))
  : parsed value :=
  match fuel with
  | O => PBeyond
  | S fuel' =>
      match s with
      | String q s' =>
          if (nat_of_ascii q =? 34)%nat then
            match parse_string_body s' with
            | POk k rest =>
                match skip_ws rest with
                | String c rest' =>
                    if Ascii.eqb c ":" then
                      match parse_value fuel' rest' with
                      | POk v rest'' =>
                          match skip_ws rest'' with
                          | String d rest3 =>
                              if Ascii.eqb d ","
                              then parse_members fuel' (skip_ws rest3)
                                     (own_define k v props)
                              else if Ascii.eqb d "}"
                              then POk (VObj (own_define k v props)) rest3
                              else PSyntaxError
                          | EmptyString => PSyntaxError
                          end
                      | PSyntaxError => PSyntaxError
                      | PBeyond => PBeyond
                      end
                    else PSyntaxError
                | EmptyString => PSyntaxError
                end
            | PSyntaxError => PSyntaxError
            | PBeyond => PBeyond
            end
          else PSyntaxError
      | EmptyString => PSyntaxError
      end
  end.

(** [JSON.parse(text)]: one value, then only white space. *)
Definition JSON_parse (text : string) : parsed value :=
  match parse_value (2 * String.length text + 2) text with
  | POk v rest =>
      match skip_ws rest with
      | EmptyString => POk v ""
      | String _ _ => PSyntaxError
      end
  | PSyntaxError => PSyntaxError
  | PBeyond => PBeyond
  end.

End Json.

(** ** Node's [path] module (POSIX flavour) *)

Module Path.

Definition is_slash (c : ascii) : bool := Ascii.eqb c "/".

Definition chars (s : string) : list ascii := list_ascii_of_string s.
Definition text (l : list ascii) : string := string_of_list_ascii l.

Fixpoint drop_while (f : ascii -> bool) (l : list ascii) : list ascii :=
  match l with
  | [] => []
  | c :: l' => if f c then drop_while f l' else l
  end.

Fixpoint take_while (f : ascii -> bool) (l : list ascii) : list ascii :=
  match l with
  | [] => []
  | c :: l' => if f c then c :: take_while f l' else []
  end.

(** [path.basename(p)]: the last portion of [p], trailing separators
    ignored. *)
Definition basename (p : string) : string :=
  let r := drop_while is_slash (rev (chars p)) in
  text (rev (take_while (fun c => negb (is_slash c)) r)).

(** [path.dirname(p)]: scanning from the end down to index 1, the text
    before the first separator that follows a name. *)
Definition dirname (p : string) : string :=
  match chars p with
  | [] => "."
  | c0 :: rest =>
      let hasRoot := is_slash c0 in
      let r1 := drop_while is_slash (rev rest) in
      let r2 := drop_while (fun c => negb (is_slash c)) r1 in
      match r2 with
      | [] => if hasRoot then "/" else "."
      | _ :: before =>
          if hasRoot && (length r2 =? 1)%nat then "//"
          else text (c0 :: rev before)
      end
  end.

(** [s.split(sep)] for a one-character separator. *)
Fixpoint split_on (sep : ascii) (l : list ascii) : list (list ascii) :=
  match l with
  | [] => [[]]
  | c :: l' =>
      if Ascii.eqb c sep then [] :: split_on sep l'
      else match split_on sep l' with
           | [] => [[c]]
           | seg :: segs => (c :: seg) :: segs
           end
  end.

Definition split (sep : ascii) (s : string) : list string :=
  map text (split_on sep (chars s)).

(** [normalizeString]: drops empty and [.] segments and resolves [..]
    against the segments kept so far ([kept] is in reverse order). *)
Fixpoint normalize_segments (allowAboveRoot : bool) (kept segs : list string)
  : list string :=
  match segs with
  | [] => rev kept
  | seg :: segs' =>
      if String.eqb seg "" || String.eqb seg "." then
        normalize_segments allowAboveRoot kept segs'
      else if String.eqb seg ".." then
        match kept with
        | top :: kept' =>
            if String.eqb top ".."
            then normalize_segments allowAboveRoot (seg :: kept) segs'
            else normalize_segments allowAboveRoot kept' segs'
        | [] =>
            if allowAboveRoot
            then normalize_segments allowAboveRoot [seg] segs'
            else normalize_segments allowAboveRoot [] segs'
        end
      else normalize_segments allowAboveRoot (seg :: kept) segs'
  end.

Definition ends_with_slash (p : string) : bool :=
  match rev (chars p) with
  | c :: _ => is_slash c
  | [] => false
  end.

Definition is_absolute (p : string) : bool :=
  match chars p with
  | c :: _ => is_slash c
  | [] => false
  end.

(** [path.normalize(p)] *)
Definition normalize (p : string) : string :=
  if String.eqb p "" then "."
  else
    let body :=
      Json.join "/" (normalize_segments (negb (is_absolute p)) [] (split "/" p)) in
    if String.eqb body "" then
      if is_absolute p then "/"
      else if ends_with_slash p then "./" else "."
    else
      (if is_absolute p then "/" else "") +:+ body
        +:+ (if ends_with_slash p then "/" else "").

(** [path.join(a, b)] *)
Definition path_join (a b : string) : string :=
  match String.eqb a "", String.eqb b "" with
  | true, true => "."
  | true, false => normalize b
  | false, true => normalize a
  | false, false => normalize (a +:+ "/" +:+ b)
  end.

End Path.

(** ** Outcomes of JavaScript code *)

Module Outcome.

Inductive error : Type :=
| Error (message : string)              (* [throw new Error(message)] *)
| TypeError (message : string)
| SyntaxError (message : string)
| SystemError (code : string) (path : string).

(** A call returns, throws, or leaves what this development models
    ([Beyond]: an exotic array write, a JSON text outside the fragment). *)
Inductive outcome (A : Type) : Type :=
| Return (x : A)
| Throw (e : error)
| Beyond (what : string).
Arguments Return {A} x.
Arguments Throw {A} e.
Arguments Beyond {A} what.

(** The two classes of error the specification names. *)
Definition InvalidArgument (e : error) : Prop :=
  e = Error "Provide a valid file path for the database"
  \/ e = Error "Provide a valid file path for database snapshots"
  \/ e = Error "Provide the interval in milliseconds for snapshot creation".

Definition FormatError (e : error) : Prop :=
  e = Error "Data is not a valid object".

End Outcome.

(** ** Node's [fs] module *)

Module Fs.
Import Path Outcome.

(** Files and directories by canonical path: normalized, without a
    trailing separator.  Relative paths are relative to the working
    directory [.]. *)
Record FileSystem : Type := {
  files : gmap string string;
  dirs : gset string
}.

Definition canon (p : string) : string :=
  let n := normalize p in
  match rev (chars n) with
  | c :: (c' :: r) => if is_slash c then text (rev (c' :: r)) else n
  | _ => n
  end.

Inductive stat : Type :=
| Missing
| File (content : string)
| Directory
| NotADirectory.   (* [file/]: a regular file named with a trailing separator *)

Definition lookup_path (fs : FileSystem) (p : string) : stat :=
  if String.eqb p "" then Missing
  else if bool_decide (canon p ∈ dirs fs) then Directory
  else match files fs !! canon p with
       | Some content => if ends_with_slash p then NotADirectory else File content
       | None => Missing
       end.

(** [fs.existsSync(p)] *)
Definition existsSync (fs : FileSystem) (p : string) : bool :=
  match lookup_path fs p with
  | File _ | Directory => true
  | Missing | NotADirectory => false
  end.

(** The directory that must exist for [p] to be created. *)
Definition parent (p : string) : string := dirname (canon p).

Definition check_parent (fs : FileSystem) (p : string) : option error :=
  if String.eqb p "" then Some (SystemError "ENOENT" p)
  else match lookup_path fs (parent p) with
       | Directory => None
       | File _ | NotADirectory => Some (SystemError "ENOTDIR" p)
       | Missing => Some (SystemError "ENOENT" p)
       end.

(** [fs.mkdirSync(p)], not recursive. *)
Definition mkdirSync (fs : FileSystem) (p : string) : outcome FileSystem :=
  match lookup_path fs p with
  | File _ | Directory | NotADirectory => Throw (SystemError "EEXIST" p)
  | Missing =>
      match check_parent fs p with
      | Some e => Throw e
      | None => Return {| files := files fs; dirs := {[canon p]} ∪ dirs fs |}
      end
  end.

(** [fs.writeFileSync(p, data, "utf-8")] for a string [data]: the file is
    created or truncated, then holds exactly [data]. *)
Definition writeFileSync (fs : FileSystem) (p : string) (data : string)
  : outcome FileSystem :=
  match lookup_path fs p with
  | Directory => Throw (SystemError "EISDIR" p)
  | NotADirectory => Throw (SystemError "ENOTDIR" p)
  | File _ => Return {| files := <[canon p := data]> (files fs); dirs := dirs fs |}
  | Missing =>
      match check_parent fs p with
      | Some e => Throw e
      | None =>
          if ends_with_slash p then Throw (SystemError "EISDIR" p)
          else Return {| files := <[canon p := data]> (files fs); dirs := dirs fs |}
      end
  end.

(** [fs.readFileSync(p)], the bytes read as text. *)
Definition readFileSync (fs : FileSystem) (p : string) : outcome string :=
  match lookup_path fs p with
  | File content => Return content
  | Directory => Throw (SystemError "EISDIR" p)
  | NotADirectory => Throw (SystemError "ENOTDIR" p)
  | Missing => Throw (SystemError "ENOENT" p)
  end.

(** The bytes of the file at [p], if there is one. *)
Definition contents (fs : FileSystem) (p : string) : option string :=
  files fs !! canon p.

End Fs.

(** ** The object behind [this.data] *)

Module Mirror.
Import JS Outcome.

(** The [[Prototype]] of a mirror object.  A fresh [{}] and an object
    read by [JSON.parse] have [Object.prototype]; an assignment to
    [__proto__] can replace it by [null] or by a stored object. *)
Inductive proto : Type :=
| ProtoObject
| ProtoNull
| ProtoPlain (props : list (string * value))
| ProtoArray (items : list value).

(** What [this.data] can refer to: nothing yet (the field is not
    assigned), [null], an array, or an ordinary object with its own
    properties in creation order. *)
Inductive mirror : Type :=
| MUndefined
| MNull
| MArr (items : list value)
| MObj (p : proto) (own : list (string * value)).

(** [{}] *)
Definition empty_object : mirror := MObj ProtoObject [].

(** The value a mirror is, for [JSON.stringify] (which reads own
    properties only). *)
Definition mirror_value (m : mirror) : value :=
  match m with
  | MUndefined => VUndefined
  | MNull => VNull
  | MArr items => VArr items
  | MObj _ own => VObj own
  end.

(** The object a parsed value of type [object] refers to.  Only called
    under the guard [typeof v = TObject]. *)
Definition mirror_of (v : value) : mirror :=
  match v with
  | VNull => MNull
  | VArr items => MArr items
  | VObj props => MObj ProtoObject props
  | _ => MUndefined
  end.

(** The string-keyed properties of [Object.prototype], apart from the
    accessor [__proto__]. *)
Definition object_prototype_names : list string :=
  [ "constructor"; "__defineGetter__"; "__defineSetter__"; "hasOwnProperty";
    "__lookupGetter__"; "__lookupSetter__"; "isPrototypeOf";
    "propertyIsEnumerable"; "toString"; "valueOf"; "toLocaleString" ].

(** The string-keyed properties of [Array.prototype] (ECMAScript 2023),
    apart from [constructor] and [length]. *)
Definition array_prototype_names : list string :=
  [ "at"; "concat"; "copyWithin"; "entries"; "every"; "fill"; "filter";
    "find"; "findIndex"; "findLast"; "findLastIndex"; "flat"; "flatMap";
    "forEach"; "includes"; "indexOf"; "join"; "keys"; "lastIndexOf"; "map";
    "pop"; "push"; "reduce"; "reduceRight"; "reverse"; "shift"; "slice";
    "some"; "sort"; "splice"; "toLocaleString"; "toReversed"; "toSorted";
    "toSpliced"; "toString"; "unshift"; "values"; "with" ].

Definition mem (k : string) (l : list string) : bool :=
  existsb (String.eqb k) l.

(** A read that reached [Object.prototype]; [receiver_proto] is what the
    [__proto__] getter answers. *)
Definition object_prototype_get (receiver_proto : jsval) (k : string) : jsval :=
  if String.eqb k "__proto__" then receiver_proto
  else if String.eqb k "constructor" then JBuiltin "Object"
  else if mem k object_prototype_names then JBuiltin ("Object.prototype." +:+ k)
  else undefined.

Definition array_prototype_get (receiver_proto : jsval) (k : string) : jsval :=
  if String.eqb k "constructor" then JBuiltin "Array"
  else if String.eqb k "length" then JData (VNum 0)
  else if mem k array_prototype_names then JBuiltin ("Array.prototype." +:+ k)
  else object_prototype_get receiver_proto k.

(** The own properties of an array: its elements and [length]. *)
Definition array_own_get (items : list value) (k : string) : option value :=
  if String.eqb k "length" then Some (VNum (Z.of_nat (length items)))
  else match array_index k with
       | Some i => items !! N.to_nat i
       | None => None
       end.

Definition proto_value (p : proto) : jsval :=
  match p with
  | ProtoObject => JObjectPrototype
  | ProtoNull => JData VNull
  | ProtoPlain props => JData (VObj props)
  | ProtoArray items => JData (VArr items)
  end.

(** A read that did not find an own property and climbs the chain. *)
Definition proto_get (p : proto) (k : string) : jsval :=
  match p with
  | ProtoObject => object_prototype_get JObjectPrototype k
  | ProtoNull => undefined
  | ProtoPlain props =>
      match own_lookup k props with
      | Some v => JData v
      | None => object_prototype_get (proto_value p) k
      end
  | ProtoArray items =>
      match array_own_get items k with
      | Some v => JData v
      | None => array_prototype_get (proto_value p) k
      end
  end.

(** [m[k]] *)
Definition mirror_get (m : mirror) (k : string) : outcome jsval :=
  match m with
  | MUndefined => Throw (TypeError "Cannot read properties of undefined")
  | MNull => Throw (TypeError "Cannot read properties of null")
  | MArr items =>
      match array_own_get items k with
      | Some v => Return (JData v)
      | None => Return (array_prototype_get JArrayPrototype k)
      end
  | MObj p own =>
      match own_lookup k own with
      | Some v => Return (JData v)
      | None => Return (proto_get p k)
      end
  end.

(** Whether a write of [__proto__] that found no own property reaches
    the accessor of [Object.prototype]: not when the chain ends at [null],
    nor when an object on the way has a data property of that name. *)
Definition reaches_proto_setter (p : proto) : bool :=
  match p with
  | ProtoObject => true
  | ProtoNull => false
  | ProtoPlain props => negb (has_own "__proto__" props)
  | ProtoArray _ => true
  end.

(** The setter of [__proto__]: an object or [null] becomes the
    prototype, any other value is ignored. *)
Definition set_prototype (p : proto) (v : value) : proto :=
  match v with
  | VNull => ProtoNull
  | VObj props => ProtoPlain props
  | VArr items => ProtoArray items
  | _ => p
  end.

(** [o[k] = v] on an ordinary object with prototype [p] and own
    properties [own]: an own property is overwritten; otherwise the write
    climbs the chain, where every property is a writable data property
    (the write then creates an own property) except the accessor
    [__proto__]. *)
Definition object_set (p : proto) (own : list (string * value)) (k : string)
    (v : value) : proto * list (string * value) :=
  if has_own k own then (p, own_define k v own)
  else if String.eqb k "__proto__" && reaches_proto_setter p
  then (set_prototype p v, own)
  else (p, own_define k v own).

(** [m[k] = v], in strict mode. *)
Definition mirror_set (m : mirror) (k : string) (v : value) : outcome mirror :=
  match m with
  | MUndefined => Throw (TypeError "Cannot set properties of undefined")
  | MNull => Throw (TypeError "Cannot set properties of null")
  | MArr _ => Beyond "write to an array"
  | MObj p own =>
      let '(p', own') := object_set p own k v in Return (MObj p' own')
  end.

(** [delete m[k]], in strict mode. *)
Definition mirror_delete (m : mirror) (k : string) : outcome mirror :=
  match m with
  | MUndefined => Throw (TypeError "Cannot convert undefined or null to object")
  | MNull => Throw (TypeError "Cannot convert undefined or null to object")
  | MArr _ => Beyond "delete from an array"
  | MObj p own => Return (MObj p (own_delete k own))
  end.

(** [Object.prototype.hasOwnProperty.call(m, k)] *)
Definition mirror_has_own (m : mirror) (k : string) : outcome bool :=
  match m with
  | MUndefined | MNull =>
      Throw (TypeError "Cannot convert undefined or null to object")
  | MArr items =>
      Return (match array_own_get items k with Some _ => true | None => false end)
  | MObj _ own => Return (has_own k own)
  end.

(** The own enumerable string-keyed properties, in the order of
    [Object.keys]. *)
Definition mirror_entries (m : mirror) : outcome (list (string * value)) :=
  match m with
  | MUndefined | MNull =>
      Throw (TypeError "Cannot convert undefined or null to object")
  | MArr items => Return (imap (fun i x => (pretty i, x)) items)
  | MObj _ own => Return (enumeration_order own)
  end.

End Mirror.

(** ** The world a [Database] lives in *)

Module Runtime.
Import JS Outcome Fs Mirror.

(** [SnapshotOptions]; an absent field is [VUndefined]. *)
Record SnapshotOptions : Type := {
  enabled : value;
  path : value;
  interval : value
}.

(** [DatabaseOptions].  [forceNew] and [indented] are the two options the
    README documents beside [snapshots]. *)
Record DatabaseOptions : Type := {
  snapshots : option SnapshotOptions;
  forceNew : value;
  indented : value
}.

(** [{}] *)
Definition no_options : DatabaseOptions :=
  {| snapshots := None; forceNew := VUndefined; indented := VUndefined |}.

(** The fields of a [Database] object. *)
Record Database : Type := {
  jsonFilePath : string;
  options : DatabaseOptions;
  data : mirror
}.

(** Objects are referred to by address. *)
Abbreviation ref := nat.

(** A timer started by [setInterval]: every [period] milliseconds it
    calls [owner.makeSnapshot(folder)]. *)
Record Timer : Type := {
  owner : ref;
  folder : string;
  period : Z
}.

Record World : Type := {
  fs : FileSystem;
  heap : gmap nat Database;          (* the [Database] objects *)
  instances : gmap string nat;       (* own properties of [instances] *)
  timers : list Timer;
  now : Z;                           (* what [Date.now()] answers *)
  coerces_data : bool;               (* Node before 14: [writeFileSync]
                                        writes [String(data)] for a [data]
                                        that is no string *)
  write_log : list string            (* completed [writeFileSync] calls,
                                        latest first *)
}.

Definition with_fs (f : FileSystem) (w : World) : World :=
  {| fs := f; heap := heap w; instances := instances w; timers := timers w;
     now := now w; coerces_data := coerces_data w; write_log := write_log w |}.

Definition with_heap (h : gmap nat Database) (w : World) : World :=
  {| fs := fs w; heap := h; instances := instances w; timers := timers w;
     now := now w; coerces_data := coerces_data w; write_log := write_log w |}.

Definition with_instances (i : gmap string nat) (w : World) : World :=
  {| fs := fs w; heap := heap w; instances := i; timers := timers w;
     now := now w; coerces_data := coerces_data w; write_log := write_log w |}.

Definition with_timers (t : list Timer) (w : World) : World :=
  {| fs := fs w; heap := heap w; instances := instances w; timers := t;
     now := now w; coerces_data := coerces_data w; write_log := write_log w |}.

Definition with_write_log (l : list string) (w : World) : World :=
  {| fs := fs w; heap := heap w; instances := instances w; timers := timers w;
     now := now w; coerces_data := coerces_data w; write_log := l |}.

(** *** Programs: state passing with exceptions

    A throw keeps the world as it is at the throw: what was mutated
    before stays mutated. *)
Definition M (A : Type) : Type := World -> outcome A * World.

#[global] Instance M_ret : MRet M := fun A x w => (Return x, w).

#[global] Instance M_bind : MBind M := fun A B f c w =>
  match c w with
  | (Return x, w') => f x w'
  | (Throw e, w') => (Throw e, w')
  | (Beyond what, w') => (Beyond what, w')
  end.

Definition throw {A : Type} (e : error) : M A := fun w => (Throw e, w).

Definition beyond {A : Type} (what : string) : M A := fun w => (Beyond what, w).

(** A pure step that may fail. *)
Definition lift {A : Type} (o : outcome A) : M A := fun w => (o, w).

Definition when (b : bool) (c : M unit) : M unit :=
  if b then c else mret ().

(** *** [fs] calls as programs *)

Definition fs_existsSync (p : string) : M bool :=
  fun w => (Return (existsSync (fs w) p), w).

Definition fs_mkdirSync (p : string) : M unit :=
  fun w =>
    match mkdirSync (fs w) p with
    | Return f => (Return (), with_fs f w)
    | Throw e => (Throw e, w)
    | Beyond what => (Beyond what, w)
    end.

Definition fs_readFileSync (p : string) : M string :=
  fun w => (readFileSync (fs w) p, w).

(** [fs.writeFileSync(p, data)].  A [data] that is [undefined] is refused
    with a [TypeError] before the file is opened; Node before version 14
    wrote the text [undefined] instead. *)
Definition fs_writeFileSync (p : string) (data : option string) : M unit :=
  fun w =>
    match data with
    | None =>
        if coerces_data w then
          match writeFileSync (fs w) p "undefined" with
          | Return f =>
              (Return (), with_write_log (canon p :: write_log w) (with_fs f w))
          | Throw e => (Throw e, w)
          | Beyond what => (Beyond what, w)
          end
        else (Throw (TypeError "The data argument must be of type string"), w)
    | Some text =>
        match writeFileSync (fs w) p text with
        | Return f =>
            (Return (), with_write_log (canon p :: write_log w) (with_fs f w))
        | Throw e => (Throw e, w)
        | Beyond what => (Beyond what, w)
        end
    end.

(** [Date.now()] *)
Definition Date_now : M Z := fun w => (Return (now w), w).

(** *** The heap *)

Definition deref (this : ref) : M Database :=
  fun w =>
    match heap w !! this with
    | Some db => (Return db, w)
    | None => (Beyond "no such object", w)
    end.

(** [new]: a fresh object with the given fields. *)
Definition alloc (db : Database) : M ref :=
  fun w =>
    let this := fresh (dom (heap w)) in
    (Return this, with_heap (<[this := db]> (heap w)) w).

Definition with_data (m : mirror) (db : Database) : Database :=
  {| jsonFilePath := jsonFilePath db; options := options db; data := m |}.

(** [this.data = m] *)
Definition assign_data (this : ref) (m : mirror) : M unit :=
  fun w =>
    match heap w !! this with
    | Some db => (Return (), with_heap (<[this := with_data m db]> (heap w)) w)
    | None => (Beyond "no such object", w)
    end.

(** [setInterval(() => this.makeSnapshot(path), interval)] *)
Definition setInterval (this : ref) (path : string) (interval : Z) : M unit :=
  fun w =>
    (Return (),
     with_timers ({| owner := this; folder := path; period := interval |}
                    :: timers w) w).

End Runtime.

(** ** The class [Database] *)

Module Db.
Import JS Json Path Outcome Fs Mirror Runtime.

(** [v && typeof v === "string"], with the string when the test holds. *)
Definition as_string (v : value) : option string :=
  if truthy v && bool_decide (typeof v = TString)
  then match v with VStr s => Some s | _ => None end
  else None.

(** [typeof v === "number"], with the number when the test holds. *)
Definition as_number (v : value) : option Z :=
  if bool_decide (typeof v = TNumber)
  then match v with VNum n => Some n | _ => None end
  else None.

(** What a [new Database(...)] expression evaluates to: a [Database]
    object, or the object the constructor returned in its place. *)
Inductive constructed : Type :=
| Store (this : ref)
| Inherited (j : jsval).

(** [instances[filePath]]: an own entry, or what the registry object
    inherits from [Object.prototype] under that name. *)
Definition instances_get (filePath : string) : M (option constructed) :=
  fun w =>
    match instances w !! filePath with
    | Some this => (Return (Some (Store this)), w)
    | None =>
        let j := object_prototype_get JObjectPrototype filePath in
        (Return (if jsval_truthy j then Some (Inherited j) else None), w)
    end.

(** [instances[filePath] = this]; only reached when the read above found
    nothing, so the write creates an own property. *)
Definition instances_set (filePath : string) (this : ref) : M unit :=
  fun w => (Return (), with_instances (<[filePath := this]> (instances w)) w).

(** [fetchDataFromFile()] *)
Definition fetchDataFromFile (this : ref) : M unit :=
  db ← deref this;
  text ← fs_readFileSync (jsonFilePath db);
  match JSON_parse text with
  | POk savedData _ =>
      if bool_decide (typeof savedData = TObject)
      then assign_data this (mirror_of savedData)
      else throw (Error "Data is not a valid object")
  | PSyntaxError => throw (SyntaxError "Unexpected token in JSON")
  | PBeyond => beyond "JSON text outside the fragment"
  end.

(** [saveDataToFile()] *)
Definition saveDataToFile (this : ref) : M unit :=
  db ← deref this;
  fs_writeFileSync (jsonFilePath db) (JSON_stringify (mirror_value (data db)) 2).

(** The name [makeSnapshot] gives the snapshot of the file at [filePath]
    taken at [time]. *)
Definition snapshot_name (filePath : string) (time : Z) : string :=
  let splitName := removelast (split "." (basename filePath)) in
  let databaseName := join "." splitName in
  "snapshot-" +:+ databaseName +:+ "-" +:+ pretty time +:+ ".json".

(** [makeSnapshot(folderPath)] *)
Definition makeSnapshot (this : ref) (folderPath : string) : M unit :=
  db ← deref this;
  there ← fs_existsSync folderPath;
  _ ← when (negb there) (fs_mkdirSync folderPath);
  time ← Date_now;
  let fileName := snapshot_name (jsonFilePath db) time in
  fs_writeFileSync (path_join folderPath fileName) None.

(** The constructor from the validation of the snapshot options on:
    [this] is allocated and registered, [opts] is [this.options]. *)
Definition initialise (this : ref) (filePath : string) (opts : DatabaseOptions)
  : M unit :=
  _ ← match snapshots opts with
      | Some snap =>
          if truthy (enabled snap) then
            match as_string (path snap) with
            | None =>
                throw (Error "Provide a valid file path for database snapshots")
            | Some path =>
                match as_number (interval snap) with
                | None =>
                    throw (Error "Provide the interval in milliseconds for snapshot creation")
                | Some interval =>
                    there ← fs_existsSync path;
                    _ ← when (negb there) (fs_mkdirSync path);
                    setInterval this path interval
                end
            end
          else mret ()
      | None => mret ()
      end;
  _ ← assign_data this empty_object;
  there ← fs_existsSync filePath;
  if negb there then
    let parentPath := dirname filePath in
    above ← fs_existsSync parentPath;
    _ ← when (negb above) (fs_mkdirSync parentPath);
    fs_writeFileSync filePath (Some "{}")
  else fetchDataFromFile this.

(** [new Database(filePath, options)] *)
Definition constructor (filePath : value) (opts : option DatabaseOptions)
  : M constructed :=
  match as_string filePath with
  | None => throw (Error "Provide a valid file path for the database")
  | Some filePath =>
      existing ← instances_get filePath;
      match existing with
      | Some found => mret found
      | None =>
          let opts := default no_options opts in
          this ← alloc {| jsonFilePath := filePath;
                          options := opts;
                          data := MUndefined |};
          _ ← instances_set filePath this;
          _ ← initialise this filePath opts;
          mret (Store this)
      end
  end.

(** [get(key)] *)
Definition get (this : ref) (key : string) : M jsval :=
  db ← deref this;
  lift (mirror_get (data db) key).

(** [setLocal(key, value)] *)
Definition setLocal (this : ref) (key : string) (v : value) : M unit :=
  db ← deref this;
  m ← lift (mirror_set (data db) key v);
  assign_data this m.

(** [set(key, value)] *)
Definition set (this : ref) (key : string) (v : value) : M unit :=
  db ← deref this;
  m ← lift (mirror_set (data db) key v);
  _ ← assign_data this m;
  saveDataToFile this.

(** [update(key, callback)] *)
Definition update (this : ref) (key : string) (callback : jsval -> M value)
  : M unit :=
  v ← get this key;
  newValue ← callback v;
  set this key newValue.

(** [updateLocal(key, callback)] *)
Definition updateLocal (this : ref) (key : string) (callback : jsval -> M value)
  : M unit :=
  v ← get this key;
  newValue ← callback v;
  setLocal this key newValue.

(** [deleteLocal(key)] *)
Definition deleteLocal (this : ref) (key : string) : M unit :=
  db ← deref this;
  m ← lift (mirror_delete (data db) key);
  assign_data this m.

(** [delete(key)] *)
Definition delete (this : ref) (key : string) : M unit :=
  db ← deref this;
  m ← lift (mirror_delete (data db) key);
  _ ← assign_data this m;
  saveDataToFile this.

(** [deleteAllLocal()] *)
Definition deleteAllLocal (this : ref) : M unit :=
  assign_data this empty_object.

(** [deleteAll()] *)
Definition deleteAll (this : ref) : M unit :=
  _ ← assign_data this empty_object;
  saveDataToFile this.

(** [has(key)] *)
Definition has (this : ref) (key : string) : M bool :=
  db ← deref this;
  lift (mirror_has_own (data db) key).

(** What [array] returns: keys, values, or [{key, value}] records. *)
Inductive listing : Type :=
| Keys (ks : list string)
| Values (vs : list value)
| Pairs (kvs : list (string * jsval)).

(** [keys.map(f)] for a callback [f] that is a program. *)
Fixpoint for_each {A B : Type} (f : A -> M B) (l : list A) : M (list B) :=
  match l with
  | [] => mret []
  | x :: l' => y ← f x; ys ← for_each f l'; mret (y :: ys)
  end.

(** [array(outputType)] *)
Definition array (this : ref) (outputType : value) : M listing :=
  db ← deref this;
  match outputType with
  | VStr "keys" =>
      entries ← lift (mirror_entries (data db));
      mret (Keys (map fst entries))
  | VStr "values" =>
      entries ← lift (mirror_entries (data db));
      mret (Values (map snd entries))
  | _ =>
      entries ← lift (mirror_entries (data db));
      pairs ← for_each (fun key => v ← lift (mirror_get (data db) key);
                                   mret (key, v))
                 (map fst entries);
      mret (Pairs pairs)
  end.

End Db.

(** ** What the host application and its environment can do *)

Module Host.
Import JS Json Path Outcome Fs Mirror Runtime Db.

(** A callback without effects of its own, as a program. *)
Definition pure_callback (f : jsval -> outcome value) : jsval -> M value :=
  fun v => lift (f v).

Inductive call : Type :=
| CallNew (filePath : value) (opts : option DatabaseOptions)
| CallFetchDataFromFile (this : ref)
| CallSaveDataToFile (this : ref)
| CallMakeSnapshot (this : ref) (folderPath : string)
| CallGet (this : ref) (key : string)
| CallSet (this : ref) (key : string) (v : value)
| CallSetLocal (this : ref) (key : string) (v : value)
| CallUpdate (this : ref) (key : string) (callback : jsval -> outcome value)
| CallUpdateLocal (this : ref) (key : string) (callback : jsval -> outcome value)
| CallDelete (this : ref) (key : string)
| CallDeleteLocal (this : ref) (key : string)
| CallDeleteAll (this : ref)
| CallDeleteAllLocal (this : ref)
| CallHas (this : ref) (key : string)
| CallArray (this : ref) (outputType : value)
| TimerFires (n : nat)                 (* the [n]-th timer is due *)
| ClockShows (time : Z)                (* time passes *)
| FilesBecome (f : FileSystem).        (* another process changes files *)

(** The world after a call, whether it returned or threw. *)
Definition run_call (c : call) (w : World) : World :=
  match c with
  | CallNew filePath opts => snd (constructor filePath opts w)
  | CallFetchDataFromFile this => snd (fetchDataFromFile this w)
  | CallSaveDataToFile this => snd (saveDataToFile this w)
  | CallMakeSnapshot this folderPath => snd (makeSnapshot this folderPath w)
  | CallGet this key => snd (get this key w)
  | CallSet this key v => snd (set this key v w)
  | CallSetLocal this key v => snd (setLocal this key v w)
  | CallUpdate this key f => snd (update this key (pure_callback f) w)
  | CallUpdateLocal this key f => snd (updateLocal this key (pure_callback f) w)
  | CallDelete this key => snd (delete this key w)
  | CallDeleteLocal this key => snd (deleteLocal this key w)
  | CallDeleteAll this => snd (deleteAll this w)
  | CallDeleteAllLocal this => snd (deleteAllLocal this w)
  | CallHas this key => snd (has this key w)
  | CallArray this outputType => snd (array this outputType w)
  | TimerFires n =>
      match timers w !! n with
      | Some t => snd (makeSnapshot (owner t) (folder t) w)
      | None => w
      end
  | ClockShows time =>
      {| fs := fs w; heap := heap w; instances := instances w;
         timers := timers w; now := time; coerces_data := coerces_data w;
         write_log := write_log w |}
  | FilesBecome f => with_fs f w
  end.

Definition run_calls (cs : list call) (w : World) : World :=
  fold_left (fun w c => run_call c w) cs w.




(** A process that has just started in a working directory that holds
    nothing: no file, no [Database], an empty registry. *)
Definition fresh_process (time : Z) (legacy : bool) : World :=
  {| fs := {| files := ∅; dirs := {[ "."; "/" ]} |};
     heap := ∅; instances := ∅; timers := []; now := time;
     coerces_data := legacy; write_log := [] |}.

End Host.

Import JS Json Path Outcome Fs Mirror Runtime Db Host.

(** * The vocabulary of the statements *)

(** [extends w w']: every registry entry of [w] is an entry of [w'], and
    every [Database] of [w] is still there in [w'], with the same file
    path and the same options. *)
Definition extends (w w' : World) : Prop :=
  (forall p this, instances w !! p = Some this -> instances w' !! p = Some this)
  /\ (forall this db, heap w !! this = Some db ->
        exists db', heap w' !! this = Some db'
                    /\ jsonFilePath db' = jsonFilePath db
                    /\ options db' = options db).

(** A program that only ever extends the world. *)
Definition grows {A : Type} (c : M A) : Prop :=
  forall w, extends w (snd (c w)).

(** The state right after [instances[filePath] = this]. *)
Definition registered (p : string) (opts : DatabaseOptions) (w : World) : World :=
  let this := fresh (dom (heap w)) in
  with_instances (<[p := this]> (instances w))
    (with_heap (<[this := {| jsonFilePath := p; options := opts;
                             data := MUndefined |}]> (heap w)) w).

(** The world after [this.data = m]. *)
Definition assigned (this : ref) (m : mirror) (db : Database) (w : World) : World :=
  with_heap (<[this := with_data m db]> (heap w)) w.


(** The object with a given prototype and own properties, as a mirror. *)
Definition mirror_of_object (o : proto * list (string * value)) : mirror :=
  MObj (fst o) (snd o).

(** The text [saveDataToFile] writes for an ordinary object. *)
Definition object_text (own : list (string * value)) : string :=
  default "" (JSON_stringify (VObj own) 2).

(** The world after a [writeFileSync] that succeeded. *)
Definition written (p data : string) (w : World) : World :=
  with_write_log (canon p :: write_log w)
    (with_fs {| files := <[canon p := data]> (files (fs w)); dirs := dirs (fs w) |} w).

(** [writeFileSync(p, data)] succeeds on [f], whatever the data. *)
Definition writable (f : FileSystem) (p : string) : Prop :=
  forall data, writeFileSync f p data
    = Return {| files := <[canon p := data]> (files f); dirs := dirs f |}.

(** [writeFileSync(p, data)] throws [e] on [f], whatever the data. *)
Definition unwritable (f : FileSystem) (p : string) (e : error) : Prop :=
  forall data, writeFileSync f p data = Throw e.


(** A program that leaves the files and the log of writes alone. *)
Definition quiet {A : Type} (c : M A) : Prop :=
  forall w, fs (snd (c w)) = fs w /\ write_log (snd (c w)) = write_log w.

(** The text [{"a":1}], as another program may have written it. *)
Definition compact_a1 : string := "{" +:+ quote "a" +:+ ":1}".

(** A store for [db.json] holding [a = 1], in a process that has just
    started. *)
Definition store_a1 (legacy : bool) : World :=
  run_calls [CallNew (VStr "db.json") None; CallSet 0 "a" (VNum 1)]
    (fresh_process 1700000000000 legacy).

(** The text of [{a: 1}] with an indent of two blanks. *)
Definition indented_a1 : string :=
  "{" +:+ newline +:+ "  " +:+ quote "a" +:+ ": 1" +:+ newline +:+ "}".

(** A working directory in which [db.json] holds the given text. *)
Definition process_with_file (text : string) : World :=
  run_calls [FilesBecome {| files := {[ "db.json" := text ]}; dirs := {[ "." ]} |}]
    (fresh_process 1700000000000 false).

(** Snapshots enabled, and neither a path nor an interval. *)
Definition snapshots_without_path : DatabaseOptions :=
  {| snapshots := Some {| enabled := VBool true; path := VUndefined;
                          interval := VUndefined |};
     forceNew := VUndefined; indented := VUndefined |}.

(** A store for [db.json] with an empty mirror, after [db.json] has
    been replaced by a directory: the file cannot be written. *)
Definition blocked_store : World :=
  run_calls [CallNew (VStr "db.json") None;
             FilesBecome {| files := ∅; dirs := {[ "."; "db.json" ]} |}]
    (fresh_process 1700000000000 false).

(** A program that leaves one component [proj] of the world as it is. *)
Definition keeps {S A : Type} (proj : World -> S) (c : M A) : Prop :=
  forall w, proj (snd (c w)) = proj w.

(** Every registry entry leads to a [Database] object whose file path is
    the key of the entry. *)
Definition registry_wf (w : World) : Prop :=
  forall p this, instances w !! p = Some this ->
    exists db, heap w !! this = Some db /\ jsonFilePath db = p.

(** A file path the constructor accepts and finds nothing for in the
    registry: a non-empty string that is no key of [instances] and no
    name [instances] inherits from [Object.prototype]. *)
Definition unregistered (p : string) (w : World) : Prop :=
  p <> "" /\ instances w !! p = None
  /\ jsval_truthy (object_prototype_get JObjectPrototype p) = false.

(** The options ask for no snapshots: [snapshots] is absent, or its
    [enabled] is falsy. *)
Definition snapshots_off (opts : DatabaseOptions) : Prop :=
  forall snap, snapshots opts = Some snap -> truthy (enabled snap) = false.

(** The object the constructor has built when it reaches the file. *)
Definition new_store (p : string) (opts : DatabaseOptions) (m : mirror) : Database :=
  {| jsonFilePath := p; options := opts; data := m |}.

(** The constructor's validation of the snapshot options, with the
    start of the timer. *)
Definition validate_snapshots (this : ref) (opts : DatabaseOptions) : M unit :=
  match snapshots opts with
  | Some snap =>
      if truthy (enabled snap) then
        match as_string (path snap) with
        | None =>
            throw (Error "Provide a valid file path for database snapshots")
        | Some path =>
            match as_number (interval snap) with
            | None =>
                throw (Error "Provide the interval in milliseconds for snapshot creation")
            | Some interval =>
                there ← fs_existsSync path;
                _ ← when (negb there) (fs_mkdirSync path);
                setInterval this path interval
            end
        end
      else mret ()
  | None => mret ()
  end.

(** The end of the constructor: the file is created, or loaded. *)
Definition open_file (this : ref) (filePath : string) : M unit :=
  there ← fs_existsSync filePath;
  if negb there then
    let parentPath := dirname filePath in
    above ← fs_existsSync parentPath;
    _ ← when (negb above) (fs_mkdirSync parentPath);
    fs_writeFileSync filePath (Some "{}")
  else fetchDataFromFile this.

(** The character [c] does not occur in [s]. *)
Definition without (c : ascii) (s : string) : Prop := ~ In c (chars s).

(** The callback of the README, [(x) => (x || 0) + 1], on a number and
    on what is falsy; the addition on other values is not modelled.
    Numbers are doubles: the sum is exact as long as it is a safe
    integer, [2^53 + 1] rounds to [2^53], and the integers beyond are not
    modelled. *)
Definition increment (x : jsval) : outcome value :=
  match x with
  | JData (VNum n) =>
      if (2 ^ 53 <? Z.abs n)%Z
      then Beyond "addition on a number outside the safe integers"
      else if (n =? 2 ^ 53)%Z then Return (VNum n)
      else Return (VNum (n + 1))
  | JData VUndefined | JData VNull | JData (VBool false) => Return (VNum 1)
  | _ => Beyond "addition on a value that is no number"
  end.

(** The count after [n] increments from [m]: it stops at [2^53]. *)
Definition counted (m : Z) (n : nat) : Z := Z.min (m + Z.of_nat n) (2 ^ 53).

(** The same call, [n] times in a row, stopping at a throw. *)
Fixpoint repeat_call (n : nat) (c : M unit) : M unit :=
  match n with
  | O => mret ()
  | S n' => _ ← c; repeat_call n' c
  end.

(** *** The file read back

    What [JSON.parse] gives for the text [JSON.stringify] wrote, and
    the values for which the reader stays inside its fragment. *)

(** A character [JSON.stringify] writes as itself or as a two-character
    escape (the other control characters are written as [\u00XX]). *)
Definition plain_char (c : ascii) : bool :=
  let n := nat_of_ascii c in
  (32 <=? n)%nat || (n =? 8)%nat || (n =? 9)%nat || (n =? 10)%nat
  || (n =? 12)%nat || (n =? 13)%nat.

Fixpoint plain (s : string) : bool :=
  match s with
  | EmptyString => true
  | String c s' => plain_char c && plain s'
  end.

(** The values whose text the reader reads: numbers of magnitude at most
    2^53, strings and keys of plain characters. *)
Fixpoint storable (v : value) : bool :=
  match v with
  | VNum n => (Z.abs n <=? 2 ^ 53)%Z
  | VStr s => plain s
  | VArr items => forallb storable items
  | VObj props => forallb (fun kx => plain (fst kx) && storable (snd kx)) props
  | _ => true
  end.

(** The object built by defining the given entries one after the other. *)
Definition collect (l : list (string * value)) : list (string * value) :=
  fold_left (fun acc kv => own_define (fst kv) (snd kv) acc) l [].

Definition keep {A : Type} (ko : string * option A) : option (string * A) :=
  match ko with
  | (k, Some x) => Some (k, x)
  | (_, None) => None
  end.

(** An entry with its value mapped. *)
Definition relabel {A B : Type} (f : A -> B) (kx : string * A) : string * B :=
  (fst kx, f (snd kx)).

(** The value read back from the text of [v]: [None] where the
    serializer writes nothing ([undefined]).  An [undefined] element of
    an array comes back as [null]; an entry of an object whose value is
    [undefined] is gone; the entries that are left are created in the
    order in which they were listed. *)
Fixpoint reread (v : value) : option value :=
  match v with
  | VUndefined => None
  | VArr items => Some (VArr (map (fun x => default VNull (reread x)) items))
  | VObj props =>
      Some (VObj (collect (omap keep
                    (enumeration_order
                       (map (fun kx => (fst kx, reread (snd kx))) props)))))
  | _ => Some v
  end.

(** A text of white space only. *)
Fixpoint blank (s : string) : bool :=
  match s with
  | EmptyString => true
  | String c s' => is_ws c && blank s'
  end.

(** A text at which a number literal ends. *)
Definition stops (rest : string) : bool :=
  match rest with
  | EmptyString => true
  | String c _ => negb (is_digit c) && negb (starts_fraction_or_exponent rest)
  end.

(** [parse_value] reads [v] from the text [t], whatever follows it, with
    any fuel that is at least the length of [t]. *)
Definition reads (t : string) (v : value) : Prop :=
  forall rest fuel, stops rest = true -> String.length t <= fuel ->
    parse_value fuel (t +:+ rest) = POk v rest.

(** The text between a key and its value. *)
Definition colon (gap : string) : string :=
  ":" +:+ (if String.eqb gap "" then "" else " ").

(** A member of an object: its key, the text of its value and the value
    read from that text. *)
Definition member_text (gap : string) (e : string * string * value) : string :=
  quote (fst (fst e)) +:+ colon gap +:+ snd (fst e).

Definition member_entry (e : string * string * value) : string * value :=
  (fst (fst e), snd e).

(** The text of [v], at any indentation, is read back as [reread v]. *)
Definition read_back (v : value) : Prop :=
  forall gap indent, blank gap = true -> blank indent = true ->
    storable v = true ->
    reads (default "null" (serialize gap indent v)) (default VNull (reread v)).

(** What happens without any call of the program: a timer is due, or
    time passes. *)
Definition is_tick (c : call) : bool :=
  match c with
  | TimerFires _ | ClockShows _ => true
  | _ => false
  end.

(** * Properties *)

(** ** Running programs *)

Lemma run_bind {A B : Type} (c : M A) (k : A -> M B) (w : World) :
  (c ≫= k) w =
  match c w with
  | (Return x, w') => k x w'
  | (Throw e, w') => (Throw e, w')
  | (Beyond what, w') => (Beyond what, w')
  end.
Proof. reflexivity. Qed.

Lemma run_ret {A : Type} (x : A) (w : World) : (mret x : M A) w = (Return x, w).
Proof. reflexivity. Qed.

(** ** What no call undoes *)

Lemma extends_refl (w : World) : extends w w.
Proof. split; eauto. Qed.

Lemma extends_trans (w1 w2 w3 : World) :
  extends w1 w2 -> extends w2 w3 -> extends w1 w3.
Proof.
  intros [Hi12 Hh12] [Hi23 Hh23]. split.
  - eauto.
  - intros this db Hdb.
    destruct (Hh12 _ _ Hdb) as (db2 & H2 & Hp2 & Ho2).
    destruct (Hh23 _ _ H2) as (db3 & H3 & Hp3 & Ho3).
    exists db3. repeat split; congruence.
Qed.

Lemma grows_bind {A B : Type} (c : M A) (k : A -> M B) :
  grows c -> (forall x, grows (k x)) -> grows (c ≫= k).
Proof.
  intros Hc Hk w. rewrite run_bind. specialize (Hc w).
  destruct (c w) as [[x | e | what] w']; simpl in *; auto.
  eapply extends_trans; [exact Hc | apply Hk].
Qed.

Lemma grows_ret {A : Type} (x : A) : grows (mret x : M A).
Proof. intros w. apply extends_refl. Qed.

Lemma grows_throw {A : Type} (e : error) : grows (throw e : M A).
Proof. intros w. apply extends_refl. Qed.

Lemma grows_beyond {A : Type} (what : string) : grows (beyond what : M A).
Proof. intros w. apply extends_refl. Qed.

Lemma grows_lift {A : Type} (o : outcome A) : grows (lift o).
Proof. intros w. apply extends_refl. Qed.

Lemma grows_when (b : bool) (c : M unit) : grows c -> grows (when b c).
Proof. destruct b; simpl; auto using grows_ret. Qed.

Lemma extends_with_fs (f : FileSystem) (w : World) : extends w (with_fs f w).
Proof. split; eauto. Qed.

Lemma extends_with_write_log (l : list string) (w : World) :
  extends w (with_write_log l w).
Proof. split; eauto. Qed.

Lemma grows_existsSync (p : string) : grows (fs_existsSync p).
Proof. intros w. apply extends_refl. Qed.

Lemma grows_mkdirSync (p : string) : grows (fs_mkdirSync p).
Proof.
  intros w. unfold fs_mkdirSync.
  destruct (mkdirSync (fs w) p); simpl; auto using extends_refl, extends_with_fs.
Qed.

Lemma grows_readFileSync (p : string) : grows (fs_readFileSync p).
Proof. intros w. apply extends_refl. Qed.

Lemma grows_writeFileSync (p : string) (data : option string) :
  grows (fs_writeFileSync p data).
Proof.
  intros w. unfold fs_writeFileSync.
  destruct data as [text |].
  - destruct (writeFileSync (fs w) p text); simpl; auto using extends_refl.
    split; eauto.
  - destruct (coerces_data w); simpl; auto using extends_refl.
    destruct (writeFileSync (fs w) p "undefined"); simpl; auto using extends_refl.
    split; eauto.
Qed.

Lemma grows_Date_now : grows Date_now.
Proof. intros w. apply extends_refl. Qed.

Lemma grows_deref (this : ref) : grows (deref this).
Proof.
  intros w. unfold deref. destruct (heap w !! this); apply extends_refl.
Qed.

Lemma grows_assign_data (this : ref) (m : mirror) : grows (assign_data this m).
Proof.
  intros w. unfold assign_data.
  destruct (heap w !! this) as [db |] eqn:Hthis; [| apply extends_refl].
  split; simpl; [eauto |].
  intros r db0 Hr. destruct (decide (this = r)) as [-> | Hne].
  - rewrite lookup_insert_eq. eexists; split; [reflexivity |].
    simpl. by simplify_eq.
  - rewrite lookup_insert_ne by done. eauto.
Qed.

Lemma grows_alloc (db : Database) : grows (alloc db).
Proof.
  intros w. unfold alloc. split; simpl; [eauto |].
  intros r db0 Hr.
  assert (fresh (dom (heap w)) <> r) as Hne.
  { intros <-. apply (is_fresh (dom (heap w))). apply elem_of_dom; eauto. }
  rewrite lookup_insert_ne by done. eauto.
Qed.

Lemma grows_setInterval (this : ref) (path : string) (interval : Z) :
  grows (setInterval this path interval).
Proof. intros w. split; eauto. Qed.

Create HintDb grows_db.
#[global] Hint Resolve grows_ret grows_throw grows_beyond grows_lift grows_when
  grows_existsSync grows_mkdirSync grows_readFileSync grows_writeFileSync
  grows_Date_now grows_deref grows_assign_data grows_alloc grows_setInterval
  : grows_db.

(** Solves [grows] for a program built from the steps above. *)
Ltac grows_tac :=
  repeat first
    [ apply grows_bind; [| intros ?]
    | progress auto with grows_db
    | match goal with
      | |- grows (match ?x with _ => _ end) => destruct x
      | |- grows (if ?b then _ else _) => destruct b
      | |- grows (let _ := _ in _) => cbv zeta
      end ].

Lemma grows_fetchDataFromFile (this : ref) : grows (fetchDataFromFile this).
Proof. unfold fetchDataFromFile. grows_tac. Qed.

Lemma grows_saveDataToFile (this : ref) : grows (saveDataToFile this).
Proof. unfold saveDataToFile. grows_tac. Qed.

Lemma grows_makeSnapshot (this : ref) (folderPath : string) :
  grows (makeSnapshot this folderPath).
Proof. unfold makeSnapshot. grows_tac. Qed.

Lemma grows_initialise (this : ref) (filePath : string) (opts : DatabaseOptions) :
  grows (initialise this filePath opts).
Proof.
  unfold initialise.
  pose proof grows_fetchDataFromFile. grows_tac.
Qed.

Lemma grows_get (this : ref) (key : string) : grows (get this key).
Proof. unfold get. grows_tac. Qed.

Lemma grows_setLocal (this : ref) (key : string) (v : value) :
  grows (setLocal this key v).
Proof. unfold setLocal. grows_tac. Qed.

Lemma grows_set (this : ref) (key : string) (v : value) : grows (set this key v).
Proof. unfold set. pose proof grows_saveDataToFile. grows_tac. Qed.

Lemma grows_update (this : ref) (key : string) (f : jsval -> outcome value) :
  grows (update this key (pure_callback f)).
Proof.
  unfold update, pure_callback.
  pose proof grows_get. pose proof grows_set. grows_tac.
Qed.

Lemma grows_updateLocal (this : ref) (key : string) (f : jsval -> outcome value) :
  grows (updateLocal this key (pure_callback f)).
Proof.
  unfold updateLocal, pure_callback.
  pose proof grows_get. pose proof grows_setLocal. grows_tac.
Qed.

Lemma grows_deleteLocal (this : ref) (key : string) : grows (deleteLocal this key).
Proof. unfold deleteLocal. grows_tac. Qed.

Lemma grows_delete (this : ref) (key : string) : grows (delete this key).
Proof. unfold delete. pose proof grows_saveDataToFile. grows_tac. Qed.

Lemma grows_deleteAllLocal (this : ref) : grows (deleteAllLocal this).
Proof. unfold deleteAllLocal. grows_tac. Qed.

Lemma grows_deleteAll (this : ref) : grows (deleteAll this).
Proof. unfold deleteAll. pose proof grows_saveDataToFile. grows_tac. Qed.

Lemma grows_has (this : ref) (key : string) : grows (has this key).
Proof. unfold has. grows_tac. Qed.

Lemma grows_for_each {A B : Type} (f : A -> M B) (l : list A) :
  (forall x, grows (f x)) -> grows (for_each f l).
Proof.
  intros Hf. induction l as [| x l IH]; simpl; [apply grows_ret |].
  apply grows_bind; [apply Hf | intros y].
  apply grows_bind; [apply IH | intros ys]. apply grows_ret.
Qed.

Lemma grows_array (this : ref) (outputType : value) : grows (array this outputType).
Proof.
  assert (forall (m : mirror) (keys : list string),
            grows (for_each (fun key => v ← lift (mirror_get m key); mret (key, v))
                     keys)) as Hpairs.
  { intros m keys. apply grows_for_each. intros key. grows_tac. }
  unfold array. grows_tac.
Qed.

(** ** The constructor and the registry *)

Lemma as_string_Some (v : value) (s : string) :
  as_string v = Some s -> v = VStr s /\ s <> "".
Proof.
  unfold as_string. destruct v; simpl; try discriminate.
  - destruct b; discriminate.
  - destruct (negb (n =? 0)%Z); discriminate.
  - destruct (String.eqb s0 "") eqn:E; simpl; [discriminate |].
    intros [= ->]. split; [reflexivity |].
    intros ->. discriminate.
Qed.

Lemma as_string_VStr (s : string) : s <> "" -> as_string (VStr s) = Some s.
Proof.
  intros Hs. unfold as_string. simpl.
  destruct (String.eqb s "") eqn:E; [| reflexivity].
  apply String.eqb_eq in E. contradiction.
Qed.

(** A construction for a registered path returns the registered object
    and does nothing else, whatever the options. *)
Lemma constructor_registered (w : World) (p : string) (this : ref)
    (opts : option DatabaseOptions) :
  p <> "" -> instances w !! p = Some this ->
  constructor (VStr p) opts w = (Return (Store this), w).
Proof.
  intros Hp Hreg. unfold constructor. rewrite as_string_VStr by done.
  rewrite run_bind. unfold instances_get. rewrite Hreg. reflexivity.
Qed.

(** A construction for a path the registry does not answer for: the
    object is allocated and registered, then initialised. *)
Lemma constructor_unregistered (w : World) (p : string)
    (opts : option DatabaseOptions) :
  p <> "" -> instances w !! p = None ->
  jsval_truthy (object_prototype_get JObjectPrototype p) = false ->
  constructor (VStr p) opts w =
  let this := fresh (dom (heap w)) in
  match initialise this p (default no_options opts)
          (registered p (default no_options opts) w) with
  | (Return _, w') => (Return (Store this), w')
  | (Throw e, w') => (Throw e, w')
  | (Beyond what, w') => (Beyond what, w')
  end.
Proof.
  intros Hp Hreg Hinh. unfold constructor. rewrite as_string_VStr by done.
  rewrite run_bind. unfold instances_get. rewrite Hreg, Hinh.
  reflexivity.
Qed.

Lemma extends_registered (w : World) (p : string) (opts : DatabaseOptions) :
  instances w !! p = None -> extends w (registered p opts w).
Proof.
  intros Hreg. split; simpl.
  - intros q this Hq. rewrite lookup_insert_ne; [done |]. congruence.
  - intros r db Hr.
    assert (fresh (dom (heap w)) <> r) as Hne.
    { intros <-. apply (is_fresh (dom (heap w))). apply elem_of_dom; eauto. }
    rewrite lookup_insert_ne by done. eauto.
Qed.

Lemma extends_new_Database (filePath : value) (opts : option DatabaseOptions)
    (w : World) :
  extends w (snd (constructor filePath opts w)).
Proof.
  destruct (as_string filePath) as [p |] eqn:Hs.
  2:{ unfold constructor. rewrite Hs. apply extends_refl. }
  apply as_string_Some in Hs as [-> Hp].
  destruct (instances w !! p) as [this |] eqn:Hreg.
  { rewrite (constructor_registered w p this) by done. apply extends_refl. }
  destruct (jsval_truthy (object_prototype_get JObjectPrototype p)) eqn:Hinh.
  { unfold constructor. rewrite as_string_VStr by done.
    rewrite run_bind. unfold instances_get. rewrite Hreg, Hinh.
    apply extends_refl. }
  rewrite constructor_unregistered by done. cbv zeta.
  pose proof (grows_initialise (fresh (dom (heap w))) p (default no_options opts)
                (registered p (default no_options opts) w)) as Hgrow.
  apply extends_trans with (registered p (default no_options opts) w).
  { by apply extends_registered. }
  destruct (initialise _ _ _ _) as [[[] | e | what] w']; exact Hgrow.
Qed.

(** A construction that returned a [Database] for [p] leaves it
    registered under [p]. *)
Lemma constructor_Store (w w1 : World) (filePath : value)
    (opts : option DatabaseOptions) (this : ref) :
  constructor filePath opts w = (Return (Store this), w1) ->
  exists p, filePath = VStr p /\ p <> "" /\ instances w1 !! p = Some this
    /\ (instances w !! p = None ->
        exists db, heap w1 !! this = Some db /\ jsonFilePath db = p
                   /\ options db = default no_options opts).
Proof.
  intros Hnew.
  destruct (as_string filePath) as [p |] eqn:Hs.
  2:{ unfold constructor in Hnew. rewrite Hs in Hnew. discriminate. }
  apply as_string_Some in Hs as [-> Hp]. exists p. do 2 (split; [done |]).
  destruct (instances w !! p) as [r |] eqn:Hreg.
  { rewrite (constructor_registered w p r) in Hnew by done.
    injection Hnew as -> ->. split; [done | discriminate]. }
  destruct (jsval_truthy (object_prototype_get JObjectPrototype p)) eqn:Hinh.
  { unfold constructor in Hnew. rewrite as_string_VStr in Hnew by done.
    rewrite run_bind in Hnew. unfold instances_get in Hnew.
    rewrite Hreg, Hinh in Hnew. discriminate. }
  rewrite constructor_unregistered in Hnew by done. cbv zeta in Hnew.
  pose proof (grows_initialise (fresh (dom (heap w))) p (default no_options opts)
                (registered p (default no_options opts) w)) as [Hi Hh].
  destruct (initialise _ _ _ _) as [[[] | e | what] w'] eqn:Hinit;
    try discriminate.
  injection Hnew as <- <-. simpl in Hi, Hh. split.
  - apply Hi. apply lookup_insert_eq.
  - intros _.
    destruct (Hh (fresh (dom (heap w)))
                {| jsonFilePath := p; options := default no_options opts;
                   data := MUndefined |}) as (db & Hdb & Hpath & Hopts).
    { apply lookup_insert_eq. }
    exists db. auto.
Qed.

Lemma extends_run_call (c : call) (w : World) : extends w (run_call c w).
Proof.
  destruct c; simpl;
    try solve [ apply extends_new_Database
              | apply grows_fetchDataFromFile | apply grows_saveDataToFile
              | apply grows_makeSnapshot | apply grows_get | apply grows_set
              | apply grows_setLocal | apply grows_update
              | apply grows_updateLocal | apply grows_delete
              | apply grows_deleteLocal | apply grows_deleteAll
              | apply grows_deleteAllLocal | apply grows_has
              | apply grows_array | apply extends_with_fs ].
  - destruct (timers w !! n); [apply grows_makeSnapshot | apply extends_refl].
  - split; eauto.
Qed.

Lemma extends_run_calls (cs : list call) (w : World) : extends w (run_calls cs w).
Proof.
  revert w. induction cs as [| c cs IH]; intros w; simpl.
  - apply extends_refl.
  - eapply extends_trans; [apply extends_run_call | apply IH].
Qed.

(** C6 (amended): once a construction has returned a [Database] for a
    path string [p], every later construction with the same path string
    returns that very object, at the same address, so what one reference
    mutates the other reads; the later call changes nothing in the world,
    its options are ignored, and when the first construction was the one
    that created the object, its options are still the ones of that first
    call, after any calls in between.  The registry is keyed by the
    string as passed: no path is brought to a canonical form. *)
Theorem constructor_returns_registered_instance
    (w w1 : World) (p : string) (first later : option DatabaseOptions)
    (this : ref) (between : list call) :
  constructor (VStr p) first w = (Return (Store this), w1) ->
  let w2 := run_calls between w1 in
  constructor (VStr p) later w2 = (Return (Store this), w2)
  /\ (instances w !! p = None ->
      exists db, heap w2 !! this = Some db
                 /\ jsonFilePath db = p
                 /\ options db = default no_options first).
Proof.
  intros Hnew w2.
  apply constructor_Store in Hnew as (p' & [= <-] & Hp & Hreg & Hfresh).
  destruct (extends_run_calls between w1) as [Hi Hh]. fold w2 in Hi, Hh.
  split.
  - apply constructor_registered; auto.
  - intros Hnone. destruct (Hfresh Hnone) as (db & Hdb & Hpath & Hopts).
    destruct (Hh _ _ Hdb) as (db' & Hdb' & Hpath' & Hopts').
    exists db'. repeat split; congruence.
Qed.

(** A first construction in a fresh process, then a mutation, then a
    second construction for the same path with other options. *)
Lemma constructor_returns_registered_instance_witness :
  let w := fresh_process 1700000000000 false in
  let w1 := snd (constructor (VStr "db.json") None w) in
  let later :=
    Some {| snapshots := None; forceNew := VBool true; indented := VBool true |} in
  let w2 := run_calls [CallSet 0 "a" (VNum 1)] w1 in
  constructor (VStr "db.json") later w2 = (Return (Store 0), w2)
  /\ (instances w !! "db.json" = None ->
      exists db, heap w2 !! 0 = Some db
                 /\ jsonFilePath db = "db.json"
                 /\ options db = default no_options None).
Proof.
  intros w w1 later w2.
  apply (constructor_returns_registered_instance w w1 "db.json" None later 0
           [CallSet 0 "a" (VNum 1)]).
  vm_compute. reflexivity.
Defined.

(** C6, as stated, fails for two spellings of one path: [db.json] and
    [./db.json] normalize to the same path and name the same file, and
    the second construction still creates a second [Database]; a write
    through the first reference is not read through the second. *)
Lemma two_spellings_two_stores :
  let w1 := run_calls [CallNew (VStr "db.json") None]
              (fresh_process 1700000000000 false) in
  normalize "./db.json" = normalize "db.json"
  /\ canon "./db.json" = canon "db.json"
  /\ exists w2,
       constructor (VStr "./db.json") None w1 = (Return (Store 1), w2)
       /\ instances w2 !! "db.json" = Some 0
       /\ instances w2 !! "./db.json" = Some 1
       /\ fst (get 0 "k" (snd (setLocal 0 "k" (VNum 7) w2))) = Return (JData (VNum 7))
       /\ fst (get 1 "k" (snd (setLocal 0 "k" (VNum 7) w2))) = Return undefined.
Proof.
  cbv zeta. do 2 (split; [vm_compute; reflexivity |]).
  eexists. split; [vm_compute; reflexivity |].
  repeat split; vm_compute; reflexivity.
Qed.

(** ** Reads *)

(** [get] and [has] never change the world. *)
Lemma get_pure (this : ref) (key : string) (w : World) :
  snd (get this key w) = w.
Proof.
  unfold get. rewrite run_bind. unfold deref.
  destruct (heap w !! this); reflexivity.
Qed.

Lemma has_pure (this : ref) (key : string) (w : World) :
  snd (has this key w) = w.
Proof.
  unfold has. rewrite run_bind. unfold deref.
  destruct (heap w !! this); reflexivity.
Qed.

Lemma get_run (this : ref) (key : string) (w : World) (db : Database) :
  heap w !! this = Some db ->
  get this key w = (mirror_get (data db) key, w).
Proof.
  intros Hdb. unfold get. rewrite run_bind. unfold deref. rewrite Hdb.
  reflexivity.
Qed.

Lemma has_run (this : ref) (key : string) (w : World) (db : Database) :
  heap w !! this = Some db ->
  has this key w = (mirror_has_own (data db) key, w).
Proof.
  intros Hdb. unfold has. rewrite run_bind. unfold deref. rewrite Hdb.
  reflexivity.
Qed.

(** C10 (amended): if the callback throws on the current value of the
    key, [update] and [updateLocal] throw the same error and neither
    mutate nor write anything of their own: the world after the call is
    the world the callback left when it threw.  For a callback without
    effects of its own (it does not mutate the value it is handed and
    does not call the store) nothing at all has changed: the mirror, the
    backing file and the rest of the world are as before the call. *)
Theorem update_propagates_callback_error
    (this : ref) (key : string) (w : World) (current : jsval) (e : error) :
  fst (get this key w) = Return current ->
  (forall (callback : jsval -> M value) (w' : World),
      callback current w = (Throw e, w') ->
      update this key callback w = (Throw e, w')
      /\ updateLocal this key callback w = (Throw e, w'))
  /\ (forall f : jsval -> outcome value,
        f current = Throw e ->
        update this key (pure_callback f) w = (Throw e, w)
        /\ updateLocal this key (pure_callback f) w = (Throw e, w)).
Proof.
  intros Hget.
  assert (get this key w = (Return current, w)) as Hrun.
  { rewrite (surjective_pairing (get this key w)), Hget, get_pure. reflexivity. }
  assert (forall (callback : jsval -> M value) (w' : World),
            callback current w = (Throw e, w') ->
            update this key callback w = (Throw e, w')
            /\ updateLocal this key callback w = (Throw e, w')) as Hany.
  { intros callback w' Hthrow. split.
    - unfold update. rewrite run_bind, Hrun, run_bind, Hthrow. reflexivity.
    - unfold updateLocal. rewrite run_bind, Hrun, run_bind, Hthrow. reflexivity. }
  split; [exact Hany |].
  intros f Hf. apply Hany. unfold pure_callback, lift. by rewrite Hf.
Qed.

(** A store holding [count = 1] and a callback that rejects numbers. *)
Lemma update_propagates_callback_error_witness :
  let w := run_calls [CallNew (VStr "db.json") None; CallSet 0 "count" (VNum 1)]
             (fresh_process 1700000000000 false) in
  let f := fun v =>
        match v with
        | JData (VNum _) => Throw (TypeError "not a list")
        | _ => Return (VArr [])
        end in
  update 0 "count" (pure_callback f) w = (Throw (TypeError "not a list"), w)
  /\ updateLocal 0 "count" (pure_callback f) w
     = (Throw (TypeError "not a list"), w).
Proof.
  intros w f.
  destruct (update_propagates_callback_error 0 "count" w
              (JData (VNum 1)) (TypeError "not a list")) as [_ Hpure].
  - vm_compute. reflexivity.
  - apply Hpure. reflexivity.
Defined.

(** C10, as stated, fails: the callback is handed the value the mirror
    holds, not a copy, and it can call the store.  On a store holding
    [list = [1]], a callback that pushes [2] onto the array it is handed
    (on the mirror: the write of [[1, 2]] under [list]) and then throws
    leaves [list = [1, 2]] behind, with [updateLocal] and with [update];
    and a callback that calls [set] before it throws has changed the
    backing file. *)
Lemma throwing_callback_leaves_its_changes :
  let w := run_calls [CallNew (VStr "db.json") None;
                      CallSet 0 "list" (VArr [VNum 1])]
             (fresh_process 1700000000000 false) in
  let push_then_throw : jsval -> M value := fun current =>
        match current with
        | JData (VArr items) =>
            _ ← setLocal 0 "list" (VArr (items ++ [VNum 2]));
            throw (Error "full")
        | _ => throw (Error "full")
        end in
  let save_then_throw : jsval -> M value := fun _ =>
        _ ← set 0 "seen" (VBool true);
        throw (Error "full") in
  fst (get 0 "list" w) = Return (JData (VArr [VNum 1]))
  /\ fst (push_then_throw (JData (VArr [VNum 1])) w) = Throw (Error "full")
  /\ fst (updateLocal 0 "list" push_then_throw w) = Throw (Error "full")
  /\ fst (get 0 "list" (snd (updateLocal 0 "list" push_then_throw w)))
     = Return (JData (VArr [VNum 1; VNum 2]))
  /\ fst (update 0 "list" push_then_throw w) = Throw (Error "full")
  /\ fst (get 0 "list" (snd (update 0 "list" push_then_throw w)))
     = Return (JData (VArr [VNum 1; VNum 2]))
  /\ fst (save_then_throw (JData (VArr [VNum 1])) w) = Throw (Error "full")
  /\ fst (update 0 "list" save_then_throw w) = Throw (Error "full")
  /\ contents (fs (snd (update 0 "list" save_then_throw w))) "db.json"
     <> contents (fs w) "db.json".
Proof.
  intros w push_then_throw save_then_throw.
  repeat split; try (vm_compute; reflexivity).
  vm_compute. discriminate.
Qed.

(** C9: [get] and [has] disagree on inherited names.  On a mirror that
    is an ordinary object with [Object.prototype] behind it, for every
    name that [Object.prototype] defines ([toString], [constructor],
    [valueOf], ...) and that was not stored, [get] returns the inherited
    built-in, which is not [undefined], while [has] returns false. *)
Theorem get_reads_inherited_has_does_not
    (w : World) (this : ref) (db : Database) (own : list (string * value))
    (key : string) :
  heap w !! this = Some db ->
  data db = MObj ProtoObject own ->
  own_lookup key own = None ->
  mem key object_prototype_names = true ->
  get this key w = (Return (object_prototype_get JObjectPrototype key), w)
  /\ object_prototype_get JObjectPrototype key <> undefined
  /\ has this key w = (Return false, w).
Proof.
  intros Hdb Hdata Hown Hname.
  rewrite (get_run _ _ _ _ Hdb), (has_run _ _ _ _ Hdb), Hdata. simpl.
  unfold has_own. rewrite Hown. repeat split.
  unfold object_prototype_get.
  destruct (String.eqb key "__proto__") eqn:Eproto.
  { apply String.eqb_eq in Eproto. subst key. discriminate. }
  destruct (String.eqb key "constructor"); [discriminate |].
  rewrite Hname. discriminate.
Qed.

(** [toString] on a store that was just created. *)
Lemma get_reads_inherited_has_does_not_witness :
  let w := run_calls [CallNew (VStr "db.json") None]
             (fresh_process 1700000000000 false) in
  get 0 "toString" w = (Return (JBuiltin "Object.prototype.toString"), w)
  /\ JBuiltin "Object.prototype.toString" <> undefined
  /\ has 0 "toString" w = (Return false, w).
Proof.
  intros w.
  apply (get_reads_inherited_has_does_not w 0
           {| jsonFilePath := "db.json"; options := no_options;
              data := empty_object |} [] "toString");
    vm_compute; reflexivity.
Defined.

(** ** Writes *)

Lemma assign_data_run (this : ref) (m : mirror) (w : World) (db : Database) :
  heap w !! this = Some db ->
  assign_data this m w = (Return (), assigned this m db w).
Proof. intros Hdb. unfold assign_data. rewrite Hdb. reflexivity. Qed.

Lemma assigned_lookup (this : ref) (m : mirror) (db : Database) (w : World) :
  heap (assigned this m db w) !! this = Some (with_data m db).
Proof. apply lookup_insert_eq. Qed.

Lemma setLocal_run (this : ref) (key : string) (v : value) (w : World)
    (db : Database) :
  heap w !! this = Some db ->
  setLocal this key v w =
  match mirror_set (data db) key v with
  | Return m => (Return (), assigned this m db w)
  | Throw e => (Throw e, w)
  | Beyond what => (Beyond what, w)
  end.
Proof.
  intros Hdb. unfold setLocal. rewrite run_bind. unfold deref. rewrite Hdb.
  rewrite run_bind. unfold lift.
  destruct (mirror_set (data db) key v); try reflexivity.
  by apply assign_data_run.
Qed.

Lemma set_run (this : ref) (key : string) (v : value) (w : World)
    (db : Database) :
  heap w !! this = Some db ->
  set this key v w =
  match mirror_set (data db) key v with
  | Return m => saveDataToFile this (assigned this m db w)
  | Throw e => (Throw e, w)
  | Beyond what => (Beyond what, w)
  end.
Proof.
  intros Hdb. unfold set. rewrite run_bind. unfold deref. rewrite Hdb.
  rewrite run_bind. unfold lift.
  destruct (mirror_set (data db) key v); try reflexivity.
  rewrite run_bind, (assign_data_run _ _ _ _ Hdb). reflexivity.
Qed.

Lemma saveDataToFile_run (this : ref) (w : World) (db : Database) :
  heap w !! this = Some db ->
  saveDataToFile this w =
  fs_writeFileSync (jsonFilePath db) (JSON_stringify (mirror_value (data db)) 2) w.
Proof.
  intros Hdb. unfold saveDataToFile. rewrite run_bind. unfold deref.
  rewrite Hdb. reflexivity.
Qed.

(** A file write changes the files and the log of writes, nothing else. *)
Lemma fs_writeFileSync_heap (p : string) (data : option string) (w : World) :
  heap (snd (fs_writeFileSync p data w)) = heap w.
Proof.
  unfold fs_writeFileSync. destruct data as [text |].
  - destruct (writeFileSync (fs w) p text); reflexivity.
  - destruct (coerces_data w); [| reflexivity].
    destruct (writeFileSync (fs w) p "undefined"); reflexivity.
Qed.

Lemma saveDataToFile_heap (this : ref) (w : World) :
  heap (snd (saveDataToFile this w)) = heap w.
Proof.
  unfold saveDataToFile. rewrite run_bind. unfold deref.
  destruct (heap w !! this); [| reflexivity].
  apply fs_writeFileSync_heap.
Qed.

(** *** Own properties *)

Lemma own_lookup_define {A : Type} (k k' : string) (x : A)
    (props : list (string * A)) :
  own_lookup k (own_define k' x props) =
  if String.eqb k k' then Some x else own_lookup k props.
Proof.
  induction props as [| [k0 x0] props IH]; simpl.
  - reflexivity.
  - destruct (String.eqb k' k0) eqn:E'; simpl.
    + apply String.eqb_eq in E'. subst k0.
      destruct (String.eqb k k'); reflexivity.
    + rewrite IH. destruct (String.eqb k k0) eqn:E0; [| reflexivity].
      apply String.eqb_eq in E0. subst k0.
      destruct (String.eqb k k') eqn:E; [| reflexivity].
      apply String.eqb_eq in E. subst k'.
      rewrite String.eqb_refl in E'. discriminate.
Qed.

Lemma has_own_define {A : Type} (k k' : string) (x : A)
    (props : list (string * A)) :
  has_own k (own_define k' x props) = String.eqb k k' || has_own k props.
Proof.
  unfold has_own. rewrite own_lookup_define.
  destruct (String.eqb k k'); reflexivity.
Qed.

Lemma has_own_iff {A : Type} (k : string) (props : list (string * A)) :
  has_own k props = true <-> In k (map fst props).
Proof.
  unfold has_own. induction props as [| [k0 x0] props IH]; simpl.
  - split; [discriminate | tauto].
  - destruct (String.eqb k k0) eqn:E.
    + apply String.eqb_eq in E. subst k0. tauto.
    + apply String.eqb_neq in E. rewrite IH. split; [tauto |].
      intros [Heq | Hin]; [congruence | exact Hin].
Qed.

(** A write under a name other than [__proto__] defines an own property. *)
Lemma mirror_set_named (p : proto) (own : list (string * value)) (key : string)
    (v : value) :
  key <> "__proto__" ->
  mirror_set (MObj p own) key v = Return (MObj p (own_define key v own)).
Proof.
  intros Hkey. simpl. unfold object_set.
  destruct (has_own key own); [reflexivity |].
  destruct (String.eqb key "__proto__") eqn:E; [| reflexivity].
  apply String.eqb_eq in E. contradiction.
Qed.

(** C8 (amended): on a mirror that is an ordinary object, [has(key)]
    answers whether [key] is among the own entries, whatever the
    prototype supplies; for every key other than [__proto__], [has(key)]
    is true after [set(key, v)] and after [setLocal(key, v)], for every
    [v], [null] and [undefined] included, whether or not the file write
    succeeded; and [has(key)] is false for every key after [deleteAll()]. *)
Theorem has_is_own_entry
    (w : World) (this : ref) (db : Database) (p : proto)
    (own : list (string * value)) (key : string) :
  heap w !! this = Some db ->
  data db = MObj p own ->
  (exists b, has this key w = (Return b, w)
             /\ (b = true <-> In key (map fst own)))
  /\ (forall v, key <> "__proto__" ->
        fst (has this key (snd (set this key v w))) = Return true
        /\ fst (has this key (snd (setLocal this key v w))) = Return true)
  /\ fst (has this key (snd (deleteAll this w))) = Return false.
Proof.
  intros Hdb Hdata. split; [| split].
  - exists (has_own key own). split; [| apply has_own_iff].
    rewrite (has_run _ _ _ _ Hdb), Hdata. reflexivity.
  - intros v Hkey.
    assert (forall w', heap w' = heap (assigned this (MObj p (own_define key v own)) db w) ->
                       fst (has this key w') = Return true) as Hafter.
    { intros w' Hheap.
      rewrite (has_run this key w' (with_data (MObj p (own_define key v own)) db)).
      - simpl. rewrite has_own_define, String.eqb_refl. reflexivity.
      - rewrite Hheap. apply assigned_lookup. }
    rewrite (set_run _ _ _ _ _ Hdb), (setLocal_run _ _ _ _ _ Hdb), Hdata.
    rewrite mirror_set_named by done. split; apply Hafter.
    + apply saveDataToFile_heap.
    + reflexivity.
  - unfold deleteAll. rewrite run_bind, (assign_data_run _ _ _ _ Hdb).
    rewrite (has_run this key _ (with_data empty_object db)).
    + reflexivity.
    + rewrite saveDataToFile_heap. apply assigned_lookup.
Qed.

(** The key [k] on a store holding one entry. *)
Lemma has_is_own_entry_witness :
  let w := run_calls [CallNew (VStr "db.json") None; CallSet 0 "a" (VNum 1)]
             (fresh_process 1700000000000 false) in
  (exists b, has 0 "k" w = (Return b, w)
             /\ (b = true <-> In "k" (map fst [("a", VNum 1)])))
  /\ (forall v, "k" <> "__proto__" ->
        fst (has 0 "k" (snd (set 0 "k" v w))) = Return true
        /\ fst (has 0 "k" (snd (setLocal 0 "k" v w))) = Return true)
  /\ fst (has 0 "k" (snd (deleteAll 0 w))) = Return false.
Proof.
  intros w.
  apply (has_is_own_entry w 0
           {| jsonFilePath := "db.json"; options := no_options;
              data := MObj ProtoObject [("a", VNum 1)] |}
           ProtoObject [("a", VNum 1)] "k");
    vm_compute; reflexivity.
Defined.

(** C8, as stated, fails at the key [__proto__]: on a store that was
    just created, [set("__proto__", null)] returns, and [has("__proto__")]
    is false afterwards (the write reached the accessor of
    [Object.prototype] and created no own property). *)
Lemma has_false_after_set_proto :
  let w := run_calls [CallNew (VStr "db.json") None]
             (fresh_process 1700000000000 false) in
  fst (set 0 "__proto__" VNull w) = Return ()
  /\ fst (has 0 "__proto__" (snd (set 0 "__proto__" VNull w))) = Return false.
Proof. vm_compute. split; reflexivity. Qed.

(** ** Deferred and immediate writes *)

Lemma JSON_stringify_object (own : list (string * value)) (space : Z) :
  JSON_stringify (VObj own) space
  = Some (default "" (JSON_stringify (VObj own) space)).
Proof. reflexivity. Qed.

Lemma with_data_with_data (m m' : mirror) (db : Database) :
  with_data m' (with_data m db) = with_data m' db.
Proof. reflexivity. Qed.




(** Whether [writeFileSync] succeeds does not depend on the data. *)
Lemma writeFileSync_shape (f : FileSystem) (p data : string) :
  (writeFileSync f p data
   = Return {| files := <[canon p := data]> (files f); dirs := dirs f |}
   /\ forall data', writeFileSync f p data'
        = Return {| files := <[canon p := data']> (files f); dirs := dirs f |})
  \/ (exists e, forall data', writeFileSync f p data' = Throw e).
Proof.
  unfold writeFileSync.
  destruct (lookup_path f p); eauto.
  destruct (check_parent f p); eauto.
  destruct (ends_with_slash p); eauto.
Qed.

(** A second write to a file just written sees the file of the first
    write replaced. *)
Lemma writeFileSync_again (f : FileSystem) (p data data' : string) :
  writeFileSync f p data
  = Return {| files := <[canon p := data]> (files f); dirs := dirs f |} ->
  writeFileSync {| files := <[canon p := data]> (files f); dirs := dirs f |}
    p data'
  = Return {| files := <[canon p := data']> (files f); dirs := dirs f |}.
Proof.
  unfold writeFileSync, lookup_path. simpl.
  destruct (String.eqb p "") eqn:Ep.
  { unfold check_parent. rewrite Ep. discriminate. }
  destruct (bool_decide (canon p ∈ dirs f)); [discriminate |].
  rewrite lookup_insert_eq.
  destruct (files f !! canon p) as [old |].
  - destruct (ends_with_slash p); [discriminate |].
    intros _. by rewrite insert_insert_eq.
  - destruct (check_parent f p); [discriminate |].
    destruct (ends_with_slash p); [discriminate |].
    intros _. by rewrite insert_insert_eq.
Qed.

Lemma writable_or_not (f : FileSystem) (p : string) :
  writable f p \/ exists e, unwritable f p e.
Proof.
  destruct (writeFileSync_shape f p "") as [[_ H] | [e H]]; [left | right]; eauto.
Qed.

Lemma writable_again (f : FileSystem) (p data : string) :
  writable f p ->
  writable {| files := <[canon p := data]> (files f); dirs := dirs f |} p.
Proof.
  intros Hw data'. rewrite (writeFileSync_again f p data data' (Hw data)).
  simpl. by rewrite insert_insert_eq.
Qed.

Lemma save_object_writable (this : ref) (w : World) (db : Database) (p : proto)
    (own : list (string * value)) :
  heap w !! this = Some db -> data db = MObj p own ->
  writable (fs w) (jsonFilePath db) ->
  saveDataToFile this w = (Return (), written (jsonFilePath db) (object_text own) w).
Proof.
  intros Hdb Hdata Hw. rewrite (saveDataToFile_run _ _ _ Hdb), Hdata.
  unfold mirror_value. rewrite JSON_stringify_object. unfold fs_writeFileSync.
  rewrite (Hw _). reflexivity.
Qed.

Lemma save_object_unwritable (this : ref) (w : World) (db : Database) (p : proto)
    (own : list (string * value)) (e : error) :
  heap w !! this = Some db -> data db = MObj p own ->
  unwritable (fs w) (jsonFilePath db) e ->
  saveDataToFile this w = (Throw e, w).
Proof.
  intros Hdb Hdata Hw. rewrite (saveDataToFile_run _ _ _ Hdb), Hdata.
  unfold mirror_value. rewrite JSON_stringify_object. unfold fs_writeFileSync.
  rewrite (Hw _). reflexivity.
Qed.






(** *** The order of writes to distinct keys *)









(** *** Programs that leave the files alone *)


Lemma quiet_ret {A : Type} (x : A) : quiet (mret x : M A).
Proof. intros w. split; reflexivity. Qed.









Lemma contents_written (p data : string) (w : World) :
  contents (fs (written p data w)) p = Some data.
Proof. unfold contents, written. simpl. apply lookup_insert_eq. Qed.




(** ** Where the code departs from its documentation *)

(** What [makeSnapshot] can do to the files: nothing, or create one file
    holding the text [undefined].  The backing file is not read. *)
Lemma makeSnapshot_files (this : ref) (folderPath : string) (w : World) :
  files (fs (snd (makeSnapshot this folderPath w))) = files (fs w)
  \/ exists target,
       files (fs (snd (makeSnapshot this folderPath w)))
       = <[target := "undefined"]> (files (fs w)).
Proof.
  unfold makeSnapshot. rewrite run_bind. unfold deref.
  destruct (heap w !! this) as [db |]; [| by left].
  rewrite run_bind. unfold fs_existsSync. rewrite run_bind.
  assert (forall w', files (fs w') = files (fs w) ->
            let r := fs_writeFileSync
                       (path_join folderPath (snapshot_name (jsonFilePath db) (now w')))
                       None w' in
            files (fs (snd r)) = files (fs w)
            \/ exists target, files (fs (snd r)) = <[target := "undefined"]> (files (fs w)))
    as Hwrite.
  { intros w' Hfiles. cbv zeta. unfold fs_writeFileSync.
    destruct (coerces_data w'); [| by left].
    destruct (writeFileSync_shape (fs w')
                (path_join folderPath (snapshot_name (jsonFilePath db) (now w')))
                "undefined") as [[-> _] | [e ->]]; [| by left].
    right. eexists. simpl. by rewrite Hfiles. }
  destruct (existsSync (fs w) folderPath); simpl.
  - apply (Hwrite w). reflexivity.
  - unfold fs_mkdirSync, mkdirSync.
    destruct (lookup_path (fs w) folderPath); try by left.
    destruct (check_parent (fs w) folderPath); [by left |].
    rewrite run_bind. unfold Date_now. apply Hwrite. reflexivity.
Qed.

(** C1 (the code departs from it): [makeSnapshot] passes no data to
    [writeFileSync].  With the backing file holding [{a: 1}], the call
    throws a [TypeError] and creates no snapshot file; on a Node that
    still coerces the missing data it creates the file named
    [snapshot-db-<time>.json] with the text [undefined].  In neither case
    does a snapshot hold the bytes of the backing file. *)
Theorem makeSnapshot_copies_nothing :
  let target := "snaps/snapshot-db-1700000000000.json" in
  contents (fs (store_a1 false)) "db.json" = Some indented_a1
  /\ (exists message w',
        makeSnapshot 0 "snaps" (store_a1 false) = (Throw (TypeError message), w')
        /\ contents (fs w') target = None
        /\ files (fs w') = files (fs (store_a1 false)))
  /\ (exists w',
        makeSnapshot 0 "snaps" (store_a1 true) = (Return (), w')
        /\ contents (fs w') target = Some "undefined"
        /\ contents (fs w') "db.json" = Some indented_a1).
Proof.
  cbv zeta. split; [vm_compute; reflexivity |]. split.
  - eexists _, _. split; [vm_compute; reflexivity |].
    split; vm_compute; reflexivity.
  - eexists. split; [vm_compute; reflexivity |].
    split; vm_compute; reflexivity.
Qed.

(** What decides a load, once the file is read and parsed: the test
    [typeof savedData === "object"]. *)
Lemma fetchDataFromFile_guard (this : ref) (w : World) (db : Database)
    (text rest : string) (savedData : value) :
  heap w !! this = Some db ->
  readFileSync (fs w) (jsonFilePath db) = Return text ->
  JSON_parse text = POk savedData rest ->
  fetchDataFromFile this w
  = if bool_decide (typeof savedData = TObject)
    then (Return (), assigned this (mirror_of savedData) db w)
    else (Throw (Error "Data is not a valid object"), w).
Proof.
  intros Hdb Hread Hparse. unfold fetchDataFromFile.
  rewrite run_bind. unfold deref. rewrite Hdb.
  rewrite run_bind. unfold fs_readFileSync. rewrite Hread, Hparse.
  destruct (bool_decide (typeof savedData = TObject)); [| reflexivity].
  by apply assign_data_run.
Qed.

Lemma typeof_object (v : value) :
  typeof v = TObject <->
  v = VNull \/ (exists items, v = VArr items) \/ (exists props, v = VObj props).
Proof.
  split.
  - destruct v; try discriminate; eauto.
  - intros [-> | [[items ->] | [props ->]]]; reflexivity.
Qed.

(** C2 (the code departs from it): the guard of [fetchDataFromFile] is
    [typeof savedData === "object"], which an array and [null] pass.
    With [db.json] holding [[1,2]] the construction returns and the
    mirror is that array; with [null] it returns and the mirror is
    [null], so that every later [get] throws a [TypeError].  A number
    fails, as specified. *)
Theorem fetchDataFromFile_accepts_array_and_null :
  (exists w',
     constructor (VStr "db.json") None (process_with_file "[1,2]")
     = (Return (Store 0), w')
     /\ data <$> heap w' !! 0 = Some (MArr [VNum 1; VNum 2]))
  /\ (exists w' message,
        constructor (VStr "db.json") None (process_with_file "null")
        = (Return (Store 0), w')
        /\ data <$> heap w' !! 0 = Some MNull
        /\ fst (get 0 "k" w') = Throw (TypeError message))
  /\ (exists e,
        fst (constructor (VStr "db.json") None (process_with_file "12")) = Throw e
        /\ FormatError e).
Proof.
  split; [| split].
  - eexists. split; vm_compute; reflexivity.
  - eexists _, _. split; [vm_compute; reflexivity |].
    split; vm_compute; reflexivity.
  - eexists. split; [vm_compute; reflexivity | reflexivity].
Qed.

(** A file path that is empty or no string is refused before anything
    is allocated or registered. *)
Lemma constructor_rejects_bad_path (filePath : value)
    (opts : option DatabaseOptions) (w : World) :
  (forall p, filePath = VStr p -> p = "") ->
  constructor filePath opts w
  = (Throw (Error "Provide a valid file path for the database"), w).
Proof.
  intros Hbad. unfold constructor.
  destruct (as_string filePath) as [p |] eqn:Hs; [| reflexivity].
  apply as_string_Some in Hs as [-> Hp]. destruct Hp. by apply Hbad.
Qed.

(** Snapshot options that are enabled and name no valid path are refused
    after the registration: the world left behind is the one in which the
    unfinished object is registered. *)
Lemma constructor_rejects_bad_snapshot_path (p : string) (opts : DatabaseOptions)
    (snap : SnapshotOptions) (w : World) :
  p <> "" -> instances w !! p = None ->
  jsval_truthy (object_prototype_get JObjectPrototype p) = false ->
  snapshots opts = Some snap -> truthy (enabled snap) = true ->
  as_string (path snap) = None ->
  constructor (VStr p) (Some opts) w
  = (Throw (Error "Provide a valid file path for database snapshots"),
     registered p opts w).
Proof.
  intros Hp Hreg Hinh Hsnap Hen Hpath.
  rewrite constructor_unregistered by done. cbv zeta. simpl default.
  unfold initialise. rewrite run_bind, Hsnap, Hen, Hpath. reflexivity.
Qed.

(** C3 (the code departs from it): the constructor registers [this]
    before it validates the snapshot options.  A construction for
    [db.json] with snapshots enabled and no snapshot path throws the
    error of class [InvalidArgument], and leaves [db.json] registered;
    the object registered has no [data] yet.  The next construction for
    [db.json], with no options at all, returns that object, and its
    [get] throws a [TypeError]. *)
Theorem failed_constructor_stays_registered :
  let w := fresh_process 1700000000000 false in
  exists e w1 message,
    constructor (VStr "db.json") (Some snapshots_without_path) w = (Throw e, w1)
    /\ InvalidArgument e
    /\ instances w1 !! "db.json" = Some 0
    /\ data <$> heap w1 !! 0 = Some MUndefined
    /\ constructor (VStr "db.json") None w1 = (Return (Store 0), w1)
    /\ fst (get 0 "k" w1) = Throw (TypeError message).
Proof.
  cbv zeta. eexists _, _, _. split; [vm_compute; reflexivity |].
  split; [right; left; reflexivity |].
  repeat split; vm_compute; reflexivity.
Qed.

(** C4 (the code departs from it): the constructor never reads
    [forceNew].  After a first construction for [db.json], a second one
    with [forceNew: true] returns the object of the first, allocates
    nothing, and a write through the first reference is read through the
    second at once. *)
Theorem forceNew_is_ignored :
  let w1 := run_calls [CallNew (VStr "db.json") None]
              (fresh_process 1700000000000 false) in
  let opts := Some {| snapshots := None; forceNew := VBool true;
                      indented := VUndefined |} in
  constructor (VStr "db.json") opts w1 = (Return (Store 0), w1)
  /\ dom (heap w1) = {[ 0 ]}
  /\ fst (get 0 "k" (snd (setLocal 0 "k" (VNum 7) w1))) = Return (JData (VNum 7)).
Proof. cbv zeta. repeat split; vm_compute; reflexivity. Qed.

(** C5 (the code departs from it): [saveDataToFile] always passes the
    indent [2] to [JSON.stringify] and never reads [indented].  Whatever
    the value of the option, and in particular when it is not set, the
    file written for [{a: 1}] is the indented text, not the compact one. *)
Theorem saveDataToFile_always_indents (flag : value) :
  let opts := Some {| snapshots := None; forceNew := VUndefined;
                      indented := flag |} in
  let w := run_calls [CallNew (VStr "db.json") opts; CallSetLocal 0 "a" (VNum 1);
                      CallSaveDataToFile 0]
             (fresh_process 1700000000000 false) in
  contents (fs w) "db.json" = JSON_stringify (VObj [("a", VNum 1)]) 2
  /\ contents (fs w) "db.json" = Some indented_a1
  /\ JSON_stringify (VObj [("a", VNum 1)]) 0 = Some compact_a1
  /\ contents (fs w) "db.json" <> JSON_stringify (VObj [("a", VNum 1)]) 0.
Proof.
  cbv zeta. repeat split; try (vm_compute; reflexivity).
  vm_compute. discriminate.
Qed.

(** ** The enumeration modes, on an example *)

Example array_modes :
  let w := run_calls [CallNew (VStr "db.json") None; CallSetLocal 0 "b" (VNum 2);
                      CallSetLocal 0 "a" (VNum 1); CallSetLocal 0 "7" VNull]
             (fresh_process 1700000000000 false) in
  fst (array 0 (VStr "keys") w) = Return (Keys ["7"; "b"; "a"])
  /\ fst (array 0 (VStr "values") w) = Return (Values [VNull; VNum 2; VNum 1])
  /\ fst (array 0 VNull w)
     = Return (Pairs [("7", JData VNull); ("b", JData (VNum 2)); ("a", JData (VNum 1))]).
Proof. cbv zeta. repeat split; vm_compute; reflexivity. Qed.

(** * Further properties of the class

    ** Reading back what was written *)



Lemma get_at_heap (this : ref) (key : string) (w w' : World) :
  heap w' = heap w -> fst (get this key w') = fst (get this key w).
Proof.
  intros Hheap. unfold get. rewrite !run_bind. unfold deref. rewrite Hheap.
  destruct (heap w !! this); reflexivity.
Qed.

Lemma has_at_heap (this : ref) (key : string) (w w' : World) :
  heap w' = heap w -> fst (has this key w') = fst (has this key w).
Proof.
  intros Hheap. unfold has. rewrite !run_bind. unfold deref. rewrite Hheap.
  destruct (heap w !! this); reflexivity.
Qed.

Lemma set_heap (this : ref) (key : string) (v : value) (w : World) :
  heap (snd (set this key v w)) = heap (snd (setLocal this key v w)).
Proof.
  unfold set, setLocal. rewrite !run_bind. unfold deref.
  destruct (heap w !! this) as [db |] eqn:Hdb; [| reflexivity].
  rewrite !run_bind. unfold lift.
  destruct (mirror_set (data db) key v); try reflexivity.
  rewrite run_bind, (assign_data_run _ _ _ db Hdb).
  apply saveDataToFile_heap.
Qed.

(** X1: on a mirror that is an ordinary object, for every key other than
    [__proto__], [get(key)] returns [v] right after [set(key, v)] and
    after [setLocal(key, v)] (also when the file write of [set] fails),
    and the write changes neither what [get] returns nor what [has]
    returns for any other key. *)
Theorem get_after_set
    (w : World) (this : ref) (db : Database) (p : proto)
    (own : list (string * value)) (key other : string) (v : value) :
  heap w !! this = Some db ->
  data db = MObj p own ->
  key <> "__proto__" ->
  fst (get this key (snd (set this key v w))) = Return (JData v)
  /\ fst (get this key (snd (setLocal this key v w))) = Return (JData v)
  /\ (other <> key ->
      fst (get this other (snd (set this key v w))) = fst (get this other w)
      /\ fst (has this other (snd (set this key v w))) = fst (has this other w)
      /\ fst (get this other (snd (setLocal this key v w))) = fst (get this other w)
      /\ fst (has this other (snd (setLocal this key v w))) = fst (has this other w)).
Proof.
  intros Hdb Hdata Hkey.
  pose proof (set_heap this key v w) as Hset.
  rewrite (setLocal_run _ _ _ _ _ Hdb), Hdata, mirror_set_named in Hset by done.
  simpl in Hset.
  rewrite (setLocal_run _ _ _ _ _ Hdb), Hdata, mirror_set_named by done.
  cbn [snd].
  set (w1 := assigned this (MObj p (own_define key v own)) db w) in *.
  assert (heap w1 !! this = Some (with_data (MObj p (own_define key v own)) db))
    as Hw1 by apply assigned_lookup.
  assert (fst (get this key w1) = Return (JData v)) as Hget.
  { rewrite (get_run _ _ _ _ Hw1). simpl.
    by rewrite own_lookup_define, String.eqb_refl. }
  split; [| split].
  - by rewrite (get_at_heap this key w1 _ Hset).
  - exact Hget.
  - intros Hother.
    assert (String.eqb other key = false) as E by (by apply String.eqb_neq).
    assert (fst (get this other w1) = fst (get this other w)) as Hg.
    { rewrite (get_run _ _ _ _ Hw1), (get_run _ _ _ _ Hdb), Hdata. simpl.
      by rewrite own_lookup_define, E. }
    assert (fst (has this other w1) = fst (has this other w)) as Hh.
    { rewrite (has_run _ _ _ _ Hw1), (has_run _ _ _ _ Hdb), Hdata. simpl.
      by rewrite has_own_define, E. }
    rewrite (get_at_heap this other w1 _ Hset), (has_at_heap this other w1 _ Hset).
    auto.
Qed.

(** The key [greeting] on a store holding [a = 1]. *)
Lemma get_after_set_witness :
  fst (get 0 "greeting" (snd (set 0 "greeting" (VStr "hello") (store_a1 false))))
  = Return (JData (VStr "hello"))
  /\ fst (get 0 "a" (snd (set 0 "greeting" (VStr "hello") (store_a1 false))))
     = Return (JData (VNum 1)).
Proof.
  destruct (get_after_set (store_a1 false) 0
              {| jsonFilePath := "db.json"; options := no_options;
                 data := MObj ProtoObject [("a", VNum 1)] |}
              ProtoObject [("a", VNum 1)] "greeting" "a" (VStr "hello"))
    as (Hget & _ & Hother).
  - vm_compute. reflexivity.
  - reflexivity.
  - discriminate.
  - split; [exact Hget |].
    destruct Hother as (Hg & _); [discriminate |].
    rewrite Hg. vm_compute. reflexivity.
Defined.

(** ** Removing *)


Lemma delete_run (this : ref) (key : string) (w : World) (db : Database) :
  heap w !! this = Some db ->
  delete this key w =
  match mirror_delete (data db) key with
  | Return m => saveDataToFile this (assigned this m db w)
  | Throw e => (Throw e, w)
  | Beyond what => (Beyond what, w)
  end.
Proof.
  intros Hdb. unfold delete. rewrite run_bind. unfold deref. rewrite Hdb.
  rewrite run_bind. unfold lift.
  destruct (mirror_delete (data db) key); try reflexivity.
  rewrite run_bind, (assign_data_run _ _ _ _ Hdb). reflexivity.
Qed.



(** ** Loading *)

(** X3: a load either fails and leaves the world exactly as it was (the
    file is missing, is no JSON text, or holds a value whose [typeof] is
    not [object]), or returns after replacing the mirror by the value
    read from the file, whatever the mirror held before: unsaved edits
    are discarded.  The files are never written. *)
Theorem fetchDataFromFile_all_or_nothing (this : ref) (w : World) :
  match fetchDataFromFile this w with
  | (Return _, w') =>
      exists db text savedData rest,
        heap w !! this = Some db
        /\ readFileSync (fs w) (jsonFilePath db) = Return text
        /\ JSON_parse text = POk savedData rest
        /\ typeof savedData = TObject
        /\ w' = assigned this (mirror_of savedData) db w
  | (_, w') => w' = w
  end.
Proof.
  unfold fetchDataFromFile. rewrite run_bind. unfold deref.
  destruct (heap w !! this) as [db |] eqn:Hdb; [| reflexivity].
  rewrite run_bind. unfold fs_readFileSync.
  destruct (readFileSync (fs w) (jsonFilePath db)) as [text | e | what] eqn:Hread;
    try reflexivity.
  destruct (JSON_parse text) as [savedData rest | |] eqn:Hparse; try reflexivity.
  destruct (bool_decide (typeof savedData = TObject)) eqn:Htype; [| reflexivity].
  apply bool_decide_eq_true in Htype.
  rewrite (assign_data_run _ _ _ _ Hdb). eauto 10.
Qed.

(** ** Writing to the file *)

Lemma fs_writeFileSync_cases (p : string) (data : option string) (w : World) :
  (exists text, fs_writeFileSync p data w = (Return (), written p text w)
                /\ writable (fs w) p
                /\ (data = Some text \/ data = None /\ text = "undefined"))
  \/ (exists e, fs_writeFileSync p data w = (Throw e, w)).
Proof.
  unfold fs_writeFileSync.
  destruct (writable_or_not (fs w) p) as [Hw | [e Hw]].
  - destruct data as [text |].
    + left. exists text. rewrite (Hw text). auto.
    + destruct (coerces_data w); [| right; eauto].
      left. exists "undefined". rewrite (Hw _). auto.
  - right. destruct data as [text |].
    + exists e. by rewrite (Hw text).
    + destruct (coerces_data w); [| eauto]. exists e. by rewrite (Hw _).
Qed.

(** X4: [set], [delete] and [deleteAll] change the mirror before they
    write the file.  When the write throws, the call throws the same
    error and the mirror keeps the change: the mirror and the file then
    differ until a later save succeeds. *)
Theorem mutation_survives_failed_write
    (w : World) (this : ref) (db : Database) (p : proto)
    (own : list (string * value)) (key : string) (v : value) (e : error) :
  heap w !! this = Some db ->
  data db = MObj p own ->
  unwritable (fs w) (jsonFilePath db) e ->
  set this key v w
  = (Throw e, assigned this (mirror_of_object (object_set p own key v)) db w)
  /\ delete this key w
     = (Throw e, assigned this (MObj p (own_delete key own)) db w)
  /\ deleteAll this w = (Throw e, assigned this empty_object db w).
Proof.
  intros Hdb Hdata Hw. split; [| split].
  - rewrite (set_run _ _ _ _ _ Hdb), Hdata. simpl.
    destruct (object_set p own key v) as [p1 own1].
    apply (save_object_unwritable this _ (with_data (MObj p1 own1) db) p1 own1 e);
      [apply assigned_lookup | reflexivity | exact Hw].
  - rewrite (delete_run _ _ _ _ Hdb), Hdata. simpl.
    apply (save_object_unwritable this _
             (with_data (MObj p (own_delete key own)) db) p (own_delete key own) e);
      [apply assigned_lookup | reflexivity | exact Hw].
  - unfold deleteAll. rewrite run_bind, (assign_data_run _ _ _ _ Hdb).
    apply (save_object_unwritable this _ (with_data empty_object db) ProtoObject [] e);
      [apply assigned_lookup | reflexivity | exact Hw].
Qed.

(** A write to a store whose file has become a directory. *)
Lemma mutation_survives_failed_write_witness :
  fst (set 0 "k" (VNum 1) blocked_store) = Throw (SystemError "EISDIR" "db.json")
  /\ fst (get 0 "k" (snd (set 0 "k" (VNum 1) blocked_store)))
     = Return (JData (VNum 1))
  /\ contents (fs (snd (set 0 "k" (VNum 1) blocked_store))) "db.json" = None.
Proof.
  destruct (mutation_survives_failed_write blocked_store 0
              {| jsonFilePath := "db.json"; options := no_options;
                 data := empty_object |}
              ProtoObject [] "k" (VNum 1) (SystemError "EISDIR" "db.json"))
    as (Hset & _).
  - vm_compute. reflexivity.
  - reflexivity.
  - intros data. vm_compute. reflexivity.
  - rewrite Hset. repeat split; vm_compute; reflexivity.
Defined.

(** X5: [saveDataToFile] touches the backing file and nothing else: the
    mirror, the registry, the timers and the directories are as before,
    and so is every file at another path.  Saving a second time right
    after leaves the files as the first save left them. *)
Theorem saveDataToFile_writes_one_file (this : ref) (w : World) (db : Database) :
  heap w !! this = Some db ->
  let w1 := snd (saveDataToFile this w) in
  heap w1 = heap w
  /\ instances w1 = instances w
  /\ timers w1 = timers w
  /\ dirs (fs w1) = dirs (fs w)
  /\ (forall q, canon q <> canon (jsonFilePath db) ->
        contents (fs w1) q = contents (fs w) q)
  /\ fs (snd (saveDataToFile this w1)) = fs w1.
Proof.
  intros Hdb. cbv zeta. rewrite (saveDataToFile_run _ _ _ Hdb).
  destruct (fs_writeFileSync_cases (jsonFilePath db)
              (JSON_stringify (mirror_value (data db)) 2) w)
    as [(text & Hrun & Hw & Htext) | (e & Hrun)]; rewrite Hrun; cbn [snd].
  - do 4 (split; [reflexivity |]). split.
    + intros q Hq. unfold contents, written. simpl.
      by rewrite lookup_insert_ne.
    + assert (heap (written (jsonFilePath db) text w) !! this = Some db) as Hdb'
        by exact Hdb.
      rewrite (saveDataToFile_run _ _ _ Hdb').
      destruct (fs_writeFileSync_cases (jsonFilePath db)
                  (JSON_stringify (mirror_value (data db)) 2)
                  (written (jsonFilePath db) text w))
        as [(text' & Hrun' & _ & Htext') | (e & Hrun')]; rewrite Hrun';
        cbn [snd]; [| reflexivity].
      assert (text' = text) as ->.
      { destruct Htext as [Ht | [Ht ->]], Htext' as [Ht' | [Ht' ->]]; congruence. }
      unfold written. simpl. by rewrite insert_insert_eq.
  - do 5 (split; [reflexivity |]).
    rewrite (saveDataToFile_run _ _ _ Hdb), Hrun. reflexivity.
Qed.

(** A save of the store holding [a = 1], in a directory that also holds
    a file [notes.txt]. *)
Lemma saveDataToFile_writes_one_file_witness :
  let w := run_calls [CallSetLocal 0 "b" (VNum 2)]
             (with_fs {| files := <["notes.txt" := "remember"]>
                                    (files (fs (store_a1 false)));
                         dirs := dirs (fs (store_a1 false)) |}
                (store_a1 false)) in
  let w1 := snd (saveDataToFile 0 w) in
  contents (fs w1) "notes.txt" = Some "remember"
  /\ fs (snd (saveDataToFile 0 w1)) = fs w1.
Proof.
  intros w w1.
  destruct (saveDataToFile_writes_one_file 0 w
              {| jsonFilePath := "db.json"; options := no_options;
                 data := MObj ProtoObject [("a", VNum 1); ("b", VNum 2)] |})
    as (_ & _ & _ & _ & Hother & Hagain).
  - vm_compute. reflexivity.
  - split; [| exact Hagain].
    fold w1 in Hother. rewrite (Hother "notes.txt").
    + vm_compute. reflexivity.
    + vm_compute. discriminate.
Defined.

(** ** Reads *)

Lemma for_each_pure {A B : Type} (f : A -> M B) (l : list A) (w : World) :
  (forall x w', snd (f x w') = w') -> snd (for_each f l w) = w.
Proof.
  intros Hf. revert w. induction l as [| x l IH]; intros w; simpl; [reflexivity |].
  rewrite run_bind. specialize (Hf x w).
  destruct (f x w) as [[y | e | what] w1]; simpl in Hf; subst w1; try reflexivity.
  rewrite run_bind. specialize (IH w).
  destruct (for_each f l w) as [[ys | e | what] w2]; simpl in IH; subst w2;
    reflexivity.
Qed.

(** X6: [get], [has] and [array] never change anything: whatever they
    return, and also when they throw, the world after the call is the
    world before it. *)
Theorem reads_change_nothing (this : ref) (key : string) (outputType : value)
    (w : World) :
  snd (get this key w) = w
  /\ snd (has this key w) = w
  /\ snd (array this outputType w) = w.
Proof.
  split; [apply get_pure |]. split; [apply has_pure |].
  unfold array. rewrite run_bind. unfold deref.
  destruct (heap w !! this) as [db |]; [| reflexivity].
  assert (forall keys,
            snd (for_each (fun key => v ← lift (mirror_get (data db) key);
                                      mret (key, v)) keys w) = w) as Hpairs.
  { intros keys. apply for_each_pure. intros k w'. rewrite run_bind. unfold lift.
    destruct (mirror_get (data db) k); reflexivity. }
  assert (forall k : list (string * value) -> M listing,
            (forall entries, snd (k entries w) = w) ->
            snd ((lift (mirror_entries (data db)) ≫= k) w) = w) as Hentries.
  { intros k Hk. rewrite run_bind. unfold lift.
    destruct (mirror_entries (data db)); [apply Hk | reflexivity | reflexivity]. }
  assert (snd ((entries ← lift (mirror_entries (data db));
                pairs ← for_each (fun key => v ← lift (mirror_get (data db) key);
                                             mret (key, v)) (map fst entries);
                mret (Pairs pairs)) w) = w) as Hdefault.
  { apply Hentries. intros entries. rewrite run_bind.
    specialize (Hpairs (map fst entries)).
    destruct (for_each _ _ w) as [[pairs | e | what] w1]; simpl in *; by subst. }
  repeat case_match; try exact Hdefault; apply Hentries; reflexivity.
Qed.

(** ** What the methods leave alone

    The steps a method is made of change the files, the heap and the log
    of writes.  A component of the world that depends on none of these
    is kept by every method. *)

Section Frame.
Context {S : Type} (proj : World -> S).
Hypothesis proj_fs : forall f w, proj (with_fs f w) = proj w.
Hypothesis proj_heap : forall h w, proj (with_heap h w) = proj w.
Hypothesis proj_log : forall l w, proj (with_write_log l w) = proj w.

Lemma keeps_bind {A B : Type} (c : M A) (k : A -> M B) :
  keeps proj c -> (forall x, keeps proj (k x)) -> keeps proj (c ≫= k).
Proof.
  intros Hc Hk w. rewrite run_bind. specialize (Hc w).
  destruct (c w) as [[x | e | what] w']; simpl in *; auto.
  by rewrite (Hk x w').
Qed.

Lemma keeps_ret {A : Type} (x : A) : keeps proj (mret x : M A).
Proof. intros w. reflexivity. Qed.

Lemma keeps_throw {A : Type} (e : error) : keeps proj (throw e : M A).
Proof. intros w. reflexivity. Qed.

Lemma keeps_beyond {A : Type} (what : string) : keeps proj (beyond what : M A).
Proof. intros w. reflexivity. Qed.

Lemma keeps_lift {A : Type} (o : outcome A) : keeps proj (lift o).
Proof. intros w. reflexivity. Qed.

Lemma keeps_when (b : bool) (c : M unit) : keeps proj c -> keeps proj (when b c).
Proof. destruct b; simpl; auto using keeps_ret. Qed.

Lemma keeps_existsSync (p : string) : keeps proj (fs_existsSync p).
Proof. intros w. reflexivity. Qed.

Lemma keeps_mkdirSync (p : string) : keeps proj (fs_mkdirSync p).
Proof.
  intros w. unfold fs_mkdirSync. destruct (mkdirSync (fs w) p); simpl; auto.
Qed.

Lemma keeps_readFileSync (p : string) : keeps proj (fs_readFileSync p).
Proof. intros w. reflexivity. Qed.

Lemma keeps_writeFileSync (p : string) (data : option string) :
  keeps proj (fs_writeFileSync p data).
Proof.
  intros w.
  destruct (fs_writeFileSync_cases p data w) as [(text & -> & _) | (e & ->)];
    [| reflexivity].
  unfold written. simpl. by rewrite proj_log, proj_fs.
Qed.

Lemma keeps_Date_now : keeps proj Date_now.
Proof. intros w. reflexivity. Qed.

Lemma keeps_deref (this : ref) : keeps proj (deref this).
Proof. intros w. unfold deref. by destruct (heap w !! this). Qed.

Lemma keeps_assign_data (this : ref) (m : mirror) : keeps proj (assign_data this m).
Proof.
  intros w. unfold assign_data. destruct (heap w !! this); simpl; auto.
Qed.

Lemma keeps_alloc (db : Database) : keeps proj (alloc db).
Proof. intros w. unfold alloc. simpl. apply proj_heap. Qed.

Lemma keeps_for_each {A B : Type} (f : A -> M B) (l : list A) :
  (forall x, keeps proj (f x)) -> keeps proj (for_each f l).
Proof.
  intros Hf. induction l as [| x l IH]; simpl; [apply keeps_ret |].
  apply keeps_bind; [apply Hf | intros y].
  apply keeps_bind; [apply IH | intros ys]. apply keeps_ret.
Qed.

(** Solves [keeps proj] for a program built from the steps above. *)
Ltac keeps_tac :=
  repeat first
    [ apply keeps_bind; [| intros ?]
    | progress eauto using keeps_ret, keeps_throw, keeps_beyond, keeps_lift,
        keeps_when, keeps_existsSync, keeps_mkdirSync, keeps_readFileSync,
        keeps_writeFileSync, keeps_Date_now, keeps_deref, keeps_assign_data
    | match goal with
      | |- keeps _ (match ?x with _ => _ end) => destruct x
      | |- keeps _ (if ?b then _ else _) => destruct b
      | |- keeps _ (let _ := _ in _) => cbv zeta
      end ].

Lemma keeps_fetchDataFromFile (this : ref) : keeps proj (fetchDataFromFile this).
Proof. unfold fetchDataFromFile. keeps_tac. Qed.

Lemma keeps_saveDataToFile (this : ref) : keeps proj (saveDataToFile this).
Proof. unfold saveDataToFile. keeps_tac. Qed.

Lemma keeps_makeSnapshot (this : ref) (folderPath : string) :
  keeps proj (makeSnapshot this folderPath).
Proof. unfold makeSnapshot. keeps_tac. Qed.

Lemma keeps_get (this : ref) (key : string) : keeps proj (get this key).
Proof. unfold get. keeps_tac. Qed.

Lemma keeps_setLocal (this : ref) (key : string) (v : value) :
  keeps proj (setLocal this key v).
Proof. unfold setLocal. keeps_tac. Qed.

Lemma keeps_set (this : ref) (key : string) (v : value) : keeps proj (set this key v).
Proof. unfold set. pose proof keeps_saveDataToFile. keeps_tac. Qed.

Lemma keeps_update (this : ref) (key : string) (f : jsval -> outcome value) :
  keeps proj (update this key (pure_callback f)).
Proof.
  unfold update, pure_callback.
  apply keeps_bind; [apply keeps_get | intros current].
  apply keeps_bind; [apply keeps_lift | intros newValue]. apply keeps_set.
Qed.

Lemma keeps_updateLocal (this : ref) (key : string) (f : jsval -> outcome value) :
  keeps proj (updateLocal this key (pure_callback f)).
Proof.
  unfold updateLocal, pure_callback.
  apply keeps_bind; [apply keeps_get | intros current].
  apply keeps_bind; [apply keeps_lift | intros newValue]. apply keeps_setLocal.
Qed.

Lemma keeps_deleteLocal (this : ref) (key : string) : keeps proj (deleteLocal this key).
Proof. unfold deleteLocal. keeps_tac. Qed.

Lemma keeps_delete (this : ref) (key : string) : keeps proj (delete this key).
Proof. unfold delete. pose proof keeps_saveDataToFile. keeps_tac. Qed.

Lemma keeps_deleteAllLocal (this : ref) : keeps proj (deleteAllLocal this).
Proof. apply keeps_assign_data. Qed.

Lemma keeps_deleteAll (this : ref) : keeps proj (deleteAll this).
Proof. unfold deleteAll. pose proof keeps_saveDataToFile. keeps_tac. Qed.

Lemma keeps_has (this : ref) (key : string) : keeps proj (has this key).
Proof. unfold has. keeps_tac. Qed.

Lemma keeps_array (this : ref) (outputType : value) :
  keeps proj (array this outputType).
Proof.
  assert (forall (m : mirror) (keys : list string),
            keeps proj (for_each (fun key => v ← lift (mirror_get m key);
                                             mret (key, v)) keys)) as Hpairs.
  { intros m keys. apply keeps_for_each. intros key. keeps_tac. }
  unfold array. keeps_tac.
Qed.

(** The end of the constructor, from [this.data = {}] on. *)
Lemma keeps_load_or_create (this : ref) (filePath : string) :
  keeps proj
    (_ ← assign_data this empty_object;
     there ← fs_existsSync filePath;
     if negb there then
       let parentPath := dirname filePath in
       above ← fs_existsSync parentPath;
       _ ← when (negb above) (fs_mkdirSync parentPath);
       fs_writeFileSync filePath (Some "{}")
     else fetchDataFromFile this).
Proof. pose proof keeps_fetchDataFromFile. keeps_tac. Qed.

End Frame.

(** ** The registry and the timers *)

Lemma keeps_instances_setInterval (this : ref) (path : string) (interval : Z) :
  keeps instances (setInterval this path interval).
Proof. intros w. reflexivity. Qed.

Lemma keeps_instances_initialise (this : ref) (filePath : string)
    (opts : DatabaseOptions) :
  keeps instances (initialise this filePath opts).
Proof.
  unfold initialise. apply keeps_bind.
  - destruct (snapshots opts) as [snap |]; [| apply keeps_ret].
    destruct (truthy (enabled snap)); [| apply keeps_ret].
    destruct (as_string (path snap)); [| apply keeps_throw].
    destruct (as_number (interval snap)); [| apply keeps_throw].
    apply keeps_bind; [apply keeps_existsSync | intros there].
    apply keeps_bind; [| intros _; apply keeps_instances_setInterval].
    apply keeps_when. by apply keeps_mkdirSync.
  - intros _. by apply keeps_load_or_create.
Qed.

(** The timers after the constructor's validation of the snapshot
    options: one more when the options are enabled and valid and the
    folder could be made, none otherwise. *)
Lemma initialise_timers (this : ref) (filePath : string) (opts : DatabaseOptions)
    (w : World) :
  timers (snd (initialise this filePath opts w)) = timers w
  \/ exists folder period,
       snapshots opts
       = Some {| enabled := enabled (default {| enabled := VUndefined;
                                                 path := VUndefined;
                                                 interval := VUndefined |}
                                       (snapshots opts));
                 path := VStr folder; interval := VNum period |}
       /\ timers (snd (initialise this filePath opts w))
          = {| owner := this; folder := folder; period := period |} :: timers w.
Proof.
  assert (forall w0, timers (snd ((_ ← assign_data this empty_object;
              there ← fs_existsSync filePath;
              if negb there then
                let parentPath := dirname filePath in
                above ← fs_existsSync parentPath;
                _ ← when (negb above) (fs_mkdirSync parentPath);
                fs_writeFileSync filePath (Some "{}")
              else fetchDataFromFile this) w0)) = timers w0) as Hrest.
  { intros w0. by apply (keeps_load_or_create timers). }
  unfold initialise. rewrite run_bind.
  destruct (snapshots opts) as [[en pa iv] |] eqn:Hsnap; simpl;
    [| left; apply Hrest].
  destruct (truthy en); [| left; apply Hrest].
  destruct (as_string pa) as [folder |] eqn:Hpa; [| by left].
  destruct (as_number iv) as [period |] eqn:Hiv; [| by left].
  apply as_string_Some in Hpa as [-> _].
  assert (iv = VNum period) as ->.
  { unfold as_number in Hiv. destruct iv; simpl in Hiv; congruence. }
  rewrite run_bind. unfold fs_existsSync. rewrite run_bind.
  destruct (existsSync (fs w) folder); simpl.
  - right. exists folder, period. split; [reflexivity |]. by rewrite Hrest.
  - pose proof (keeps_mkdirSync timers (fun _ _ => eq_refl) folder w) as Hmk.
    destruct (fs_mkdirSync folder w) as [[[] | e | what] w1]; simpl in *;
      try (by left).
    right. exists folder, period. split; [reflexivity |].
    rewrite Hrest. simpl. by rewrite Hmk.
Qed.

(** What a construction does to the registry and to the timers: it adds
    at most one entry, under a key that had none, and at most one timer. *)
Lemma constructor_effect (filePath : value) (opts : option DatabaseOptions)
    (w : World) :
  let w' := snd (constructor filePath opts w) in
  (instances w' = instances w
   \/ exists p, filePath = VStr p /\ instances w !! p = None
                /\ instances w' = <[p := fresh (dom (heap w))]> (instances w))
  /\ (timers w' = timers w \/ exists t, timers w' = t :: timers w).
Proof.
  cbv zeta.
  destruct (as_string filePath) as [p |] eqn:Hs.
  2:{ unfold constructor. rewrite Hs. auto. }
  apply as_string_Some in Hs as [-> Hp].
  destruct (instances w !! p) as [this |] eqn:Hreg.
  { rewrite (constructor_registered w p this) by done. auto. }
  destruct (jsval_truthy (object_prototype_get JObjectPrototype p)) eqn:Hinh.
  { unfold constructor. rewrite as_string_VStr by done.
    rewrite run_bind. unfold instances_get. rewrite Hreg, Hinh. auto. }
  rewrite constructor_unregistered by done. cbv zeta.
  pose proof (keeps_instances_initialise (fresh (dom (heap w))) p
                (default no_options opts)
                (registered p (default no_options opts) w)) as Hi.
  pose proof (initialise_timers (fresh (dom (heap w))) p
                (default no_options opts)
                (registered p (default no_options opts) w)) as Ht.
  destruct (initialise _ _ _ _) as [[[] | e | what] w1]; simpl in *;
    (split; [right; exists p; by rewrite Hi |]);
    (destruct Ht as [-> | (folder & period & _ & ->)]; eauto).
Qed.

Lemma run_call_keeps {S : Type} (proj : World -> S) (c : call) (w : World) :
  (forall f w, proj (with_fs f w) = proj w) ->
  (forall h w, proj (with_heap h w) = proj w) ->
  (forall l w, proj (with_write_log l w) = proj w) ->
  (forall t w, proj {| fs := fs w; heap := heap w; instances := instances w;
                      timers := timers w; now := t;
                      coerces_data := coerces_data w;
                      write_log := write_log w |} = proj w) ->
  (forall filePath opts, c <> CallNew filePath opts) ->
  proj (run_call c w) = proj w.
Proof.
  intros Hfs Hheap Hlog Hnow Hc.
  destruct c; simpl; try solve [ by auto ].
  - by destruct (Hc filePath opts).
  - by apply keeps_fetchDataFromFile.
  - by apply keeps_saveDataToFile.
  - by apply keeps_makeSnapshot.
  - by apply keeps_get.
  - by apply keeps_set.
  - by apply keeps_setLocal.
  - by apply keeps_update.
  - by apply keeps_updateLocal.
  - by apply keeps_delete.
  - by apply keeps_deleteLocal.
  - by apply keeps_deleteAll.
  - by apply keeps_deleteAllLocal.
  - by apply keeps_has.
  - by apply keeps_array.
  - destruct (timers w !! n); [| reflexivity]. by apply keeps_makeSnapshot.
Qed.

(** X7: no method but the constructor touches the registry or the
    timers, and nothing in the environment does: after any call that is
    not a construction, a timer firing, the clock advancing and files
    changing included, the registry and the list of timers are what they
    were. *)
Theorem only_the_constructor_registers (c : call) (w : World) :
  (forall filePath opts, c <> CallNew filePath opts) ->
  instances (run_call c w) = instances w /\ timers (run_call c w) = timers w.
Proof.
  intros Hc. split; by apply run_call_keeps.
Qed.

(** A [deleteAll] and a snapshot on the store holding [a = 1]. *)
Lemma only_the_constructor_registers_witness :
  instances (run_call (CallDeleteAll 0) (store_a1 false))
  = instances (store_a1 false)
  /\ timers (run_call (CallMakeSnapshot 0 "snaps") (store_a1 true))
     = timers (store_a1 true).
Proof.
  split.
  - apply (only_the_constructor_registers (CallDeleteAll 0) (store_a1 false)).
    discriminate.
  - apply (only_the_constructor_registers (CallMakeSnapshot 0 "snaps")
             (store_a1 true)).
    discriminate.
Defined.

Lemma run_call_timers (c : call) (w : World) :
  exists added, timers (run_call c w) = added ++ timers w.
Proof.
  destruct c as [filePath opts | | | | | | | | | | | | | | | | |];
    try (exists []; simpl app; apply (run_call_keeps timers); auto; discriminate).
  simpl. destruct (constructor_effect filePath opts w) as [_ [-> | [t ->]]].
  - by exists [].
  - by exists [t].
Qed.

(** X8: a timer, once started, is never stopped: after any sequence of
    calls, the timers that were running are still there, in the same
    order, behind the ones started since. *)
Theorem timers_are_never_stopped (cs : list call) (w : World) :
  exists added, timers (run_calls cs w) = added ++ timers w.
Proof.
  revert w. induction cs as [| c cs IH]; intros w.
  - by exists [].
  - change (run_calls (c :: cs) w) with (run_calls cs (run_call c w)).
    destruct (IH (run_call c w)) as [later Hlater].
    destruct (run_call_timers c w) as [first Hfirst].
    exists (later ++ first). by rewrite Hlater, Hfirst, app_assoc.
Qed.

Lemma constructor_added (p : string) (opts : option DatabaseOptions)
    (this : ref) (w : World) :
  instances w !! p = None ->
  instances (snd (constructor (VStr p) opts w)) !! p = Some this ->
  exists db, heap (snd (constructor (VStr p) opts w)) !! this = Some db
             /\ jsonFilePath db = p.
Proof.
  intros Hnone.
  destruct (as_string (VStr p)) as [p' |] eqn:Hs.
  2:{ unfold constructor. rewrite Hs. simpl. congruence. }
  apply as_string_Some in Hs as [[= <-] Hp].
  destruct (jsval_truthy (object_prototype_get JObjectPrototype p)) eqn:Hinh.
  { unfold constructor. rewrite as_string_VStr by done.
    rewrite run_bind. unfold instances_get. rewrite Hnone, Hinh. simpl. congruence. }
  rewrite constructor_unregistered by done. cbv zeta.
  pose proof (keeps_instances_initialise (fresh (dom (heap w))) p
                (default no_options opts)
                (registered p (default no_options opts) w)) as Hi.
  pose proof (grows_initialise (fresh (dom (heap w))) p
                (default no_options opts)
                (registered p (default no_options opts) w)) as [_ Hh].
  assert (instances (snd (initialise (fresh (dom (heap w))) p
                            (default no_options opts)
                            (registered p (default no_options opts) w))) !! p
          = Some this ->
          exists db,
            heap (snd (initialise (fresh (dom (heap w))) p
                         (default no_options opts)
                         (registered p (default no_options opts) w))) !! this
            = Some db /\ jsonFilePath db = p) as Hgoal.
  { rewrite Hi. simpl. rewrite lookup_insert_eq. intros [= <-].
    destruct (Hh (fresh (dom (heap w)))
                {| jsonFilePath := p; options := default no_options opts;
                   data := MUndefined |}) as (db & Hdb & Hpath & _).
    { apply lookup_insert_eq. }
    eauto. }
  destruct (initialise _ _ _ _) as [[[] | e | what] w1]; exact Hgoal.
Qed.

Lemma registry_wf_run_call (c : call) (w : World) :
  registry_wf w -> registry_wf (run_call c w).
Proof.
  intros Hwf p this Hreg.
  destruct (extends_run_call c w) as [_ Hheap].
  assert (instances w !! p = Some this ->
          exists db, heap (run_call c w) !! this = Some db /\ jsonFilePath db = p)
    as Hold.
  { intros Hw. destruct (Hwf _ _ Hw) as (db & Hdb & Hpath).
    destruct (Hheap _ _ Hdb) as (db' & Hdb' & Hpath' & _).
    exists db'. split; congruence. }
  destruct c as [filePath opts | | | | | | | | | | | | | | | | |];
    try (apply Hold; rewrite <- Hreg; symmetry;
         apply (run_call_keeps (fun w => instances w !! p)); auto; discriminate).
  simpl in *.
  destruct (constructor_effect filePath opts w)
    as [[Hsame | (q & -> & Hnone & Hadd)] _].
  { apply Hold. by rewrite <- Hsame. }
  destruct (decide (q = p)) as [-> | Hne].
  - exact (constructor_added p opts this w Hnone Hreg).
  - rewrite Hadd, lookup_insert_ne in Hreg by done. by apply Hold.
Qed.

(** X9: in every world reached from a consistent one (a process that has
    just started is one) the registry stays consistent: each entry leads
    to a [Database] object whose file path is the key of the entry, so
    no object is registered under two paths; and no entry is ever
    removed or redirected. *)
Theorem registry_stays_consistent (cs : list call) (w : World) :
  registry_wf w ->
  registry_wf (run_calls cs w)
  /\ (forall p q this,
        instances (run_calls cs w) !! p = Some this ->
        instances (run_calls cs w) !! q = Some this -> p = q)
  /\ (forall p this,
        instances w !! p = Some this ->
        instances (run_calls cs w) !! p = Some this).
Proof.
  intros Hwf.
  assert (registry_wf (run_calls cs w)) as Hwf'.
  { revert w Hwf. induction cs as [| c cs IH]; intros w Hwf; [exact Hwf |].
    change (run_calls (c :: cs) w) with (run_calls cs (run_call c w)).
    apply IH. by apply registry_wf_run_call. }
  split; [exact Hwf' |]. split.
  - intros p q this Hp Hq.
    destruct (Hwf' _ _ Hp) as (db & Hdb & <-).
    destruct (Hwf' _ _ Hq) as (db' & Hdb' & <-). congruence.
  - apply (extends_run_calls cs w).
Qed.

(** Two databases opened in a process that has just started. *)
Lemma registry_stays_consistent_witness :
  let w := run_calls [CallNew (VStr "a.json") None; CallSet 0 "k" (VNum 1);
                      CallNew (VStr "b.json") None; CallDeleteAll 0]
             (fresh_process 1700000000000 false) in
  instances w !! "a.json" = Some 0 /\ instances w !! "b.json" = Some 1
  /\ registry_wf w.
Proof.
  intros w. split; [vm_compute; reflexivity |]. split; [vm_compute; reflexivity |].
  apply (registry_stays_consistent
           [CallNew (VStr "a.json") None; CallSet 0 "k" (VNum 1);
            CallNew (VStr "b.json") None; CallDeleteAll 0]
           (fresh_process 1700000000000 false)).
  intros p this Hreg. vm_compute in Hreg. discriminate.
Defined.

(** ** The constructor, case by case *)

Lemma constructor_reaches_file (p : string) (opts : option DatabaseOptions)
    (w : World) :
  unregistered p w -> snapshots_off (default no_options opts) ->
  constructor (VStr p) opts w =
  let this := fresh (dom (heap w)) in
  let w1 := assigned this empty_object (new_store p (default no_options opts) MUndefined)
              (registered p (default no_options opts) w) in
  match (if negb (existsSync (fs w) p) then
           above ← fs_existsSync (dirname p);
           _ ← when (negb above) (fs_mkdirSync (dirname p));
           fs_writeFileSync p (Some "{}")
         else fetchDataFromFile this) w1 with
  | (Return _, w') => (Return (Store this), w')
  | (Throw e, w') => (Throw e, w')
  | (Beyond what, w') => (Beyond what, w')
  end.
Proof.
  intros (Hp & Hreg & Hinh) Hoff.
  rewrite constructor_unregistered by done. cbv zeta.
  unfold initialise. rewrite run_bind.
  assert ((match snapshots (default no_options opts) with
           | Some snap =>
               if truthy (enabled snap) then
                 match as_string (path snap) with
                 | None =>
                     throw (Error "Provide a valid file path for database snapshots")
                 | Some path =>
                     match as_number (interval snap) with
                     | None =>
                         throw (Error "Provide the interval in milliseconds for snapshot creation")
                     | Some interval =>
                         there ← fs_existsSync path;
                         _ ← when (negb there) (fs_mkdirSync path);
                         setInterval (fresh (dom (heap w))) path interval
                     end
                 end
               else mret ()
           | None => mret ()
           end : M unit) = mret ()) as ->.
  { destruct (snapshots (default no_options opts)) as [snap |] eqn:Hsnap;
      [| reflexivity].
    by rewrite (Hoff snap). }
  rewrite run_ret, run_bind.
  rewrite (assign_data_run _ _ _
             (new_store p (default no_options opts) MUndefined))
    by apply lookup_insert_eq.
  rewrite run_bind. unfold fs_existsSync at 1. cbv zeta.
  reflexivity.
Qed.

(** X10: a construction, without snapshots, for a path that is not
    registered and at which nothing exists, in a directory that exists:
    the file is created holding [{}], in one write; the new object is
    registered under the path, with an empty mirror and the options
    passed (none: the empty options); and the object is returned. *)
Theorem constructor_creates_missing_file (p : string)
    (opts : option DatabaseOptions) (w : World) :
  unregistered p w -> snapshots_off (default no_options opts) ->
  existsSync (fs w) p = false ->
  existsSync (fs w) (dirname p) = true ->
  writable (fs w) p ->
  let this := fresh (dom (heap w)) in
  exists w',
    constructor (VStr p) opts w = (Return (Store this), w')
    /\ heap w' !! this = Some (new_store p (default no_options opts) empty_object)
    /\ instances w' !! p = Some this
    /\ contents (fs w') p = Some "{}"
    /\ write_log w' = canon p :: write_log w
    /\ dirs (fs w') = dirs (fs w).
Proof.
  intros Hun Hoff Hmissing Habove Hw. cbv zeta.
  rewrite constructor_reaches_file by done. cbv zeta.
  rewrite Hmissing. cbn [negb].
  rewrite run_bind. unfold fs_existsSync. simpl fs. rewrite Habove.
  cbn [negb when]. rewrite run_bind, run_ret.
  unfold fs_writeFileSync. simpl fs. rewrite (Hw "{}").
  eexists. split; [reflexivity |].
  unfold contents. simpl. rewrite !lookup_insert_eq. auto.
Qed.

(** The first construction in a process that has just started. *)
Lemma constructor_creates_missing_file_witness :
  exists w',
    constructor (VStr "db.json") None (fresh_process 1700000000000 false)
    = (Return (Store 0), w')
    /\ heap w' !! 0 = Some (new_store "db.json" no_options empty_object)
    /\ contents (fs w') "db.json" = Some "{}".
Proof.
  destruct (constructor_creates_missing_file "db.json" None
              (fresh_process 1700000000000 false))
    as (w' & Hrun & Hheap & _ & Hfile & _).
  - repeat split; [discriminate | vm_compute; reflexivity..].
  - intros snap Hsnap. discriminate.
  - vm_compute. reflexivity.
  - vm_compute. reflexivity.
  - intros data. vm_compute. reflexivity.
  - exists w'. auto.
Defined.

Lemma readFileSync_exists (f : FileSystem) (p text : string) :
  readFileSync f p = Return text -> existsSync f p = true.
Proof.
  unfold readFileSync, existsSync. by destruct (lookup_path f p).
Qed.

(** X11: a construction, without snapshots, for a path that is not
    registered and at which a file holds the JSON text of an object (of
    any value whose [typeof] is [object]): the object is returned with
    the value read as its mirror, and nothing is written: the files and
    the log of writes are as before. *)
Theorem constructor_loads_existing_file (p : string)
    (opts : option DatabaseOptions) (w : World) (text rest : string)
    (savedData : value) :
  unregistered p w -> snapshots_off (default no_options opts) ->
  readFileSync (fs w) p = Return text ->
  JSON_parse text = POk savedData rest ->
  typeof savedData = TObject ->
  let this := fresh (dom (heap w)) in
  exists w',
    constructor (VStr p) opts w = (Return (Store this), w')
    /\ heap w' !! this
       = Some (new_store p (default no_options opts) (mirror_of savedData))
    /\ instances w' !! p = Some this
    /\ fs w' = fs w
    /\ write_log w' = write_log w.
Proof.
  intros Hun Hoff Hread Hparse Htype. cbv zeta.
  rewrite constructor_reaches_file by done. cbv zeta.
  rewrite (readFileSync_exists _ _ _ Hread). cbn [negb].
  erewrite (fetchDataFromFile_guard _ _
              (with_data empty_object
                 (new_store p (default no_options opts) MUndefined)));
    [| apply assigned_lookup | exact Hread | exact Hparse].
  rewrite bool_decide_eq_true_2 by done.
  eexists. split; [reflexivity |].
  simpl. rewrite !lookup_insert_eq. auto.
Qed.

(** A process started beside a [db.json] that holds the text of
    [{a: 1}]. *)
Lemma constructor_loads_existing_file_witness :
  exists w',
    constructor (VStr "db.json") None (process_with_file compact_a1)
    = (Return (Store 0), w')
    /\ heap w' !! 0
       = Some (new_store "db.json" no_options (MObj ProtoObject [("a", VNum 1)]))
    /\ fs w' = fs (process_with_file compact_a1).
Proof.
  destruct (constructor_loads_existing_file "db.json" None
              (process_with_file compact_a1) compact_a1 ""
              (VObj [("a", VNum 1)]))
    as (w' & Hrun & Hheap & _ & Hfs & _).
  - repeat split; [discriminate | vm_compute; reflexivity..].
  - intros snap Hsnap. discriminate.
  - vm_compute. reflexivity.
  - vm_compute. reflexivity.
  - reflexivity.
  - exists w'. auto.
Defined.

Lemma initialise_steps (this : ref) (filePath : string) (opts : DatabaseOptions) :
  initialise this filePath opts
  = (_ ← validate_snapshots this opts;
     _ ← assign_data this empty_object;
     open_file this filePath).
Proof. reflexivity. Qed.

Lemma validate_snapshots_heap (this : ref) (opts : DatabaseOptions) :
  keeps (fun w => heap w) (validate_snapshots this opts).
Proof.
  unfold validate_snapshots.
  destruct (snapshots opts) as [snap |]; [| apply keeps_ret].
  destruct (truthy (enabled snap)); [| apply keeps_ret].
  destruct (as_string (path snap)); [| apply keeps_throw].
  destruct (as_number (interval snap)); [| apply keeps_throw].
  apply keeps_bind; [apply keeps_existsSync | intros there].
  apply keeps_bind; [apply keeps_when; by apply keeps_mkdirSync | intros _].
  intros w. reflexivity.
Qed.

Lemma open_file_run (this : ref) (p : string) (w : World) :
  open_file this p w
  = if existsSync (fs w) p then fetchDataFromFile this w
    else (above ← fs_existsSync (dirname p);
          _ ← when (negb above) (fs_mkdirSync (dirname p));
          fs_writeFileSync p (Some "{}")) w.
Proof.
  unfold open_file. rewrite run_bind. unfold fs_existsSync at 1.
  by destruct (existsSync (fs w) p).
Qed.

(** [open_file] changes the heap only when it returns after a load. *)
Lemma open_file_heap (this : ref) (p : string) (w : World) :
  match fst (open_file this p w) with
  | Return _ => True
  | _ => heap (snd (open_file this p w)) = heap w
  end.
Proof.
  rewrite open_file_run.
  destruct (existsSync (fs w) p).
  - pose proof (fetchDataFromFile_all_or_nothing this w) as H.
    destruct (fetchDataFromFile this w) as [[[] | e | what] w']; simpl;
      [done | by subst..].
  - assert (heap (snd ((above ← fs_existsSync (dirname p);
                        _ ← when (negb above) (fs_mkdirSync (dirname p));
                        fs_writeFileSync p (Some "{}")) w)) = heap w) as H.
    { apply (keeps_bind (fun w => heap w)); [apply keeps_existsSync | intros above].
      apply keeps_bind; [apply keeps_when; by apply keeps_mkdirSync | intros _].
      by apply keeps_writeFileSync. }
    by destruct (fst _).
Qed.

(** X12: every construction for a valid path that is not registered
    registers the path, whether it returns or throws.  When it does not
    return (the snapshot options are refused, a directory cannot be
    made, the file cannot be read, parsed or written), the object left
    in the registry has a mirror that is not assigned yet or is the
    empty object, and the next construction for the path returns that
    object, with any options and without looking at the file. *)
Theorem constructor_always_registers (p : string)
    (opts later : option DatabaseOptions) (w : World) :
  unregistered p w ->
  let this := fresh (dom (heap w)) in
  let w' := snd (constructor (VStr p) opts w) in
  instances w' !! p = Some this
  /\ constructor (VStr p) later w' = (Return (Store this), w')
  /\ match fst (constructor (VStr p) opts w) with
     | Return r => r = Store this
     | _ => exists db, heap w' !! this = Some db
                       /\ (data db = MUndefined \/ data db = empty_object)
     end.
Proof.
  intros (Hp & Hreg & Hinh). cbv zeta.
  assert (instances (snd (constructor (VStr p) opts w)) !! p
          = Some (fresh (dom (heap w)))) as Hthere.
  { rewrite constructor_unregistered by done. cbv zeta.
    pose proof (keeps_instances_initialise (fresh (dom (heap w))) p
                  (default no_options opts)
                  (registered p (default no_options opts) w)) as Hi.
    destruct (initialise _ _ _ _) as [[[] | e | what] w1]; simpl in *;
      rewrite Hi; apply lookup_insert_eq. }
  split; [exact Hthere |]. split; [by apply constructor_registered |].
  rewrite constructor_unregistered by done. cbv zeta.
  set (this := fresh (dom (heap w))).
  set (o := default no_options opts).
  set (w0 := registered p o w).
  assert (heap w0 !! this = Some (new_store p o MUndefined)) as Hw0
    by apply lookup_insert_eq.
  rewrite initialise_steps, run_bind.
  pose proof (validate_snapshots_heap this o w0) as Hv. simpl in Hv.
  destruct (validate_snapshots this o w0) as [[[] | e | what] w2]; simpl in Hv;
    cbn [fst snd]; try (rewrite Hv; eauto).
  assert (heap w2 !! this = Some (new_store p o MUndefined)) as Hw2
    by (by rewrite Hv).
  rewrite run_bind, (assign_data_run _ _ _ _ Hw2).
  pose proof (open_file_heap this p
                (assigned this empty_object (new_store p o MUndefined) w2)) as Ho.
  destruct (open_file this p _) as [[[] | e | what] w3]; simpl in Ho;
    cbn [fst snd]; [reflexivity | |];
    (eexists; split; [rewrite Ho; apply assigned_lookup | simpl; auto]).
Qed.

(** A process started beside a [db.json] that holds no JSON text. *)
Lemma constructor_always_registers_witness :
  let w := process_with_file "not json" in
  fst (constructor (VStr "db.json") None w)
  = Throw (SyntaxError "Unexpected token in JSON")
  /\ instances (snd (constructor (VStr "db.json") None w)) !! "db.json" = Some 0
  /\ constructor (VStr "db.json") None (snd (constructor (VStr "db.json") None w))
     = (Return (Store 0), snd (constructor (VStr "db.json") None w)).
Proof.
  intros w. split; [vm_compute; reflexivity |].
  destruct (constructor_always_registers "db.json" None None w) as (Hreg & Hagain & _).
  - repeat split; [discriminate | vm_compute; reflexivity..].
  - split; [exact Hreg | exact Hagain].
Defined.

Lemma keeps_timers_rest (this : ref) (filePath : string) :
  keeps timers (_ ← assign_data this empty_object; open_file this filePath).
Proof. by apply (keeps_load_or_create timers). Qed.

(** X13: in a construction for a valid path that is not registered, the
    snapshot timer is started before the file is opened.  With snapshots
    enabled, a non-empty string as path and a number as interval, and a
    snapshot folder that exists or can be made, exactly one timer is
    started, for the new object, that folder and that interval, and it
    stays whether the construction then returns or throws.  With
    snapshots absent or not enabled no timer is started. *)
Theorem constructor_starts_snapshot_timer (p : string) (opts : DatabaseOptions)
    (w : World) :
  unregistered p w ->
  let this := fresh (dom (heap w)) in
  let w' := snd (constructor (VStr p) (Some opts) w) in
  (snapshots_off opts -> timers w' = timers w)
  /\ (forall snap dir period,
        snapshots opts = Some snap ->
        truthy (enabled snap) = true ->
        path snap = VStr dir -> dir <> "" ->
        interval snap = VNum period ->
        (existsSync (fs w) dir = true \/ exists f, mkdirSync (fs w) dir = Return f) ->
        timers w' = {| owner := this; folder := dir; period := period |} :: timers w).
Proof.
  intros (Hp & Hreg & Hinh). cbv zeta.
  rewrite constructor_unregistered by done. cbv zeta. simpl default.
  set (this := fresh (dom (heap w))).
  set (w0 := registered p opts w).
  assert (forall (r : outcome unit * World),
            timers (snd (match (let (o, w1) := r in
                                match o with
                                | Return x =>
                                    (_ ← assign_data this empty_object;
                                     open_file this p) w1
                                | Throw e => (Throw e, w1)
                                | Beyond what => (Beyond what, w1)
                                end) with
                         | (Return _, w2) => (Return (Store this), w2)
                         | (Throw e, w2) => (Throw e, w2)
                         | (Beyond what, w2) => (Beyond what, w2)
                         end)) = timers (snd r)) as Hrest.
  { intros [[[] | e | what] w1]; simpl; try reflexivity.
    pose proof (keeps_timers_rest this p w1) as H.
    by destruct ((_ ← assign_data this empty_object; open_file this p) w1)
      as [[[] | e | what] w2]. }
  rewrite initialise_steps, run_bind.
  split.
  - intros Hoff. rewrite (Hrest (validate_snapshots this opts w0)).
    unfold validate_snapshots.
    destruct (snapshots opts) as [snap |] eqn:Hsnap; [| reflexivity].
    by rewrite (Hoff snap).
  - intros snap dir period Hsnap Hen Hpath Hdir Hinterval Hfolder.
    rewrite (Hrest (validate_snapshots this opts w0)).
    unfold validate_snapshots. rewrite Hsnap, Hen, Hpath, Hinterval.
    rewrite as_string_VStr by done.
    change (as_number (VNum period)) with (Some period). cbv iota beta.
    rewrite run_bind. unfold fs_existsSync. rewrite run_bind.
    simpl fs. destruct Hfolder as [Hthere | [f Hmade]].
    + rewrite Hthere. reflexivity.
    + destruct (existsSync (fs w) dir); [reflexivity |].
      simpl. unfold fs_mkdirSync. simpl fs. rewrite Hmade. reflexivity.
Qed.

(** A construction with daily snapshots under [backups], where the file
    [db.json] holds no JSON text: the construction throws, and the timer
    runs. *)
Lemma constructor_starts_snapshot_timer_witness :
  let opts := {| snapshots := Some {| enabled := VBool true;
                                      path := VStr "backups";
                                      interval := VNum 86400000 |};
                 forceNew := VUndefined; indented := VUndefined |} in
  let w := process_with_file "not json" in
  fst (constructor (VStr "db.json") (Some opts) w)
  = Throw (SyntaxError "Unexpected token in JSON")
  /\ timers (snd (constructor (VStr "db.json") (Some opts) w))
     = [{| owner := 0; folder := "backups"; period := 86400000 |}].
Proof.
  intros opts w. split; [vm_compute; reflexivity |].
  destruct (constructor_starts_snapshot_timer "db.json" opts w) as [_ Hstart].
  - repeat split; [discriminate | vm_compute; reflexivity..].
  - rewrite (Hstart _ "backups" 86400000%Z eq_refl); try reflexivity.
    + discriminate.
    + right. eexists. vm_compute. reflexivity.
Defined.

(** ** The name of a snapshot *)

Lemma chars_app (a b : string) : chars (a +:+ b) = chars a ++ chars b.
Proof. induction a as [| c a IH]; simpl; [reflexivity |]. by rewrite IH. Qed.

Lemma text_chars (s : string) : text (chars s) = s.
Proof. apply string_of_list_ascii_of_string. Qed.

Lemma chars_text (l : list ascii) : chars (text l) = l.
Proof. apply list_ascii_of_string_of_list_ascii. Qed.

Lemma text_app (l l' : list ascii) : text (l ++ l') = text l +:+ text l'.
Proof. induction l as [| c l IH]; simpl; [reflexivity |]. by rewrite IH. Qed.

Lemma split_on_nonempty (sep : ascii) (l : list ascii) : split_on sep l <> [].
Proof.
  destruct l as [| c l]; simpl; [discriminate |].
  destruct (Ascii.eqb c sep); [discriminate |].
  destruct (split_on sep l); discriminate.
Qed.

Lemma split_on_app (sep : ascii) (l r : list ascii) :
  split_on sep (l ++ sep :: r) = split_on sep l ++ split_on sep r.
Proof.
  induction l as [| c l IH]; simpl.
  - by rewrite Ascii.eqb_refl.
  - rewrite IH. destruct (Ascii.eqb c sep); [reflexivity |].
    pose proof (split_on_nonempty sep l).
    destruct (split_on sep l); [done | reflexivity].
Qed.

Lemma split_on_without (sep : ascii) (l : list ascii) :
  ~ In sep l -> split_on sep l = [l].
Proof.
  induction l as [| c l IH]; simpl; [reflexivity |].
  intros Hnot. destruct (Ascii.eqb c sep) eqn:E.
  - apply Ascii.eqb_eq in E. tauto.
  - rewrite IH by tauto. reflexivity.
Qed.

Lemma join_split_on (sep : ascii) (l : list ascii) :
  join (String sep "") (map text (split_on sep l)) = text l.
Proof.
  induction l as [| c l IH]; simpl; [reflexivity |].
  pose proof (split_on_nonempty sep l) as Hne.
  destruct (Ascii.eqb c sep) eqn:E.
  - apply Ascii.eqb_eq in E. subst c.
    destruct (split_on sep l) as [| seg segs]; [done |].
    simpl in *. by rewrite IH.
  - destruct (split_on sep l) as [| seg segs]; [done |].
    simpl in *. rewrite <- IH. by destruct segs.
Qed.

Lemma take_while_app (f : ascii -> bool) (l r : list ascii) (c : ascii) :
  (forall x, In x l -> f x = true) -> f c = false ->
  take_while f (l ++ c :: r) = l.
Proof.
  intros Hl Hc. induction l as [| x l IH]; simpl.
  - by rewrite Hc.
  - rewrite (Hl x) by (by left). rewrite IH; [reflexivity |].
    intros y Hy. apply Hl. by right.
Qed.

Lemma take_while_all (f : ascii -> bool) (l : list ascii) :
  (forall x, In x l -> f x = true) -> take_while f l = l.
Proof.
  intros Hl. induction l as [| x l IH]; simpl; [reflexivity |].
  rewrite (Hl x) by (by left). rewrite IH; [reflexivity |].
  intros y Hy. apply Hl. by right.
Qed.

Lemma not_slash (c : ascii) (l : list ascii) :
  ~ In "/"%char l -> In c l -> negb (is_slash c) = true.
Proof.
  intros Hnot Hin. unfold is_slash. destruct (Ascii.eqb c "/") eqn:E; [| reflexivity].
  apply Ascii.eqb_eq in E. subst c. contradiction.
Qed.

(** The base name of a path whose last segment is [file]. *)
Lemma basename_file (file : string) :
  without "/" file -> basename file = file.
Proof.
  intros Hfile. unfold basename.
  assert (forall x, In x (rev (chars file)) -> negb (is_slash x) = true) as Hrev.
  { intros x Hx. apply (not_slash x (chars file) Hfile). by apply in_rev. }
  destruct (rev (chars file)) as [| c r] eqn:Hr.
  - simpl. apply (f_equal (@rev ascii)) in Hr. rewrite rev_involutive in Hr.
    simpl in Hr. by rewrite <- (text_chars file), Hr.
  - simpl. pose proof (Hrev c (or_introl eq_refl)) as Hc.
    apply negb_true_iff in Hc. rewrite Hc.
    change (c :: r) with ([] ++ c :: r) in Hrev.
    rewrite take_while_all by exact Hrev.
    rewrite <- Hr, rev_involutive. apply text_chars.
Qed.

Lemma basename_in_folder (dir file : string) :
  without "/" file -> file <> "" ->
  basename (dir +:+ "/" +:+ file) = file.
Proof.
  intros Hfile Hne. unfold basename.
  rewrite !chars_app, !rev_app_distr. simpl chars. simpl rev.
  assert (forall x, In x (rev (chars file)) -> negb (is_slash x) = true) as Hrev.
  { intros x Hx. apply (not_slash x (chars file) Hfile). by apply in_rev. }
  destruct (rev (chars file)) as [| c r] eqn:Hr.
  { apply (f_equal (@rev ascii)) in Hr. rewrite rev_involutive in Hr.
    simpl in Hr. destruct Hne. by rewrite <- (text_chars file), Hr. }
  rewrite <- app_assoc. simpl app.
  pose proof (Hrev c (or_introl eq_refl)) as Hc.
  simpl drop_while. apply negb_true_iff in Hc. rewrite Hc.
  change (c :: r ++ "/"%char :: rev (chars dir))
    with ((c :: r) ++ "/"%char :: rev (chars dir)).
  rewrite take_while_app; [| exact Hrev | reflexivity].
  rewrite <- Hr, rev_involutive. apply text_chars.
Qed.

Lemma database_name_with_extension (stem ext : string) :
  without "." ext ->
  join "." (removelast (split "." (stem +:+ "." +:+ ext))) = stem.
Proof.
  intros Hext. unfold split.
  rewrite chars_app. change (chars ("." +:+ ext)) with ("."%char :: chars ext).
  rewrite split_on_app, (split_on_without "." (chars ext)) by exact Hext.
  rewrite map_app. simpl map. rewrite removelast_last.
  rewrite join_split_on. apply text_chars.
Qed.

Lemma database_name_without_extension (name : string) :
  without "." name -> join "." (removelast (split "." name)) = "".
Proof.
  intros Hname. unfold split.
  by rewrite (split_on_without "." (chars name)) by exact Hname.
Qed.

Lemma without_dotted (stem ext : string) :
  without "/" stem -> without "/" ext -> without "/" (stem +:+ "." +:+ ext).
Proof.
  unfold without. intros Hstem Hext. rewrite chars_app.
  change (chars ("." +:+ ext)) with ("."%char :: chars ext).
  rewrite in_app_iff. simpl. intros [H | [H | H]]; [tauto | discriminate | tauto].
Qed.

(** X14: the snapshot of a file is named after the file's base name
    without its last extension: for a base name [stem.ext], where [ext]
    holds no dot, the name is [snapshot-stem-<time>.json], in whatever
    folder the file is, and [stem] may itself hold dots.  A base name
    without any dot loses everything: the name is then
    [snapshot--<time>.json], the same for every such file. *)
Theorem snapshot_name_drops_last_extension
    (dir stem ext name : string) (time : Z) :
  (without "/" stem -> without "/" ext -> without "." ext ->
   snapshot_name (stem +:+ "." +:+ ext) time
   = "snapshot-" +:+ stem +:+ "-" +:+ pretty time +:+ ".json"
   /\ snapshot_name (dir +:+ "/" +:+ stem +:+ "." +:+ ext) time
      = "snapshot-" +:+ stem +:+ "-" +:+ pretty time +:+ ".json")
  /\ (without "/" name -> without "." name ->
      snapshot_name name time = "snapshot--" +:+ pretty time +:+ ".json"
      /\ (name <> "" ->
          snapshot_name (dir +:+ "/" +:+ name) time
          = "snapshot--" +:+ pretty time +:+ ".json")).
Proof.
  split.
  - intros Hstem Hext Hdot.
    pose proof (without_dotted stem ext Hstem Hext) as Hfile.
    assert (stem +:+ "." +:+ ext <> "") as Hne by (by destruct stem).
    unfold snapshot_name.
    rewrite (basename_in_folder dir _ Hfile Hne), (basename_file _ Hfile).
    by rewrite database_name_with_extension.
  - intros Hname Hdot. unfold snapshot_name. split.
    + rewrite (basename_file _ Hname).
      by rewrite database_name_without_extension.
    + intros Hne. rewrite (basename_in_folder dir _ Hname Hne).
      by rewrite database_name_without_extension.
Qed.

(** The files [data/my.db.json] and [data/db]. *)
Lemma snapshot_name_drops_last_extension_witness :
  snapshot_name "data/my.db.json" 1700000000000
  = "snapshot-my.db-1700000000000.json"
  /\ snapshot_name "data/db" 1700000000000 = "snapshot--1700000000000.json".
Proof.
  destruct (snapshot_name_drops_last_extension "data" "my.db" "json" "db"
              1700000000000) as [Hext Hnone].
  destruct Hext as [_ Hext].
  { unfold without. simpl. intros H. decompose [or] H; discriminate || done. }
  { unfold without. simpl. intros H. decompose [or] H; discriminate || done. }
  { unfold without. simpl. intros H. decompose [or] H; discriminate || done. }
  destruct Hnone as [_ Hnone].
  { unfold without. simpl. intros H. decompose [or] H; discriminate || done. }
  { unfold without. simpl. intros H. decompose [or] H; discriminate || done. }
  split.
  - exact Hext.
  - apply Hnone. discriminate.
Defined.

(** ** Counting with [update] *)

Lemma updateLocal_run (this : ref) (key : string) (f : jsval -> outcome value)
    (w : World) (db : Database) (current : jsval) (newValue : value) :
  heap w !! this = Some db ->
  mirror_get (data db) key = Return current ->
  f current = Return newValue ->
  updateLocal this key (pure_callback f) w = setLocal this key newValue w
  /\ update this key (pure_callback f) w = set this key newValue w.
Proof.
  intros Hdb Hget Hf. unfold updateLocal, update, pure_callback. split.
  - rewrite run_bind, (get_run _ _ _ _ Hdb), Hget, run_bind.
    unfold lift at 1. by rewrite Hf.
  - rewrite run_bind, (get_run _ _ _ _ Hdb), Hget, run_bind.
    unfold lift at 1. by rewrite Hf.
Qed.

(** A write under a name that neither the object nor its prototype
    chain knows creates an own property. *)
Lemma object_set_unknown (p : proto) (own : list (string * value)) (key : string)
    (v : value) :
  own_lookup key own = None -> proto_get p key = undefined ->
  object_set p own key v = (p, own_define key v own).
Proof.
  intros Hown Hproto. unfold object_set, has_own. rewrite Hown.
  destruct (String.eqb key "__proto__") eqn:E; [| reflexivity].
  apply String.eqb_eq in E. subst key.
  destruct p as [| | props | items]; simpl in *; try reflexivity.
  - discriminate.
  - unfold has_own. destruct (own_lookup "__proto__" props); [reflexivity |].
    discriminate.
  - discriminate.
Qed.

Lemma increment_number (m : Z) :
  (Z.abs m <= 2 ^ 53)%Z ->
  increment (JData (VNum m)) = Return (VNum (counted m 1)).
Proof.
  intros Hm. unfold increment, counted.
  destruct (2 ^ 53 <? Z.abs m)%Z eqn:Hbig; [apply Z.ltb_lt in Hbig; lia |].
  destruct (m =? 2 ^ 53)%Z eqn:Htop.
  - apply Z.eqb_eq in Htop. do 2 f_equal. lia.
  - apply Z.eqb_neq in Htop. do 2 f_equal. lia.
Qed.

(** One more increment of a key that holds a number. *)
Lemma increment_step (this : ref) (key : string) (w : World) (db : Database)
    (p : proto) (own : list (string * value)) (m : Z) :
  heap w !! this = Some db ->
  data db = MObj p own ->
  own_lookup key own = Some (VNum m) ->
  (Z.abs m <= 2 ^ 53)%Z ->
  updateLocal this key (pure_callback increment) w
  = (Return (), assigned this (MObj p (own_define key (VNum (counted m 1)) own)) db w)
  /\ update this key (pure_callback increment) w
     = saveDataToFile this
         (assigned this (MObj p (own_define key (VNum (counted m 1)) own)) db w).
Proof.
  intros Hdb Hdata Hown Hm.
  destruct (updateLocal_run this key increment w db (JData (VNum m))
              (VNum (counted m 1)))
    as [-> ->]; [done | by rewrite Hdata; simpl; rewrite Hown
                 | by apply increment_number |].
  rewrite (setLocal_run _ _ _ _ _ Hdb), (set_run _ _ _ _ _ Hdb), Hdata.
  simpl. unfold object_set, has_own. by rewrite Hown.
Qed.

Lemma increment_repeated (this : ref) (key : string) (n : nat) :
  forall (w : World) (db : Database) (p : proto) (own : list (string * value))
         (m : Z),
  heap w !! this = Some db ->
  data db = MObj p own ->
  own_lookup key own = Some (VNum m) ->
  (Z.abs m <= 2 ^ 53)%Z ->
  (fst (get this key
          (snd (repeat_call n (updateLocal this key (pure_callback increment)) w)))
   = Return (JData (VNum (counted m n))))
  /\ (writable (fs w) (jsonFilePath db) ->
      fst (get this key
             (snd (repeat_call n (update this key (pure_callback increment)) w)))
      = Return (JData (VNum (counted m n)))).
Proof.
  induction n as [| n IH]; intros w db p own m Hdb Hdata Hown Hm.
  - simpl. rewrite (get_run _ _ _ _ Hdb), Hdata. simpl.
    rewrite Hown. replace (counted m 0) with m by (unfold counted; lia). done.
  - destruct (increment_step this key w db p own m Hdb Hdata Hown Hm)
      as [Hlocal Hnow].
    set (own1 := own_define key (VNum (counted m 1)) own) in *.
    set (w1 := assigned this (MObj p own1) db w) in *.
    assert (heap w1 !! this = Some (with_data (MObj p own1) db)) as Hw1
      by apply assigned_lookup.
    assert (own_lookup key own1 = Some (VNum (counted m 1))) as Hown1.
    { unfold own1. by rewrite own_lookup_define, String.eqb_refl. }
    assert (Z.abs (counted m 1) <= 2 ^ 53)%Z as Hm1 by (unfold counted; lia).
    replace (counted m (S n)) with (counted (counted m 1) n)
      by (unfold counted; lia).
    split.
    + change (repeat_call (S n) ?c) with (_ ← c; repeat_call n c).
      rewrite run_bind, Hlocal.
      by apply (IH w1 (with_data (MObj p own1) db) p own1 (counted m 1)).
    + intros Hw.
      change (repeat_call (S n) ?c) with (_ ← c; repeat_call n c).
      rewrite run_bind, Hnow.
      rewrite (save_object_writable this w1 (with_data (MObj p own1) db) p own1)
        by done.
      apply (IH (written (jsonFilePath db) (object_text own1) w1)
               (with_data (MObj p own1) db) p own1 (counted m 1)); try done.
      simpl. by apply writable_again.
Qed.

(** X15: the counter of the README.  On a mirror that is an ordinary
    object, calling [updateLocal(key, (x) => (x || 0) + 1)] [n] times on
    a key that holds a safe integer [m] (of magnitude at most [2^53])
    leaves [m + n] as long as that is at most [2^53], and [2^53] from
    then on: a double cannot count further.  On a key that is neither
    stored nor inherited the count starts from [1].  So it is with
    [update], as long as the file can be written. *)
Theorem update_counts
    (w : World) (this : ref) (db : Database) (p : proto)
    (own : list (string * value)) (key : string) (n : nat) :
  heap w !! this = Some db ->
  data db = MObj p own ->
  let after_local :=
    snd (repeat_call n (updateLocal this key (pure_callback increment)) w) in
  let after_now :=
    snd (repeat_call n (update this key (pure_callback increment)) w) in
  (forall m, own_lookup key own = Some (VNum m) -> (Z.abs m <= 2 ^ 53)%Z ->
     fst (get this key after_local)
     = Return (JData (VNum (Z.min (m + Z.of_nat n) (2 ^ 53))))
     /\ (writable (fs w) (jsonFilePath db) ->
         fst (get this key after_now)
         = Return (JData (VNum (Z.min (m + Z.of_nat n) (2 ^ 53))))))
  /\ (own_lookup key own = None -> proto_get p key = undefined ->
      (0 < n)%nat ->
      fst (get this key after_local)
      = Return (JData (VNum (Z.min (Z.of_nat n) (2 ^ 53))))
      /\ (writable (fs w) (jsonFilePath db) ->
          fst (get this key after_now)
          = Return (JData (VNum (Z.min (Z.of_nat n) (2 ^ 53)))))).
Proof.
  intros Hdb Hdata. cbv zeta. split.
  - intros m Hown Hm. by apply (increment_repeated this key n w db p own m).
  - intros Hown Hproto Hn. destruct n as [| n]; [lia |].
    destruct (updateLocal_run this key increment w db undefined (VNum 1))
      as [Hlocal Hnow]; [done | by rewrite Hdata; simpl; rewrite Hown, Hproto | done |].
    rewrite (setLocal_run _ _ _ _ _ Hdb), Hdata in Hlocal.
    rewrite (set_run _ _ _ _ _ Hdb), Hdata in Hnow.
    simpl in Hlocal, Hnow.
    rewrite (object_set_unknown p own key (VNum 1) Hown Hproto) in Hlocal, Hnow.
    set (own1 := own_define key (VNum 1) own) in *.
    set (w1 := assigned this (MObj p own1) db w) in *.
    assert (heap w1 !! this = Some (with_data (MObj p own1) db)) as Hw1
      by apply assigned_lookup.
    assert (own_lookup key own1 = Some (VNum 1)) as Hown1.
    { unfold own1. by rewrite own_lookup_define, String.eqb_refl. }
    replace (Z.min (Z.of_nat (S n)) (2 ^ 53)) with (counted 1 n)
      by (unfold counted; lia).
    split.
    + change (repeat_call (S n) ?c) with (_ ← c; repeat_call n c).
      rewrite run_bind, Hlocal.
      by apply (increment_repeated this key n w1
                  (with_data (MObj p own1) db) p own1 1%Z).
    + intros Hw.
      change (repeat_call (S n) ?c) with (_ ← c; repeat_call n c).
      rewrite run_bind, Hnow.
      rewrite (save_object_writable this w1 (with_data (MObj p own1) db) p own1)
        by done.
      apply (increment_repeated this key n
               (written (jsonFilePath db) (object_text own1) w1)
               (with_data (MObj p own1) db) p own1 1%Z); try done.
      simpl. by apply writable_again.
Qed.

(** Twenty local updates of [count] on a store that was just created,
    as in the README; and three updates of a count that has reached
    [2^53 - 1]. *)
Lemma update_counts_witness :
  (let w := run_calls [CallNew (VStr "db.json") None]
              (fresh_process 1700000000000 false) in
   fst (get 0 "count"
          (snd (repeat_call 20 (updateLocal 0 "count" (pure_callback increment)) w)))
   = Return (JData (VNum 20)))
  /\ (let w := run_calls [CallNew (VStr "db.json") None;
                          CallSetLocal 0 "count" (VNum 9007199254740991)]
                 (fresh_process 1700000000000 false) in
      fst (get 0 "count"
             (snd (repeat_call 3 (updateLocal 0 "count" (pure_callback increment)) w)))
      = Return (JData (VNum 9007199254740992))).
Proof.
  split; intros w.
  - destruct (update_counts w 0 (new_store "db.json" no_options empty_object)
                ProtoObject [] "count" 20) as [_ Habsent].
    + vm_compute. reflexivity.
    + reflexivity.
    + destruct Habsent as [Hlocal _]; [reflexivity | reflexivity | lia |].
      exact Hlocal.
  - destruct (update_counts w 0
                (new_store "db.json" no_options
                   (MObj ProtoObject [("count", VNum 9007199254740991)]))
                ProtoObject [("count", VNum 9007199254740991)] "count" 3)
      as [Hheld _].
    + vm_compute. reflexivity.
    + reflexivity.
    + destruct (Hheld 9007199254740991%Z) as [Hlocal _];
        [reflexivity | vm_compute; discriminate |].
      exact Hlocal.
Defined.

(** ** Enumeration *)

Lemma insert_by_index_permutation {A : Type} (i : N) (e : string * A)
    (l : list (N * (string * A))) :
  Permutation (insert_by_index i e l) ((i, e) :: l).
Proof.
  induction l as [| [j e'] l IH]; simpl; [reflexivity |].
  destruct (i <? j)%N; [reflexivity |].
  rewrite IH. apply perm_swap.
Qed.

(** The enumeration order is a reordering: no entry is lost, none is
    listed twice. *)
Lemma enumeration_order_permutation {A : Type} (props : list (string * A)) :
  Permutation (enumeration_order props) props.
Proof.
  unfold enumeration_order.
  induction props as [| [k x] props IH]; simpl; [reflexivity |].
  destruct (array_index k) as [i |].
  - rewrite insert_by_index_permutation. simpl. by rewrite IH.
  - rewrite <- Permutation_middle. by rewrite IH.
Qed.

Lemma for_each_map {A B : Type} (f : A -> M B) (g : A -> B) (l : list A)
    (w : World) :
  (forall x, f x w = (Return (g x), w)) ->
  for_each f l w = (Return (map g l), w).
Proof.
  intros Hf. induction l as [| x l IH]; simpl; [reflexivity |].
  by rewrite run_bind, Hf, run_bind, IH.
Qed.

(** With distinct keys, an entry of the list is what a lookup of its key
    finds. *)
Lemma own_lookup_entry {A : Type} (k : string) (x : A) (props : list (string * A)) :
  NoDup (map fst props) -> In (k, x) props -> own_lookup k props = Some x.
Proof.
  induction props as [| [k0 x0] props IH]; simpl; [done |].
  intros Hnd Hin. inversion Hnd as [| ? ? Hnotin Hnd']. subst.
  destruct Hin as [[= -> ->] | Hin].
  - by rewrite String.eqb_refl.
  - destruct (String.eqb k k0) eqn:E; [| by apply IH].
    apply String.eqb_eq in E. subst k0. exfalso. apply Hnotin.
    apply list_elem_of_In. by apply (in_map fst _ (k, x)).
Qed.

(** X16: on a mirror that is an ordinary object, the three modes of
    [array] list the same own entries in the same order.  There is one
    list of entries, a reordering of the own entries of the mirror, such
    that the [keys] mode returns its keys and the [values] mode returns
    its values, position by position; the default mode returns one pair
    per key, in that order, whose value is what [get] returns for the
    key.  The keys are exactly the keys for which [has] is true, none
    inherited.  With distinct keys (as the keys of an object are) the
    pairs are the entries themselves. *)
Theorem array_lists_own_entries
    (w : World) (this : ref) (db : Database) (p : proto)
    (own : list (string * value)) :
  heap w !! this = Some db ->
  data db = MObj p own ->
  exists entries pairs,
    Permutation entries own
    /\ fst (array this (VStr "keys") w) = Return (Keys (map fst entries))
    /\ fst (array this (VStr "values") w) = Return (Values (map snd entries))
    /\ fst (array this VUndefined w) = Return (Pairs pairs)
    /\ map fst pairs = map fst entries
    /\ (forall k j, In (k, j) pairs -> fst (get this k w) = Return j)
    /\ (forall k, In k (map fst entries) <-> fst (has this k w) = Return true)
    /\ (NoDup (map fst own) ->
        pairs = map (fun kx => (fst kx, JData (snd kx))) entries).
Proof.
  intros Hdb Hdata.
  set (read := fun k => match own_lookup k own with
                        | Some v => JData v
                        | None => proto_get p k
                        end).
  exists (enumeration_order own),
         (map (fun k => (k, read k)) (map fst (enumeration_order own))).
  assert (forall keys,
            for_each (fun key => v ← lift (mirror_get (MObj p own) key);
                                 mret (key, v)) keys w
            = (Return (map (fun k => (k, read k)) keys), w)) as Hpairs.
  { intros keys. apply for_each_map. intros k. rewrite run_bind. unfold lift, read.
    simpl. by destruct (own_lookup k own). }
  split; [apply enumeration_order_permutation |].
  split; [| split; [| split]].
  { unfold array. rewrite run_bind. unfold deref. by rewrite Hdb, Hdata. }
  { unfold array. rewrite run_bind. unfold deref. by rewrite Hdb, Hdata. }
  { unfold array. rewrite run_bind. unfold deref. rewrite Hdb, Hdata.
    cbv iota beta. rewrite run_bind. unfold lift at 1. cbn [mirror_entries].
    by rewrite run_bind, Hpairs. }
  split; [| split; [| split]].
  - rewrite map_map. simpl. apply map_id.
  - intros k j Hin. apply in_map_iff in Hin as (k' & [= <- <-] & _).
    rewrite (get_run _ _ _ _ Hdb), Hdata. unfold read. simpl.
    by destruct (own_lookup k' own).
  - intros k. rewrite (has_run _ _ _ _ Hdb), Hdata. simpl.
    pose proof (Permutation_map fst (enumeration_order_permutation own)) as Hperm.
    split.
    + intros Hin. apply (Permutation_in _ Hperm), has_own_iff in Hin. congruence.
    + intros [= Hhas]. apply has_own_iff in Hhas.
      by apply (Permutation_in _ (Permutation_sym Hperm)).
  - intros Hnd. rewrite map_map. apply map_ext_in. intros [k x] Hin. simpl.
    unfold read. rewrite (own_lookup_entry k x own Hnd); [reflexivity |].
    by apply (Permutation_in _ (enumeration_order_permutation own)).
Qed.

(** A store with the keys [b], [10] and [2], created in that order: the
    index keys come first, in ascending order, in each mode. *)
Lemma array_lists_own_entries_witness :
  let w := run_calls [CallNew (VStr "db.json") None;
                      CallSetLocal 0 "b" (VStr "x");
                      CallSetLocal 0 "10" (VNum 1);
                      CallSetLocal 0 "2" VNull]
             (fresh_process 1700000000000 false) in
  fst (array 0 (VStr "keys") w) = Return (Keys ["2"; "10"; "b"])
  /\ fst (array 0 (VStr "values") w) = Return (Values [VNull; VNum 1; VStr "x"])
  /\ fst (array 0 VUndefined w)
     = Return (Pairs [("2", JData VNull); ("10", JData (VNum 1));
                      ("b", JData (VStr "x"))]).
Proof.
  intros w.
  destruct (array_lists_own_entries w 0
              (new_store "db.json" no_options
                 (MObj ProtoObject [("b", VStr "x"); ("10", VNum 1); ("2", VNull)]))
              ProtoObject [("b", VStr "x"); ("10", VNum 1); ("2", VNull)])
    as (entries & pairs & _ & Hk & Hv & Hp & _ & _ & _ & Hsame).
  - vm_compute. reflexivity.
  - reflexivity.
  - assert (entries = [("2", VNull); ("10", VNum 1); ("b", VStr "x")]) as ->.
    { assert (map fst entries = ["2"; "10"; "b"]) as Hkeys.
      { assert (fst (array 0 (VStr "keys") w) = Return (Keys ["2"; "10"; "b"])) as H
          by (vm_compute; reflexivity).
        rewrite Hk in H. by injection H. }
      assert (map snd entries = [VNull; VNum 1; VStr "x"]) as Hvals.
      { assert (fst (array 0 (VStr "values") w)
                = Return (Values [VNull; VNum 1; VStr "x"])) as H
          by (vm_compute; reflexivity).
        rewrite Hv in H. by injection H. }
      destruct entries as [| [k1 x1] [| [k2 x2] [| [k3 x3] [| e entries]]]];
        try discriminate.
      simpl in Hkeys, Hvals. congruence. }
    rewrite Hk, Hv, Hp, Hsame; [by repeat split |].
    apply (bool_decide_unpack _). vm_compute. exact I.
Defined.

(** ** Immediate and deferred variants *)

Lemma bind_assoc {A B C : Type} (c : M A) (k : A -> M B) (h : B -> M C)
    (w : World) :
  ((c ≫= k) ≫= h) w = (c ≫= fun x => k x ≫= h) w.
Proof.
  rewrite !run_bind. destruct (c w) as [[x | e | what] w1]; reflexivity.
Qed.

Lemma bind_ext {A B : Type} (c : M A) (k k' : A -> M B) (w : World) :
  (forall x w1, k x w1 = k' x w1) -> (c ≫= k) w = (c ≫= k') w.
Proof.
  intros Hk. rewrite !run_bind. destruct (c w) as [[x | e | what] w1]; auto.
Qed.

(** X17: each immediate method is its deferred variant followed by
    [saveDataToFile], in every world and for every outcome: when the
    deferred part throws, nothing is saved; when it returns, the file is
    written once, from the mirror it left.  For [update] this holds for
    every callback, with or without effects of its own. *)
Theorem immediate_is_deferred_then_save
    (this : ref) (key : string) (v : value) (callback : jsval -> M value)
    (w : World) :
  set this key v w = (_ ← setLocal this key v; saveDataToFile this) w
  /\ update this key callback w
     = (_ ← updateLocal this key callback; saveDataToFile this) w
  /\ delete this key w = (_ ← deleteLocal this key; saveDataToFile this) w
  /\ deleteAll this w = (_ ← deleteAllLocal this; saveDataToFile this) w.
Proof.
  assert (forall k x w1,
            set this k x w1 = (_ ← setLocal this k x; saveDataToFile this) w1)
    as Hset.
  { intros k x w1. unfold set, setLocal. rewrite bind_assoc.
    apply bind_ext. intros db w2. rewrite bind_assoc. reflexivity. }
  split; [apply Hset |]. split; [| split].
  - unfold update, updateLocal. rewrite bind_assoc.
    apply bind_ext. intros current w1. rewrite bind_assoc.
    apply bind_ext. intros newValue w2. apply Hset.
  - unfold delete, deleteLocal. rewrite bind_assoc.
    apply bind_ext. intros db w1. rewrite bind_assoc. reflexivity.
  - reflexivity.
Qed.

(** ** Saving and loading: the file read back

    [JSON.parse] inverts [JSON.stringify] on the values the reader
    covers, up to what the text does not record. *)

(** *** Texts *)
Lemma append_cons (c : ascii) (s t : string) : String c s +:+ t = String c (s +:+ t).
Proof. reflexivity. Qed.

Lemma append_empty (t : string) : "" +:+ t = t.
Proof. reflexivity. Qed.

Lemma append_assoc (a b c : string) : (a +:+ b) +:+ c = a +:+ (b +:+ c).
Proof.
  induction a as [| x a IH]; [reflexivity |].
  rewrite !append_cons. by f_equal.
Qed.

Lemma append_nil (a : string) : a +:+ "" = a.
Proof.
  induction a as [| x a IH]; [reflexivity |]. rewrite append_cons. by f_equal.
Qed.

Lemma length_append (a b : string) :
  String.length (a +:+ b) = String.length a + String.length b.
Proof.
  induction a as [| x a IH]; [reflexivity |]. rewrite append_cons. simpl.
  by f_equal.
Qed.

Ltac str := rewrite ?append_assoc, ?append_cons, ?append_empty.

Lemma parse_string_char (c : ascii) (t : string) :
  plain_char c = true ->
  parse_string_body (quote_char c +:+ t) = pmap (String c) (parse_string_body t).
Proof.
  intros Hc.
  destruct c as [[] [] [] [] [] [] [] []]; vm_compute in Hc; try discriminate;
    reflexivity.
Qed.

Lemma parse_quote_body (s rest : string) :
  plain s = true ->
  parse_string_body (quote_body s +:+ String (ascii_of_nat 34) rest) = POk s rest.
Proof.
  induction s as [| c s IH]; simpl; intros Hs; [reflexivity |].
  apply andb_true_iff in Hs as [Hc Hs].
  rewrite append_assoc, parse_string_char by done.
  by rewrite IH.
Qed.

Lemma quote_append (k X : string) :
  quote k +:+ X
  = String (ascii_of_nat 34) (quote_body k +:+ String (ascii_of_nat 34) X).
Proof. unfold quote, dquote. by str. Qed.

(** *** White space *)
Lemma skip_ws_blank (s t : string) :
  blank s = true -> skip_ws (s +:+ t) = skip_ws t.
Proof.
  induction s as [| c s IH]; [reflexivity |]. rewrite append_cons. simpl.
  intros [Hc Hs]%andb_true_iff. rewrite Hc. auto.
Qed.

Lemma blank_append (a b : string) :
  blank a = true -> blank b = true -> blank (a +:+ b) = true.
Proof.
  induction a as [| c a IH]; [done |]. rewrite append_cons. simpl.
  intros [Hc Ha]%andb_true_iff Hb. rewrite Hc. simpl. auto.
Qed.

Lemma blank_spaces (n : nat) : blank (spaces n) = true.
Proof. induction n as [| n IH]; [reflexivity | exact IH]. Qed.

Lemma ws_stops (c : ascii) (s : string) : is_ws c = true -> stops (String c s) = true.
Proof.
  intros Hc.
  destruct c as [[] [] [] [] [] [] [] []]; vm_compute in Hc; try discriminate;
    reflexivity.
Qed.

Lemma stops_blank (post : string) (c : ascii) (X : string) :
  blank post = true -> stops (String c X) = true ->
  stops (post +:+ String c X) = true.
Proof.
  destruct post as [| a post]; [done |].
  intros [Ha _]%andb_true_iff _. by apply ws_stops.
Qed.

Lemma parse_value_blank (fuel : nat) (s t : string) :
  blank s = true -> parse_value fuel (s +:+ t) = parse_value fuel t.
Proof.
  intros Hs. destruct fuel as [| fuel]; [reflexivity |].
  simpl. by rewrite skip_ws_blank.
Qed.

(** *** Numbers: the decimal numeral of an integer is read back *)
Lemma pretty_N_go_append (x : N) (s t : string) :
  pretty_N_go x s +:+ t = pretty_N_go x (s +:+ t).
Proof.
  revert s. induction (N.lt_wf_0 x) as [x _ IH]; intros s.
  destruct (decide (x = 0)%N) as [-> | Hx]; [by rewrite !pretty_N_go_0 |].
  rewrite (pretty_N_go_step x s), (pretty_N_go_step x (s +:+ t)) by lia.
  rewrite IH by (apply N.div_lt; lia). by rewrite append_cons.
Qed.

Lemma pretty_N_char_digit (d : N) :
  (d < 10)%N ->
  is_digit (pretty_N_char d) = true
  /\ Z.of_nat (nat_of_ascii (pretty_N_char d) - 48) = Z.of_N d.
Proof.
  intros Hd.
  assert (d = 0 \/ d = 1 \/ d = 2 \/ d = 3 \/ d = 4 \/ d = 5 \/ d = 6
          \/ d = 7 \/ d = 8 \/ d = 9)%N as H by lia.
  by repeat (destruct H as [-> | H]; [done |]); subst d.
Qed.

Lemma parse_digits_pretty (x : N) (s : string) (acc : Z) :
  exists k, parse_digits acc (pretty_N_go x s)
            = parse_digits (acc * k + Z.of_N x) s.
Proof.
  revert s acc. induction (N.lt_wf_0 x) as [x _ IH]; intros s acc.
  destruct (decide (x = 0)%N) as [-> | Hx].
  { exists 1%Z. rewrite pretty_N_go_0. f_equal. lia. }
  rewrite pretty_N_go_step by lia.
  destruct (IH (x `div` 10)%N ltac:(apply N.div_lt; lia)
              (String (pretty_N_char (x `mod` 10)) s) acc) as [k ->].
  destruct (pretty_N_char_digit (x `mod` 10)) as [Hd Hv];
    [apply N.mod_lt; lia |].
  exists (10 * k)%Z. simpl. rewrite Hd, Hv. f_equal.
  pose proof (N.div_mod x 10 ltac:(lia)). lia.
Qed.

Lemma pretty_N_go_head (x : N) (s : string) :
  (0 < x)%N ->
  exists c t, pretty_N_go x s = String c t
              /\ is_digit c = true /\ Ascii.eqb c "0" = false.
Proof.
  revert s. induction (N.lt_wf_0 x) as [x _ IH]; intros s Hx.
  rewrite pretty_N_go_step by done.
  destruct (decide (x < 10)%N) as [Hs | Hl].
  - rewrite N.div_small, pretty_N_go_0, N.mod_small by done.
    eexists _, _. split; [reflexivity |].
    assert (x = 1 \/ x = 2 \/ x = 3 \/ x = 4 \/ x = 5 \/ x = 6
            \/ x = 7 \/ x = 8 \/ x = 9)%N as H by lia.
    by repeat (destruct H as [-> | H]; [done |]); subst x.
  - apply IH; [apply N.div_lt; lia |].
    apply N.div_str_pos. lia.
Qed.

Lemma parse_digits_stops (n : Z) (rest : string) :
  stops rest = true -> parse_digits n rest = (n, rest).
Proof.
  destruct rest as [| c rest]; [done |]. simpl.
  intros [Hc _]%andb_true_iff. by destruct (is_digit c).
Qed.

Lemma stops_no_fraction (rest : string) :
  stops rest = true -> starts_fraction_or_exponent rest = false.
Proof.
  destruct rest as [| c rest]; [done |]. unfold stops.
  intros [_ Hc]%andb_true_iff. by apply negb_true_iff in Hc.
Qed.

Lemma parse_unsigned_pretty (x : N) (rest : string) :
  (0 < x)%N -> (Z.of_N x <= 2 ^ 53)%Z -> stops rest = true ->
  parse_unsigned (pretty_N_go x "" +:+ rest) = POk (Z.of_N x) rest.
Proof.
  intros Hx Hle Hrest. rewrite pretty_N_go_append, append_empty.
  destruct (pretty_N_go_head x rest Hx) as (c & t & Heq & Hd & Hz).
  unfold parse_unsigned. rewrite Heq, Hz, Hd, <- Heq.
  destruct (parse_digits_pretty x rest 0) as [k ->].
  rewrite Z.mul_0_l, Z.add_0_l, parse_digits_stops by done.
  rewrite stops_no_fraction by done.
  by apply Z.leb_le in Hle as ->.
Qed.

Lemma parse_value_digit (c : ascii) (t : string) (fuel : nat) :
  is_digit c = true ->
  parse_value (S fuel) (String c t) = pmap VNum (parse_unsigned (String c t)).
Proof.
  intros Hc.
  destruct c as [[] [] [] [] [] [] [] []]; vm_compute in Hc; try discriminate;
    reflexivity.
Qed.

Lemma pretty_Z_nonempty (n : Z) : 1 <= String.length (pretty n).
Proof.
  destruct n as [| p | p].
  - change (pretty 0%Z) with "0". simpl. lia.
  - change (pretty (Z.pos p)) with (pretty_N_go (N.pos p) "").
    destruct (pretty_N_go_head (N.pos p) "" ltac:(lia)) as (c & t & -> & _).
    simpl. lia.
  - change (pretty (Z.neg p)) with ("-" +:+ pretty_N_go (N.pos p) "").
    rewrite append_cons. simpl. lia.
Qed.

Lemma reads_number (n : Z) :
  (Z.abs n <= 2 ^ 53)%Z -> reads (pretty n) (VNum n).
Proof.
  intros Hn rest fuel Hrest Hfuel.
  pose proof (pretty_Z_nonempty n).
  destruct fuel as [| fuel]; [lia |].
  destruct n as [| p | p].
  - change (pretty 0%Z) with "0". rewrite append_cons, append_empty.
    rewrite parse_value_digit by done. unfold parse_unsigned.
    change (Ascii.eqb "0" "0") with true. cbv iota.
    by rewrite stops_no_fraction.
  - change (pretty (Z.pos p)) with (pretty_N_go (N.pos p) "").
    pose proof (parse_unsigned_pretty (N.pos p) rest ltac:(lia) ltac:(lia) Hrest) as Hp.
    rewrite pretty_N_go_append, append_empty in Hp |- *.
    destruct (pretty_N_go_head (N.pos p) rest ltac:(lia)) as (c & t & Heq & Hd & _).
    rewrite Heq in Hp |- *. rewrite parse_value_digit by done. by rewrite Hp.
  - change (pretty (Z.neg p)) with ("-" +:+ pretty_N_go (N.pos p) "").
    rewrite append_assoc, append_cons, append_empty.
    change (parse_value (S fuel) (String "-" (pretty_N_go (N.pos p) "" +:+ rest)))
      with (pmap VNum (pmap Z.opp (parse_unsigned (pretty_N_go (N.pos p) "" +:+ rest)))).
    by rewrite parse_unsigned_pretty by (done || lia).
Qed.

(** *** Literals and strings *)
Lemma reads_null : reads "null" VNull.
Proof.
  intros rest fuel _ Hfuel. destruct fuel as [| fuel]; [simpl in Hfuel; lia |].
  reflexivity.
Qed.

Lemma reads_bool (b : bool) :
  reads (if b then "true" else "false") (VBool b).
Proof.
  intros rest fuel _ Hfuel.
  destruct fuel as [| fuel]; [destruct b; simpl in Hfuel; lia |].
  by destruct b.
Qed.

Lemma reads_string (s : string) : plain s = true -> reads (quote s) (VStr s).
Proof.
  intros Hs rest fuel _ Hfuel. rewrite quote_append.
  destruct fuel as [| fuel].
  { unfold quote, dquote in Hfuel. rewrite append_cons in Hfuel.
    simpl in Hfuel. lia. }
  change (parse_value (S fuel) (String (ascii_of_nat 34) ?X))
    with (pmap VStr (parse_string_body X)).
  by rewrite parse_quote_body.
Qed.

(** *** Arrays: the loop over the elements *)
Lemma join_cons (sep p : string) (l : list string) :
  l <> [] -> join sep (p :: l) = p +:+ sep +:+ join sep l.
Proof. by destruct l. Qed.

Lemma reads_head (fuel : nat) (s rest : string) (v : value) :
  parse_value (S fuel) s = POk v rest ->
  exists d s', skip_ws s = String d s' /\ Ascii.eqb d "]" = false.
Proof.
  simpl. destruct (skip_ws s) as [| d s']; [discriminate |].
  intros H. exists d, s'. split; [reflexivity |].
  destruct (Ascii.eqb d "]") eqn:E; [| reflexivity].
  apply Ascii.eqb_eq in E. subst d. simpl in H. discriminate.
Qed.

Lemma parse_elements_step (fuel : nat) (pre t R : string) (v : value)
    (acc : list value) :
  blank pre = true -> parse_value fuel (t +:+ R) = POk v R ->
  parse_elements (S fuel) (pre +:+ t +:+ R) acc =
  match skip_ws R with
  | String c rest' =>
      if Ascii.eqb c "," then parse_elements fuel rest' (acc ++ [v])
      else if Ascii.eqb c "]" then POk (VArr (acc ++ [v])) rest'
      else PSyntaxError
  | EmptyString => PSyntaxError
  end.
Proof.
  intros Hpre Hv. simpl. rewrite parse_value_blank, Hv by done. reflexivity.
Qed.

Lemma parse_elements_loop (pre post : string) (L : list (string * value)) :
  blank pre = true -> blank post = true ->
  Forall (fun tv => reads (fst tv) (snd tv)) L -> L <> [] ->
  forall acc fuel rest,
    String.length (join (String "," pre) (map fst L)) < fuel ->
    parse_elements fuel
      (pre +:+ join (String "," pre) (map fst L) +:+ post +:+ String "]" rest) acc
    = POk (VArr (acc ++ map snd L)) rest.
Proof.
  intros Hpre Hpost HL.
  induction HL as [| [t v] L Ht HL IH]; [done |].
  intros _ acc fuel rest Hfuel.
  destruct fuel as [| fuel]; [lia |].
  destruct L as [| tv2 L].
  - change (join (String "," pre) (map fst [(t, v)])) with t in Hfuel |- *.
    rewrite (parse_elements_step fuel pre t _ v); [| done |].
    + rewrite skip_ws_blank by done. reflexivity.
    + apply Ht; [by apply stops_blank | simpl; lia].
  - change (map fst ((t, v) :: tv2 :: L)) with (t :: fst tv2 :: map fst L)
      in Hfuel |- *.
    change (fst tv2 :: map fst L) with (map fst (tv2 :: L)) in Hfuel |- *.
    rewrite join_cons in Hfuel |- * by done.
    rewrite !length_append in Hfuel.
    change (String.length (String "," pre)) with (S (String.length pre)) in Hfuel.
    rewrite (append_assoc t), (append_assoc (String "," pre)), append_cons.
    rewrite (parse_elements_step fuel pre t _ v); [| done |].
    + change (skip_ws (String "," ?X)) with (String "," X). cbv iota.
      change (Ascii.eqb "," ",") with true. cbv iota.
      change (map snd ((t, v) :: tv2 :: L)) with ([v] ++ map snd (tv2 :: L)).
      rewrite app_assoc. apply IH; [done | lia].
    + apply Ht; [reflexivity | simpl; lia].
Qed.

(** *** Objects: the loop over the members *)
Lemma parse_members_step (fuel : nat) (k gap t R : string) (v : value)
    (acc : list (string * value)) :
  plain k = true -> parse_value fuel (t +:+ R) = POk v R ->
  parse_members (S fuel) (quote k +:+ colon gap +:+ t +:+ R) acc =
  match skip_ws R with
  | String d rest3 =>
      if Ascii.eqb d "," then parse_members fuel (skip_ws rest3) (own_define k v acc)
      else if Ascii.eqb d "}" then POk (VObj (own_define k v acc)) rest3
      else PSyntaxError
  | EmptyString => PSyntaxError
  end.
Proof.
  intros Hk Hv. rewrite quote_append. unfold colon.
  rewrite append_assoc, append_cons, append_empty.
  change (parse_members (S fuel) (String (ascii_of_nat 34) ?X) acc)
    with (match parse_string_body X with
          | POk k rest =>
              match skip_ws rest with
              | String c rest' =>
                  if Ascii.eqb c ":" then
                    match parse_value fuel rest' with
                    | POk v rest'' =>
                        match skip_ws rest'' with
                        | String d rest3 =>
                            if Ascii.eqb d ","
                            then parse_members fuel (skip_ws rest3)
                                   (own_define k v acc)
                            else if Ascii.eqb d "}"
                            then POk (VObj (own_define k v acc)) rest3
                            else PSyntaxError
                        | EmptyString => PSyntaxError
                        end
                    | PSyntaxError => PSyntaxError
                    | PBeyond => PBeyond
                    end
                  else PSyntaxError
              | EmptyString => PSyntaxError
              end
          | PSyntaxError => PSyntaxError
          | PBeyond => PBeyond
          end).
  rewrite parse_quote_body by done.
  change (skip_ws (String ":" ?X)) with (String ":" X). cbv iota.
  change (Ascii.eqb ":" ":") with true. cbv iota.
  rewrite parse_value_blank, Hv; [reflexivity |].
  by destruct (String.eqb gap "").
Qed.

Lemma member_text_head (gap : string) (e : string * string * value) (X : string) :
  exists Y, member_text gap e +:+ X = String (ascii_of_nat 34) Y.
Proof. unfold member_text. rewrite append_assoc, quote_append. eauto. Qed.

Lemma members_head (sep gap : string) (e : string * string * value)
    (L : list (string * string * value)) (X : string) :
  exists Y, join sep (map (member_text gap) (e :: L)) +:+ X
            = String (ascii_of_nat 34) Y.
Proof.
  destruct L as [| e' L].
  - apply member_text_head.
  - change (map (member_text gap) (e :: e' :: L))
      with (member_text gap e :: map (member_text gap) (e' :: L)).
    rewrite join_cons by done. rewrite append_assoc. apply member_text_head.
Qed.

Lemma parse_members_loop (pre post gap : string)
    (L : list (string * string * value)) :
  blank pre = true -> blank post = true ->
  Forall (fun e => plain (fst (fst e)) = true /\ reads (snd (fst e)) (snd e)) L ->
  L <> [] ->
  forall acc fuel rest,
    String.length (join (String "," pre) (map (member_text gap) L)) < fuel ->
    parse_members fuel
      (join (String "," pre) (map (member_text gap) L)
       +:+ post +:+ String "}" rest) acc
    = POk (VObj (fold_left (fun a kv => own_define (fst kv) (snd kv) a)
                   (map member_entry L) acc)) rest.
Proof.
  intros Hpre Hpost HL.
  induction HL as [| [[k t] v] L [Hk Ht] HL IH]; [done |].
  simpl in Hk, Ht. intros _ acc fuel rest Hfuel.
  destruct fuel as [| fuel]; [lia |].
  destruct L as [| e2 L].
  - change (join (String "," pre) (map (member_text gap) [(k, t, v)]))
      with (quote k +:+ colon gap +:+ t) in Hfuel |- *.
    rewrite !length_append in Hfuel.
    rewrite !append_assoc.
    rewrite (parse_members_step fuel k gap t _ v); [| done |].
    + rewrite skip_ws_blank by done. reflexivity.
    + apply Ht; [by apply stops_blank | lia].
  - change (map (member_text gap) ((k, t, v) :: e2 :: L))
      with ((quote k +:+ colon gap +:+ t) :: map (member_text gap) (e2 :: L))
      in Hfuel |- *.
    rewrite join_cons in Hfuel |- * by done.
    rewrite !length_append in Hfuel.
    change (String.length (String "," pre)) with (S (String.length pre)) in Hfuel.
    rewrite !append_assoc, (append_cons "," pre).
    rewrite (parse_members_step fuel k gap t _ v); [| done |].
    + change (skip_ws (String "," ?X)) with (String "," X). cbv iota.
      change (Ascii.eqb "," ",") with true. cbv iota.
      rewrite skip_ws_blank by done.
      destruct (members_head (String "," pre) gap e2 L (post +:+ String "}" rest))
        as [Y HY].
      rewrite HY at 1. change (skip_ws (String (ascii_of_nat 34) Y))
        with (String (ascii_of_nat 34) Y). rewrite <- HY.
      change (fold_left ?f (map member_entry ((k, t, v) :: e2 :: L)) acc)
        with (fold_left f (map member_entry (e2 :: L)) (own_define k v acc)).
      apply IH; [done | lia].
    + apply Ht; [reflexivity | lia].
Qed.

Lemma parse_value_array (fuel : nat) (pre X : string) :
  blank pre = true ->
  (exists d s', skip_ws X = String d s' /\ Ascii.eqb d "]" = false) ->
  parse_value (S fuel) (String "[" (pre +:+ X)) = parse_elements fuel (pre +:+ X) [].
Proof.
  intros Hpre (d & s' & HX & Hd).
  change (parse_value (S fuel) (String "[" ?Z))
    with (match skip_ws Z with
          | String d s'' =>
              if Ascii.eqb d "]" then POk (VArr []) s''
              else parse_elements fuel Z []
          | EmptyString => PSyntaxError
          end).
  by rewrite skip_ws_blank, HX, Hd.
Qed.

Lemma parse_value_object (fuel : nat) (pre Y : string) :
  blank pre = true ->
  parse_value (S fuel) (String "{" (pre +:+ String (ascii_of_nat 34) Y))
  = parse_members fuel (String (ascii_of_nat 34) Y) [].
Proof.
  intros Hpre.
  change (parse_value (S fuel) (String "{" ?Z))
    with (match skip_ws Z with
          | String d s'' =>
              if Ascii.eqb d "}" then POk (VObj []) s''
              else parse_members fuel (skip_ws Z) []
          | EmptyString => PSyntaxError
          end).
  by rewrite skip_ws_blank.
Qed.

(** *** The shape of a bracketed text *)
Lemma blank_newline : blank newline = true.
Proof. reflexivity. Qed.

Lemma wrap_shape (gap indent : string) (parts : list string) :
  parts <> [] -> blank gap = true -> blank indent = true ->
  exists pre post, blank pre = true /\ blank post = true /\
    forall (o c : ascii) (rest : string),
      wrap (String o "") (String c "") gap indent (indent +:+ gap) parts +:+ rest
      = String o (pre +:+ join (String "," pre) parts +:+ post +:+ String c rest).
Proof.
  intros Hparts Hgap Hindent. destruct parts as [| p ps]; [done |].
  unfold wrap. destruct (String.eqb gap "").
  - exists "", "". repeat split. intros o c rest.
    by rewrite !append_assoc, !append_cons, !append_empty.
  - exists (newline +:+ indent +:+ gap), (newline +:+ indent).
    split; [| split].
    + apply blank_append; [done |]. by apply blank_append.
    + by apply blank_append.
    + intros o c rest.
      change ("," +:+ newline +:+ indent +:+ gap)
        with (String "," (newline +:+ indent +:+ gap)).
      by rewrite !append_assoc, !append_cons, !append_empty.
Qed.

Lemma wrap_length (gap indent : string) (parts : list string)
    (pre post : string) (o c : ascii) :
  wrap (String o "") (String c "") gap indent (indent +:+ gap) parts +:+ ""
  = String o (pre +:+ join (String "," pre) parts +:+ post +:+ String c "") ->
  String.length (join (String "," pre) parts) + 2
  <= String.length (wrap (String o "") (String c "") gap indent (indent +:+ gap) parts).
Proof.
  rewrite append_nil. intros ->. simpl. rewrite !length_append. simpl. lia.
Qed.

(** *** The order of enumeration does not depend on the values *)
Section Relabel.
Context {A B : Type} (f : A -> B).

Lemma insert_by_index_relabel (i : N) (e : string * A)
    (l : list (N * (string * A))) :
  insert_by_index i (relabel f e) (map (fun ie => (fst ie, relabel f (snd ie))) l)
  = map (fun ie => (fst ie, relabel f (snd ie))) (insert_by_index i e l).
Proof.
  induction l as [| [j e'] l IH]; simpl; [reflexivity |].
  destruct (i <? j)%N; simpl; [reflexivity |]. by rewrite IH.
Qed.

Lemma index_entries_relabel (props : list (string * A)) :
  index_entries (map (relabel f) props)
  = map (fun ie => (fst ie, relabel f (snd ie))) (index_entries props).
Proof.
  induction props as [| [k x] props IH]; simpl; [reflexivity |].
  destruct (array_index k); [| exact IH].
  rewrite IH. apply (insert_by_index_relabel _ (k, x)).
Qed.

Lemma named_entries_relabel (props : list (string * A)) :
  named_entries (map (relabel f) props) = map (relabel f) (named_entries props).
Proof.
  induction props as [| [k x] props IH]; simpl; [reflexivity |].
  destruct (array_index k); simpl; by rewrite IH.
Qed.

Lemma enumeration_order_relabel (props : list (string * A)) :
  enumeration_order (map (relabel f) props) = map (relabel f) (enumeration_order props).
Proof.
  unfold enumeration_order.
  rewrite index_entries_relabel, named_entries_relabel, map_app, !map_map.
  reflexivity.
Qed.
End Relabel.

(** *** Induction on values, through arrays and objects *)
Lemma value_nested_ind (P : value -> Prop) :
  P VUndefined -> P VNull -> (forall b, P (VBool b)) -> (forall n, P (VNum n)) ->
  (forall s, P (VStr s)) ->
  (forall items, Forall P items -> P (VArr items)) ->
  (forall props, Forall (fun kx => P (snd kx)) props -> P (VObj props)) ->
  forall v, P v.
Proof.
  intros HU HN HB HZ HS HA HO. fix IH 1.
  intros [| | b | n | s | items | props];
    [exact HU | exact HN | apply HB | apply HZ | apply HS | |].
  - apply HA. revert items. fix IHl 1.
    intros [| x items]; constructor; [apply IH | apply IHl].
  - apply HO. revert props. fix IHl 1.
    intros [| [k x] props]; constructor; [apply IH | apply IHl].
Qed.

Lemma serialize_none (gap indent : string) (v : value) :
  serialize gap indent v = None -> v = VUndefined.
Proof. destruct v as [| | [] | | | |]; simpl; congruence. Qed.

Lemma reread_none (v : value) : reread v = None -> v = VUndefined.
Proof. destruct v; simpl; congruence. Qed.

(** *** Every text written is read back *)
Lemma elements_read (gap inner : string) (items : list value) :
  blank gap = true -> blank inner = true ->
  Forall read_back items -> forallb storable items = true ->
  Forall (fun tv => reads (fst tv) (snd tv))
    (map (fun x => (default "null" (serialize gap inner x),
                    default VNull (reread x))) items).
Proof.
  intros Hgap Hinner HP. induction HP as [| x items Hx HP IH]; simpl.
  - constructor.
  - intros [Hs Hss]%andb_true_iff. constructor; [by apply Hx | by apply IH].
Qed.

Lemma elements_head (pre post : string) (L : list (string * value))
    (rest : string) :
  blank post = true ->
  Forall (fun tv => reads (fst tv) (snd tv)) L -> L <> [] ->
  exists d s',
    skip_ws (join (String "," pre) (map fst L) +:+ post +:+ String "]" rest)
    = String d s' /\ Ascii.eqb d "]" = false.
Proof.
  intros Hpost HL HN. destruct HL as [| [t v] L Ht HL]; [done |].
  simpl in Ht. destruct L as [| tv2 L].
  - change (join (String "," pre) (map fst [(t, v)])) with t.
    eapply (reads_head (String.length t)), Ht; [by apply stops_blank | lia].
  - change (map fst ((t, v) :: tv2 :: L)) with (t :: map fst (tv2 :: L)).
    rewrite join_cons by done.
    rewrite (append_assoc t), (append_assoc (String "," pre)), append_cons.
    eapply (reads_head (String.length t)), Ht; [reflexivity | lia].
Qed.

Lemma members_read (gap inner : string) (E : list (string * value)) :
  blank gap = true -> blank inner = true ->
  Forall (fun kx => read_back (snd kx)) E ->
  forallb (fun kx => plain (fst kx) && storable (snd kx)) E = true ->
  exists L,
    omap (member gap) (map (relabel (serialize gap inner)) E)
    = map (member_text gap) L
    /\ omap keep (map (relabel reread) E) = map member_entry L
    /\ Forall (fun e => plain (fst (fst e)) = true
                        /\ reads (snd (fst e)) (snd e)) L.
Proof.
  intros Hgap Hinner HP. induction HP as [| [k x] E Hx HP IH].
  - intros _. by exists [].
  - change (forallb ?f ((k, x) :: E)) with (f (k, x) && forallb f E).
    intros [[Hk Hs]%andb_true_iff Hss]%andb_true_iff. simpl in Hk, Hs.
    destruct (IH Hss) as (L & Hm & Hr & HL).
    specialize (Hx gap inner Hgap Hinner Hs). simpl in Hx.
    change (map (relabel (serialize gap inner)) ((k, x) :: E))
      with ((k, serialize gap inner x) :: map (relabel (serialize gap inner)) E).
    change (map (relabel reread) ((k, x) :: E))
      with ((k, reread x) :: map (relabel reread) E).
    destruct (serialize gap inner x) as [t |] eqn:Et;
      destruct (reread x) as [v |] eqn:Ev.
    + exists ((k, t, v) :: L).
      change (map (member_text gap) ((k, t, v) :: L))
        with (member_text gap (k, t, v) :: map (member_text gap) L).
      change (map member_entry ((k, t, v) :: L))
        with ((k, v) :: map member_entry L).
      rewrite <- Hm, <- Hr.
      split; [reflexivity |]. split; [reflexivity |]. by constructor.
    + apply reread_none in Ev. subst x. discriminate.
    + apply serialize_none in Et. subst x. discriminate.
    + exists L. rewrite <- Hm, <- Hr. by repeat split.
Qed.

Lemma serialize_reads (v : value) : read_back v.
Proof.
  induction v as [| | b | n | s | items IH | props IH] using value_nested_ind;
    intros gap indent Hgap Hindent Hst.
  - apply reads_null.
  - apply reads_null.
  - destruct b; [apply (reads_bool true) | apply (reads_bool false)].
  - apply reads_number. simpl in Hst. lia.
  - by apply reads_string.
  - change (default "null" (serialize gap indent (VArr items)))
      with (wrap "[" "]" gap indent (indent +:+ gap)
              (map (fun x => default "null" (serialize gap (indent +:+ gap) x))
                 items)).
    change (default VNull (reread (VArr items)))
      with (VArr (map (fun x => default VNull (reread x)) items)).
    destruct (decide (items = [])) as [-> | Hne].
    { intros rest fuel _ Hfuel.
      destruct fuel as [| fuel]; [simpl in Hfuel; lia | reflexivity]. }
    pose proof (elements_read gap (indent +:+ gap) items Hgap
                  (blank_append _ _ Hindent Hgap) IH Hst) as HL.
    set (L := map (fun x => (default "null" (serialize gap (indent +:+ gap) x),
                             default VNull (reread x))) items) in HL.
    assert (L <> []) as HLne by (subst L; by destruct items).
    replace (map (fun x => default "null" (serialize gap (indent +:+ gap) x)) items)
      with (map fst L) by (subst L; by rewrite map_map).
    replace (map (fun x => default VNull (reread x)) items)
      with (map snd L) by (subst L; by rewrite map_map).
    destruct (wrap_shape gap indent (map fst L)) as (pre & post & Hpre & Hpost & Hw);
      [by destruct L | done | done |].
    intros rest fuel Hrest Hfuel.
    pose proof (wrap_length gap indent (map fst L) pre post "["%char "]"%char
                  (Hw "["%char "]"%char "")) as Hlen.
    rewrite (Hw "["%char "]"%char rest).
    destruct fuel as [| fuel]; [lia |].
    rewrite parse_value_array; [| done | by apply elements_head].
    apply (parse_elements_loop pre post L Hpre Hpost HL HLne []). lia.
  - change (default "null" (serialize gap indent (VObj props)))
      with (wrap "{" "}" gap indent (indent +:+ gap)
              (omap (member gap)
                 (enumeration_order
                    (map (relabel (serialize gap (indent +:+ gap))) props)))).
    change (default VNull (reread (VObj props)))
      with (VObj (collect (omap keep
                    (enumeration_order (map (relabel reread) props))))).
    rewrite !enumeration_order_relabel.
    assert (Forall (fun kx => read_back (snd kx)) (enumeration_order props)) as HE.
    { apply List.Forall_forall. intros kx Hin.
      apply (proj1 (List.Forall_forall _ _) IH).
      by apply (Permutation_in _ (enumeration_order_permutation props)). }
    assert (forallb (fun kx => plain (fst kx) && storable (snd kx))
              (enumeration_order props) = true) as HsE.
    { apply forallb_forall. intros kx Hin.
      apply (proj1 (forallb_forall _ _) Hst).
      by apply (Permutation_in _ (enumeration_order_permutation props)). }
    destruct (members_read gap (indent +:+ gap) (enumeration_order props) Hgap
                (blank_append _ _ Hindent Hgap) HE HsE) as (L & -> & -> & HL).
    destruct (decide (L = [])) as [-> | HLne].
    { intros rest fuel _ Hfuel.
      destruct fuel as [| fuel]; [simpl in Hfuel; lia | reflexivity]. }
    destruct (wrap_shape gap indent (map (member_text gap) L))
      as (pre & post & Hpre & Hpost & Hw); [by destruct L | done | done |].
    intros rest fuel Hrest Hfuel.
    pose proof (wrap_length gap indent (map (member_text gap) L) pre post "{"%char "}"%char
                  (Hw "{"%char "}"%char "")) as Hlen.
    rewrite (Hw "{"%char "}"%char rest).
    destruct fuel as [| fuel]; [lia |].
    destruct L as [| e L]; [done |].
    destruct (members_head (String "," pre) gap e L (post +:+ String "}" rest))
      as [Y HY].
    rewrite HY, parse_value_object, <- HY by done.
    apply (parse_members_loop pre post gap (e :: L) Hpre Hpost HL HLne []). lia.
Qed.

(** [JSON.parse(JSON.stringify(v, null, space))] *)
Lemma JSON_parse_stringify (v : value) (space : Z) (text : string) :
  storable v = true -> JSON_stringify v space = Some text ->
  exists v', reread v = Some v' /\ JSON_parse text = POk v' "".
Proof.
  intros Hst Htext. unfold JSON_stringify in Htext.
  pose proof (serialize_reads v (spaces (Z.to_nat (Z.min 10 space))) ""
                (blank_spaces _) eq_refl Hst ""
                (2 * String.length text + 2) eq_refl) as Hr.
  rewrite Htext in Hr. simpl default in Hr. rewrite append_nil in Hr.
  destruct (reread v) as [v' |] eqn:Ev.
  - exists v'. split; [reflexivity |]. unfold JSON_parse.
    rewrite Hr by lia. reflexivity.
  - apply reread_none in Ev. subst v. discriminate.
Qed.

(** *** The entries of the object read back *)
Lemma own_lookup_absent {A : Type} (k : string) (props : list (string * A)) :
  k ∉ map fst props -> own_lookup k props = None.
Proof.
  induction props as [| [k0 x0] props IH]; simpl; [done |].
  intros [Hne Hnin]%not_elem_of_cons.
  destruct (String.eqb k k0) eqn:E; [| by apply IH].
  by apply String.eqb_eq in E.
Qed.

Lemma own_lookup_permutation {A : Type} (k : string) (a b : list (string * A)) :
  Permutation a b -> NoDup (map fst a) -> own_lookup k a = own_lookup k b.
Proof.
  induction 1 as [| [k0 x0] l l' Hp IH | [k1 x1] [k2 x2] l | l l' l'' H1 IH1 H2 IH2];
    intros Hnd.
  - reflexivity.
  - simpl in *. apply NoDup_cons in Hnd as [_ Hnd].
    destruct (String.eqb k k0); [reflexivity | by apply IH].
  - simpl in *. apply NoDup_cons in Hnd as [Hnin _].
    destruct (String.eqb k k1) eqn:E1, (String.eqb k k2) eqn:E2; try reflexivity.
    apply String.eqb_eq in E1, E2. subst. exfalso. apply Hnin. by left.
  - rewrite IH1 by done. apply IH2.
    pose proof (Permutation_map fst H1) as Hm. by rewrite <- Hm.
Qed.

Lemma own_lookup_collect (k : string) (L acc : list (string * value)) :
  NoDup (map fst L) ->
  own_lookup k (fold_left (fun a kv => own_define (fst kv) (snd kv) a) L acc)
  = match own_lookup k L with
    | Some v => Some v
    | None => own_lookup k acc
    end.
Proof.
  revert acc. induction L as [| [k0 v0] L IH]; intros acc Hnd; [reflexivity |].
  simpl in *. apply NoDup_cons in Hnd as [Hnin Hnd].
  rewrite IH by done. rewrite own_lookup_define.
  destruct (String.eqb k k0) eqn:E; [| reflexivity].
  apply String.eqb_eq in E. subst k0.
  by rewrite own_lookup_absent.
Qed.

Lemma kept_keys {A B : Type} (f : A -> option B) (k : string)
    (E : list (string * A)) :
  k ∈ map fst (omap keep (map (relabel f) E)) -> k ∈ map fst E.
Proof.
  induction E as [| [k0 x0] E IH]; [done |].
  change (map (relabel f) ((k0, x0) :: E)) with ((k0, f x0) :: map (relabel f) E).
  change (map fst ((k0, x0) :: E)) with (k0 :: map fst E).
  change (omap keep ((k0, f x0) :: ?l))
    with (match keep (k0, f x0) with Some y => y :: omap keep l | None => omap keep l end).
  destruct (f x0) as [y |]; simpl.
  - intros [-> | Hin]%elem_of_cons; [by left | right; by apply IH].
  - intros Hin. right. by apply IH.
Qed.

Lemma kept_NoDup {A B : Type} (f : A -> option B) (E : list (string * A)) :
  NoDup (map fst E) -> NoDup (map fst (omap keep (map (relabel f) E))).
Proof.
  induction E as [| [k0 x0] E IH]; [done |].
  change (map (relabel f) ((k0, x0) :: E)) with ((k0, f x0) :: map (relabel f) E).
  change (map fst ((k0, x0) :: E)) with (k0 :: map fst E).
  change (omap keep ((k0, f x0) :: ?l))
    with (match keep (k0, f x0) with Some y => y :: omap keep l | None => omap keep l end).
  intros [Hnin Hnd]%NoDup_cons.
  destruct (f x0) as [y |]; simpl; [| by apply IH].
  apply NoDup_cons. split; [| by apply IH].
  intros Hin. by apply Hnin, (kept_keys f).
Qed.

Lemma own_lookup_kept {A B : Type} (f : A -> option B) (k : string)
    (E : list (string * A)) :
  NoDup (map fst E) ->
  own_lookup k (omap keep (map (relabel f) E)) = own_lookup k E ≫= f.
Proof.
  induction E as [| [k0 x0] E IH]; [done |].
  change (map (relabel f) ((k0, x0) :: E)) with ((k0, f x0) :: map (relabel f) E).
  change (map fst ((k0, x0) :: E)) with (k0 :: map fst E).
  change (omap keep ((k0, f x0) :: ?l))
    with (match keep (k0, f x0) with Some y => y :: omap keep l | None => omap keep l end).
  intros [Hnin Hnd]%NoDup_cons. simpl own_lookup at 2.
  destruct (f x0) as [y |] eqn:Ef; simpl.
  - destruct (String.eqb k k0); [simpl; congruence | by apply IH].
  - rewrite IH by done.
    destruct (String.eqb k k0) eqn:E0; [| reflexivity].
    apply String.eqb_eq in E0. subst k0. simpl. rewrite Ef.
    by rewrite own_lookup_absent.
Qed.

Lemma reread_object_lookup (own own' : list (string * value)) (k : string) :
  NoDup (map fst own) -> reread (VObj own) = Some (VObj own') ->
  own_lookup k own' = own_lookup k own ≫= reread.
Proof.
  intros Hnd Hr.
  change (reread (VObj own))
    with (Some (VObj (collect (omap keep
                 (enumeration_order (map (relabel reread) own)))))) in Hr.
  injection Hr as <-. rewrite enumeration_order_relabel.
  assert (NoDup (map fst (enumeration_order own))) as HndE.
  { pose proof (Permutation_map fst (enumeration_order_permutation own)) as Hm.
    by rewrite Hm. }
  unfold collect. rewrite own_lookup_collect by by apply kept_NoDup.
  rewrite own_lookup_kept by done.
  rewrite (own_lookup_permutation k _ _ (enumeration_order_permutation own) HndE).
  by destruct (own_lookup k own ≫= reread).
Qed.

(** *** A file written is the file read *)
Lemma read_after_write (f f' : FileSystem) (p data : string) :
  writeFileSync f p data = Return f' -> readFileSync f' p = Return data.
Proof.
  unfold writeFileSync, readFileSync, lookup_path.
  destruct (String.eqb p "") eqn:Ep.
  { unfold check_parent. by rewrite Ep. }
  destruct (bool_decide (canon p ∈ dirs f)) eqn:Ed; [discriminate |].
  destruct (files f !! canon p) as [c |] eqn:Ef.
  - destruct (ends_with_slash p) eqn:Es; [discriminate |].
    intros [= <-]. simpl. by rewrite Ed, lookup_insert_eq.
  - destruct (check_parent f p); [discriminate |].
    destruct (ends_with_slash p) eqn:Es; [discriminate |].
    intros [= <-]. simpl. by rewrite Ed, lookup_insert_eq.
Qed.

Lemma object_text_parses (own : list (string * value)) :
  storable (VObj own) = true ->
  exists own', reread (VObj own) = Some (VObj own')
               /\ JSON_parse (object_text own) = POk (VObj own') "".
Proof.
  intros Hst.
  destruct (JSON_parse_stringify (VObj own) 2 (object_text own) Hst
              (JSON_stringify_object own 2)) as (v' & Hre & Hparse).
  change (reread (VObj own))
    with (Some (VObj (collect (omap keep
                 (enumeration_order (map (relabel reread) own)))))) in Hre.
  injection Hre as <-. eauto.
Qed.

Lemma saved_object_is_read (this : ref) (w : World) (db : Database) (p : proto)
    (own : list (string * value)) :
  heap w !! this = Some db -> data db = MObj p own ->
  fst (saveDataToFile this w) = Return () ->
  snd (saveDataToFile this w) = written (jsonFilePath db) (object_text own) w
  /\ readFileSync (fs (snd (saveDataToFile this w))) (jsonFilePath db)
     = Return (object_text own).
Proof.
  intros Hdb Hdata Hsave.
  destruct (writable_or_not (fs w) (jsonFilePath db)) as [Hw | [e Hw]].
  2: { rewrite (save_object_unwritable this w db p own e) in Hsave by done.
       discriminate. }
  rewrite (save_object_writable this w db p own) by done. cbn [snd].
  split; [reflexivity |]. apply (read_after_write (fs w)). apply Hw.
Qed.

(** X18: a store whose mirror is an ordinary object of storable values
    (integers of magnitude at most 2^53, strings and keys without control
    characters that need a [\u] escape), its keys distinct, is saved, and
    the save succeeds.  Then [fetchDataFromFile] returns, and the mirror
    it installs is an object with prototype [Object.prototype] whose
    entries are those saved, read back: key by key, the value is the one
    saved ([undefined] inside an array became [null]), and a key whose
    value was [undefined] is no longer there. *)
Theorem saved_file_reads_back (this : ref) (w : World) (db : Database)
    (p : proto) (own : list (string * value)) :
  heap w !! this = Some db -> data db = MObj p own ->
  storable (VObj own) = true -> NoDup (map fst own) ->
  fst (saveDataToFile this w) = Return () ->
  let w1 := snd (saveDataToFile this w) in
  exists own',
    reread (VObj own) = Some (VObj own')
    /\ fetchDataFromFile this w1
       = (Return (), assigned this (MObj ProtoObject own') db w1)
    /\ forall k, own_lookup k own' = own_lookup k own ≫= reread.
Proof.
  intros Hdb Hdata Hst Hnd Hsave. cbv zeta.
  destruct (saved_object_is_read this w db p own Hdb Hdata Hsave) as [Hw1 Hread].
  destruct (object_text_parses own Hst) as (own' & Hre & Hparse).
  exists own'. split; [exact Hre |]. split.
  - rewrite (fetchDataFromFile_guard this _ db (object_text own) "" (VObj own'));
      [reflexivity | | exact Hread | exact Hparse].
    by rewrite saveDataToFile_heap.
  - intros k. by apply reread_object_lookup.
Qed.

(** A store with a string, an [undefined] and an array around an
    [undefined]. *)
Lemma saved_file_reads_back_witness :
  let w := run_calls [CallNew (VStr "db.json") None;
                      CallSetLocal 0 "b" (VStr "x");
                      CallSetLocal 0 "u" VUndefined;
                      CallSetLocal 0 "1" (VArr [VUndefined; VNum (-5)])]
             (fresh_process 1700000000000 false) in
  heap (snd (fetchDataFromFile 0 (snd (saveDataToFile 0 w)))) !! 0
  = Some {| jsonFilePath := "db.json"; options := no_options;
            data := MObj ProtoObject
                      [("1", VArr [VNull; VNum (-5)]); ("b", VStr "x")] |}.
Proof.
  intros w.
  destruct (saved_file_reads_back 0 w
              {| jsonFilePath := "db.json"; options := no_options;
                 data := MObj ProtoObject
                           [("b", VStr "x"); ("u", VUndefined);
                            ("1", VArr [VUndefined; VNum (-5)])] |}
              ProtoObject
              [("b", VStr "x"); ("u", VUndefined);
               ("1", VArr [VUndefined; VNum (-5)])])
    as (own' & Hre & Hfetch & _).
  - vm_compute. reflexivity.
  - reflexivity.
  - vm_compute. reflexivity.
  - apply (bool_decide_unpack _). vm_compute. exact I.
  - vm_compute. reflexivity.
  - vm_compute in Hre. injection Hre as <-.
    rewrite Hfetch. apply assigned_lookup.
Defined.

(** X19: what one process saved, another one loads.  After a successful
    save of an object of storable values with distinct keys, a
    construction (without snapshots) for the same
    path in a world with the same files and no registry entry for the
    path returns a new object whose mirror holds the entries saved, read
    back; the construction writes nothing. *)
Theorem saved_store_reopens (this : ref) (w w2 : World) (db : Database)
    (p : proto) (own : list (string * value)) (opts : option DatabaseOptions) :
  heap w !! this = Some db -> data db = MObj p own ->
  storable (VObj own) = true -> NoDup (map fst own) ->
  fst (saveDataToFile this w) = Return () ->
  fs w2 = fs (snd (saveDataToFile this w)) ->
  unregistered (jsonFilePath db) w2 ->
  snapshots_off (default no_options opts) ->
  let that := fresh (dom (heap w2)) in
  exists own' w',
    constructor (VStr (jsonFilePath db)) opts w2 = (Return (Store that), w')
    /\ heap w' !! that
       = Some (new_store (jsonFilePath db) (default no_options opts)
                 (MObj ProtoObject own'))
    /\ (forall k, own_lookup k own' = own_lookup k own ≫= reread)
    /\ fs w' = fs w2.
Proof.
  intros Hdb Hdata Hst Hnd Hsave Hfs Hun Hoff. cbv zeta.
  destruct (saved_object_is_read this w db p own Hdb Hdata Hsave) as [_ Hread].
  destruct (object_text_parses own Hst) as (own' & Hre & Hparse).
  rewrite <- Hfs in Hread.
  rewrite constructor_reaches_file by done. cbv zeta.
  rewrite (readFileSync_exists _ _ _ Hread). cbn [negb].
  erewrite (fetchDataFromFile_guard _ _
              (with_data empty_object
                 (new_store (jsonFilePath db) (default no_options opts) MUndefined)));
    [| apply assigned_lookup | exact Hread | exact Hparse].
  rewrite bool_decide_eq_true_2 by done.
  exists own'. eexists. split; [reflexivity |]. split; [| split].
  - simpl. by rewrite lookup_insert_eq.
  - intros k. by apply reread_object_lookup.
  - reflexivity.
Qed.

(** The store above, saved, and a process started on its files. *)
Lemma saved_store_reopens_witness :
  let w := run_calls [CallNew (VStr "db.json") None;
                      CallSetLocal 0 "b" (VStr "x");
                      CallSetLocal 0 "u" VUndefined;
                      CallSetLocal 0 "1" (VArr [VUndefined; VNum (-5)])]
             (fresh_process 1700000000000 false) in
  let w2 := run_calls [FilesBecome (fs (snd (saveDataToFile 0 w)))]
              (fresh_process 1700000000001 false) in
  exists own' w',
    constructor (VStr "db.json") None w2 = (Return (Store 0), w')
    /\ heap w' !! 0 = Some (new_store "db.json" no_options (MObj ProtoObject own'))
    /\ own_lookup "b" own' = Some (VStr "x")
    /\ own_lookup "u" own' = None
    /\ own_lookup "1" own' = Some (VArr [VNull; VNum (-5)]).
Proof.
  intros w w2.
  destruct (saved_store_reopens 0 w w2
              {| jsonFilePath := "db.json"; options := no_options;
                 data := MObj ProtoObject
                           [("b", VStr "x"); ("u", VUndefined);
                            ("1", VArr [VUndefined; VNum (-5)])] |}
              ProtoObject
              [("b", VStr "x"); ("u", VUndefined);
               ("1", VArr [VUndefined; VNum (-5)])] None)
    as (own' & w' & Hrun & Hheap & Hlook & _).
  - vm_compute. reflexivity.
  - reflexivity.
  - vm_compute. reflexivity.
  - apply (bool_decide_unpack _). vm_compute. exact I.
  - vm_compute. reflexivity.
  - vm_compute. reflexivity.
  - repeat split; [discriminate | vm_compute; reflexivity..].
  - intros snap Hsnap. discriminate.
  - exists own', w'. split; [exact Hrun |]. split; [exact Hheap |].
    rewrite !Hlook. repeat split.
Defined.

(** ** Snapshots: what [makeSnapshot] and the timers leave behind *)

Lemma makeSnapshot_run (this : ref) (folderPath : string) (w : World)
    (db : Database) :
  heap w !! this = Some db ->
  makeSnapshot this folderPath w
  = (_ ← when (negb (existsSync (fs w) folderPath)) (fs_mkdirSync folderPath);
     time ← Date_now;
     fs_writeFileSync
       (path_join folderPath (snapshot_name (jsonFilePath db) time)) None) w.
Proof.
  intros Hdb. unfold makeSnapshot. rewrite run_bind. unfold deref.
  rewrite Hdb. rewrite run_bind. reflexivity.
Qed.

(** X20: where [writeFileSync] refuses a missing data argument (Node 14
    and later), [makeSnapshot] never returns and never writes a file, for
    any store, folder and state: it throws, the files and the log of
    writes are as before, and so is the heap; at most the snapshot
    folder has been created.  When the folder exists the error is the
    [TypeError] of [writeFileSync] and nothing at all has changed. *)
Theorem makeSnapshot_never_succeeds (this : ref) (folderPath : string)
    (w : World) (db : Database) :
  heap w !! this = Some db -> coerces_data w = false ->
  let r := makeSnapshot this folderPath w in
  (exists e, fst r = Throw e)
  /\ files (fs (snd r)) = files (fs w)
  /\ write_log (snd r) = write_log w
  /\ heap (snd r) = heap w
  /\ (dirs (fs (snd r)) = dirs (fs w)
      \/ dirs (fs (snd r)) = {[canon folderPath]} ∪ dirs (fs w))
  /\ (existsSync (fs w) folderPath = true ->
      r = (Throw (TypeError "The data argument must be of type string"), w)).
Proof.
  intros Hdb Hnode. cbv zeta. rewrite (makeSnapshot_run _ _ _ _ Hdb).
  rewrite run_bind.
  destruct (existsSync (fs w) folderPath) eqn:Hthere; cbn [negb when].
  - rewrite run_ret, run_bind. unfold Date_now, fs_writeFileSync.
    rewrite Hnode. cbn [fst snd]. eauto 10.
  - unfold fs_mkdirSync, mkdirSync.
    destruct (lookup_path (fs w) folderPath);
      try (cbn [fst snd]; split; [eauto |]; repeat split; auto; intros; discriminate).
    destruct (check_parent (fs w) folderPath);
      [cbn [fst snd]; split; [eauto |]; repeat split; auto; intros; discriminate |].
    rewrite run_bind. unfold Date_now, fs_writeFileSync.
    change (coerces_data (with_fs _ w)) with (coerces_data w). rewrite Hnode.
    cbn [fst snd]. split; [eauto |]. repeat split; auto; intros; discriminate.
Qed.

(** The store holding [a = 1], and a folder that does not exist yet. *)
Lemma makeSnapshot_never_succeeds_witness :
  makeSnapshot 0 "snaps" (store_a1 false)
  = (Throw (TypeError "The data argument must be of type string"),
     with_fs {| files := files (fs (store_a1 false));
                dirs := {[ "snaps" ]} ∪ dirs (fs (store_a1 false)) |}
       (store_a1 false))
  /\ files (fs (snd (makeSnapshot 0 "snaps" (store_a1 false))))
     = files (fs (store_a1 false)).
Proof.
  split; [vm_compute; reflexivity |].
  apply (makeSnapshot_never_succeeds 0 "snaps" (store_a1 false)
           (new_store "db.json" no_options (MObj ProtoObject [("a", VNum 1)]))).
  - vm_compute. reflexivity.
  - reflexivity.
Defined.

Lemma makeSnapshot_writes_nothing (this : ref) (folderPath : string) (w : World) :
  coerces_data w = false ->
  let w' := snd (makeSnapshot this folderPath w) in
  files (fs w') = files (fs w) /\ write_log w' = write_log w
  /\ coerces_data w' = false.
Proof.
  intros Hnode. cbv zeta.
  destruct (heap w !! this) as [db |] eqn:Hdb.
  2: { unfold makeSnapshot. rewrite run_bind. unfold deref. rewrite Hdb. by auto. }
  rewrite (makeSnapshot_run _ _ _ _ Hdb), run_bind.
  destruct (existsSync (fs w) folderPath); cbn [negb when].
  - rewrite run_ret, run_bind. unfold Date_now, fs_writeFileSync.
    rewrite Hnode. by auto.
  - unfold fs_mkdirSync, mkdirSync.
    destruct (lookup_path (fs w) folderPath); try by auto.
    destruct (check_parent (fs w) folderPath); [by auto |].
    rewrite run_bind. unfold Date_now, fs_writeFileSync.
    change (coerces_data (with_fs _ w)) with (coerces_data w). rewrite Hnode.
    by auto.
Qed.

(** X21: the snapshot timers produce nothing.  Where [writeFileSync]
    refuses a missing data argument, however many timers fire and however
    much time passes, no file is created or changed and nothing is
    written. *)
Theorem snapshot_timers_write_nothing (cs : list call) (w : World) :
  forallb is_tick cs = true -> coerces_data w = false ->
  files (fs (run_calls cs w)) = files (fs w)
  /\ write_log (run_calls cs w) = write_log w.
Proof.
  revert w. induction cs as [| c cs IH]; intros w Hcs Hnode; [by auto |].
  simpl in Hcs. apply andb_true_iff in Hcs as [Hc Hcs].
  change (run_calls (c :: cs) w) with (run_calls cs (run_call c w)).
  assert (files (fs (run_call c w)) = files (fs w)
          /\ write_log (run_call c w) = write_log w
          /\ coerces_data (run_call c w) = false) as (Hf & Hl & Hn).
  { destruct c; try discriminate; simpl.
    - destruct (timers w !! n) as [t |]; [| by auto].
      by apply makeSnapshot_writes_nothing.
    - by auto. }
  destruct (IH _ Hcs Hn) as [-> ->]. by auto.
Qed.

(** A store with daily snapshots under [backups], two days on. *)
Lemma snapshot_timers_write_nothing_witness :
  let opts := {| snapshots := Some {| enabled := VBool true;
                                      path := VStr "backups";
                                      interval := VNum 86400000 |};
                 forceNew := VUndefined; indented := VUndefined |} in
  let w := run_calls [CallNew (VStr "db.json") (Some opts)]
             (fresh_process 1700000000000 false) in
  timers w = [{| owner := 0; folder := "backups"; period := 86400000 |}]
  /\ files (fs (run_calls [ClockShows 1700086400000; TimerFires 0;
                           ClockShows 1700172800000; TimerFires 0] w))
     = files (fs w).
Proof.
  intros opts w. split; [vm_compute; reflexivity |].
  apply (snapshot_timers_write_nothing
           [ClockShows 1700086400000; TimerFires 0;
            ClockShows 1700172800000; TimerFires 0] w); reflexivity.
Defined.

(** ** Clearing the store *)

(** [array] on an empty object. *)
Lemma array_run_empty (this : ref) (outputType : value) (w : World)
    (db : Database) :
  heap w !! this = Some db -> data db = empty_object ->
  fst (array this outputType w)
  = Return (match outputType with
            | VStr "keys" => Keys []
            | VStr "values" => Values []
            | _ => Pairs []
            end).
Proof.
  intros Hdb Hdata. unfold array. rewrite run_bind. unfold deref.
  rewrite Hdb, Hdata.
  assert (forall s, fst (match s with
                    | "keys" =>
                        entries ← lift (mirror_entries empty_object);
                        mret (Keys (map fst entries))
                    | "values" =>
                        entries ← lift (mirror_entries empty_object);
                        mret (Values (map snd entries))
                    | _ =>
                        entries ← lift (mirror_entries empty_object);
                        pairs ← for_each
                                  (fun key => v ← lift (mirror_get empty_object key);
                                              mret (key, v))
                                  (map fst entries);
                        mret (Pairs pairs)
                    end w)
                = Return (match s with
                          | "keys" => Keys []
                          | "values" => Values []
                          | _ => Pairs []
                          end)) as Hs.
  { intros s.
    repeat (destruct s as [| [[] [] [] [] [] [] [] []] s]; try reflexivity). }
  destruct outputType; try reflexivity. apply Hs.
Qed.

(** X22: [deleteAll] and [deleteAllLocal] start afresh, whatever the
    mirror was (an object with any prototype, an array, [null]): after
    them [has] is false for every key, [get] returns what
    [Object.prototype] supplies, and [array] is empty in each mode; and
    when [deleteAll] returns, the file holds [{}]. *)
Theorem deleteAll_starts_afresh (this : ref) (w : World) (db : Database)
    (key : string) (outputType : value) :
  heap w !! this = Some db ->
  let w1 := snd (deleteAllLocal this w) in
  let w2 := snd (deleteAll this w) in
  let nothing := match outputType with
                 | VStr "keys" => Keys []
                 | VStr "values" => Values []
                 | _ => Pairs []
                 end in
  fst (has this key w1) = Return false
  /\ fst (get this key w1) = Return (object_prototype_get JObjectPrototype key)
  /\ fst (array this outputType w1) = Return nothing
  /\ fst (has this key w2) = Return false
  /\ fst (get this key w2) = Return (object_prototype_get JObjectPrototype key)
  /\ fst (array this outputType w2) = Return nothing
  /\ (fst (deleteAll this w) = Return () ->
      contents (fs w2) (jsonFilePath db) = Some "{}").
Proof.
  intros Hdb. cbv zeta.
  assert (heap (snd (deleteAllLocal this w)) !! this
          = Some (with_data empty_object db)) as H1.
  { unfold deleteAllLocal. rewrite (assign_data_run _ _ _ _ Hdb).
    apply assigned_lookup. }
  assert (heap (snd (deleteAll this w)) !! this
          = Some (with_data empty_object db)) as H2.
  { unfold deleteAll. rewrite run_bind, (assign_data_run _ _ _ _ Hdb).
    rewrite saveDataToFile_heap. apply assigned_lookup. }
  rewrite (has_run _ _ _ _ H1), (get_run _ _ _ _ H1).
  rewrite (has_run _ _ _ _ H2), (get_run _ _ _ _ H2).
  rewrite (array_run_empty _ _ _ _ H1), (array_run_empty _ _ _ _ H2) by done.
  do 6 (split; [reflexivity |]).
  unfold deleteAll. rewrite run_bind, (assign_data_run _ _ _ _ Hdb).
  destruct (writable_or_not (fs w) (jsonFilePath db)) as [Hw | [e Hw]].
  - rewrite (save_object_writable this _ (with_data empty_object db) ProtoObject []);
      [| apply assigned_lookup | reflexivity | exact Hw].
    intros _. apply (contents_written (jsonFilePath db) "{}").
  - rewrite (save_object_unwritable this _ (with_data empty_object db) ProtoObject [] e);
      [| apply assigned_lookup | reflexivity | exact Hw].
    discriminate.
Qed.

(** A store loaded from a file that holds [null]: [has] throws until the
    store is cleared. *)
Lemma deleteAll_starts_afresh_witness :
  let w := run_calls [FilesBecome {| files := {[ "db.json" := "null" ]};
                                     dirs := {[ "." ]} |};
                      CallNew (VStr "db.json") None]
             (fresh_process 1700000000000 false) in
  fst (has 0 "a" w) = Throw (TypeError "Cannot convert undefined or null to object")
  /\ fst (has 0 "a" (snd (deleteAll 0 w))) = Return false
  /\ contents (fs (snd (deleteAll 0 w))) "db.json" = Some "{}".
Proof.
  intros w. split; [vm_compute; reflexivity |].
  destruct (deleteAll_starts_afresh 0 w
              (new_store "db.json" no_options MNull) "a" VUndefined)
    as (_ & _ & _ & Hhas & _ & _ & Hfile).
  - vm_compute. reflexivity.
  - split; [exact Hhas |]. apply Hfile. vm_compute. reflexivity.
Defined.
